(** * NewsPaper_Agent: deduplication, highlight synthesis and retrieval answering

    A shallow embedding of [ai_processor.py], [rag_chatbot.py], [models.py]
    and [config.py].

    Conventions of the embedding.
    - Python [str] is [string], one [ascii] per character.  The string
      helpers below are Python's on ASCII text ([Py.isascii]), where
      characters and bytes are the same; [len], slicing, [lower] and [strip]
      of Python work on code points, so on other text they differ, and the
      statements that depend on them are stated for ASCII text.
    - Python [float] values are exact rationals [Q].  Every score the code
      computes is a multiple of one half, so no rounding is involved there;
      similarities and distances enter only through comparisons with the
      threshold.
    - An operation that may raise returns an [Outcome]; [try]/[except] is a
      [match] on it.
    - Module-level and instance state lives in a [World] that is passed
      explicitly; the third-party services (OpenAI, SentenceTransformer,
      scikit-learn, ChromaDB) are the fields of an [Env]. *)

From Stdlib Require Import ZArith QArith Ascii String DecimalString Lia.
From Stdlib Require Import Sorted Permutation.
From stdpp Require Import base list strings.

Local Open Scope string_scope.
Local Open Scope list_scope.
Local Open Scope nat_scope.

(** ** Outcomes: a value returned or an exception raised *)

Inductive Outcome (A : Type) : Type :=
| Returns (a : A)
| Raises (error_str : string).
Arguments Returns {A} a.
Arguments Raises {A} error_str.

Definition obind {A B} (m : Outcome A) (k : A -> Outcome B) : Outcome B :=
  match m with
  | Returns a => k a
  | Raises e => Raises e
  end.

(** ** Python string operations *)

Module Py.

(** The line feed character, as a string. *)
Definition NL : string := String (ascii_of_nat 10) EmptyString.

(** [c.isspace()] on ASCII: tab, LF, VT, FF, CR, FS, GS, RS, US, space. *)
Definition isspace (c : ascii) : bool :=
  let n := nat_of_ascii c in
  ((9 <=? n) && (n <=? 13)) || ((28 <=? n) && (n <=? 32)).

Definition lower_char (c : ascii) : ascii :=
  let n := nat_of_ascii c in
  if (65 <=? n) && (n <=? 90) then ascii_of_nat (n + 32) else c.

(** [s.lower()] *)
Fixpoint lower (s : string) : string :=
  match s with
  | EmptyString => EmptyString
  | String c s' => String (lower_char c) (lower s')
  end.

Fixpoint lstrip (s : string) : string :=
  match s with
  | EmptyString => EmptyString
  | String c s' => if isspace c then lstrip s' else s
  end.

Fixpoint rstrip (s : string) : string :=
  match s with
  | EmptyString => EmptyString
  | String c s' =>
      match rstrip s' with
      | EmptyString => if isspace c then EmptyString else String c EmptyString
      | r => String c r
      end
  end.

(** [s.strip()] *)
Definition strip (s : string) : string := rstrip (lstrip s).

(** [s[:n]] *)
Fixpoint take (n : nat) (s : string) : string :=
  match n, s with
  | S n', String c s' => String c (take n' s')
  | _, _ => EmptyString
  end.

(** [needle in hay] *)
Fixpoint contains (needle hay : string) : bool :=
  String.prefix needle hay ||
  match hay with
  | EmptyString => false
  | String _ hay' => contains needle hay'
  end.

(** [s.split(sep)] for a one-character separator *)
Fixpoint split (sep : ascii) (s : string) : list string :=
  match s with
  | EmptyString => [EmptyString]
  | String c s' =>
      if Ascii.eqb c sep then EmptyString :: split sep s'
      else match split sep s' with
           | w :: ws => String c w :: ws
           | [] => [String c EmptyString]
           end
  end.

(** [s.split()]: maximal runs of non-space characters *)
Fixpoint words (s : string) : list string :=
  match s with
  | EmptyString => []
  | String c s' =>
      if isspace c then words s'
      else match s' with
           | EmptyString => [String c EmptyString]
           | String c' _ =>
               if isspace c' then String c EmptyString :: words s'
               else match words s' with
                    | w :: ws => String c w :: ws
                    | [] => [String c EmptyString]
                    end
           end
  end.

(** [sep.join(l)] *)
Definition join (sep : string) (l : list string) : string := String.concat sep l.

(** [str(n)] for an [int] *)
Definition str_int (z : Z) : string := NilZero.string_of_int (Z.to_int z).

(** [s.isascii()] *)
Fixpoint isascii (s : string) : bool :=
  match s with
  | EmptyString => true
  | String c s' => (nat_of_ascii c <? 128) && isascii s'
  end.

(** One hexadecimal digit, in lower case. *)
Definition hex_digit (n : nat) : ascii :=
  if n <? 10 then ascii_of_nat (48 + n) else ascii_of_nat (87 + n).

(** What [repr] writes for one character inside the quotes: the quote in
    use and the backslash are escaped; tab, line feed and carriage return
    have their letters; any other control character is written [\xhh]. *)
Definition repr_char (quote c : ascii) : string :=
  let n := nat_of_ascii c in
  let backslash := ascii_of_nat 92 in
  if Ascii.eqb c quote || Ascii.eqb c backslash
  then String backslash (String c EmptyString)
  else if Nat.eqb n 9 then String backslash "t"
  else if Nat.eqb n 10 then String backslash "n"
  else if Nat.eqb n 13 then String backslash "r"
  else if (n <? 32) || Nat.eqb n 127
  then String backslash
         (String "x" (String (hex_digit (n / 16))
                             (String (hex_digit (n mod 16)) EmptyString)))
  else String c EmptyString.

Fixpoint repr_body (quote : ascii) (s : string) : string :=
  match s with
  | EmptyString => EmptyString
  | String c s' => String.append (repr_char quote c) (repr_body quote s')
  end.

(** [repr(s)]: in single quotes, or in double quotes when the text has a
    single quote and no double quote. *)
Definition repr (s : string) : string :=
  let single := ascii_of_nat 39 in
  let double := ascii_of_nat 34 in
  let quote :=
    if contains (String single EmptyString) s
       && negb (contains (String double EmptyString) s)
    then double else single in
  String quote (String.append (repr_body quote s) (String quote EmptyString)).

(** Truthiness of an [Optional[str]]: [None] and [""] are falsy. *)
Definition truthy (o : option string) : bool :=
  match o with
  | Some s => negb (String.eqb s "")
  | None => false
  end.

End Py.

(** ** models.py *)

(** [datetime] values are opaque to the engine; a timestamp stands for them. *)
Definition datetime := Z.

Module Article.
Record t := mk {
  title : string;
  content : string;
  author : option string;
  source : string;
  url : string;
  category : option string;
  published_date : option datetime;
  extracted_at : datetime;
  summary : option string;
  keywords : list string;
  is_duplicate : bool;
  duplicate_group_id : option string
}.

Definition set_is_duplicate (b : bool) (a : t) : t :=
  mk (title a) (content a) (author a) (source a) (url a) (category a)
     (published_date a) (extracted_at a) (summary a) (keywords a)
     b (duplicate_group_id a).

Definition set_duplicate_group_id (g : option string) (a : t) : t :=
  mk (title a) (content a) (author a) (source a) (url a) (category a)
     (published_date a) (extracted_at a) (summary a) (keywords a)
     (is_duplicate a) g.
End Article.

Module Highlight.
Record t := mk {
  title : string;
  summary : string;
  category : string;
  sources : list string;
  authors : list string;
  frequency : Z;
  priority_score : Q;
  keywords : list string;
  urls : list string;
  published_dates : list datetime
}.
End Highlight.

(** ** config.py *)

Record Config := {
  OPENAI_API_KEY : string;
  USE_OPENAI : bool
}.

Definition PRIORITY_KEYWORDS : list string :=
  ["breaking news"; "breaking"; "urgent"; "exclusive"; "alert"; "update";
   "developing"].

Definition SIMILARITY_THRESHOLD : Q := 85 # 100.

(** ** The external services *)

(** One chat-completion request. *)
Record Request := {
  system_content : string;
  user_content : string;
  max_tokens : nat;
  temperature : Q
}.

(** What the guarded provider call produces: the text of the first choice,
    or the exception raised inside the [try] block, as [str(e)]. *)
Inductive Response :=
| Completion (text : string)
| Failure (error_str : string).

Definition Embedding := list Q.

Record Env := {
  config : Config;
  (** [openai_client.chat.completions.create]; the first argument is the
      number of requests issued before this one, so availability may change
      over time. *)
  chat_completions_create : nat -> Request -> Response;
  (** [SentenceTransformer.encode]: the vector of one text (the model is
      deterministic and embeds each text of a batch on its own), and the
      exception the call raises when it fails *)
  encode : string -> Embedding;
  encode_fault : option string;
  (** cosine similarity of two embeddings *)
  cosine_similarity : Embedding -> Embedding -> Q;
  (** exceptions raised by scikit-learn and by ChromaDB's [add] and [query],
      when they fail *)
  fit_predict_fault : option string;
  add_fault : option string;
  query_fault : option string
}.

(** [openai_client] is created at import time, in [ai_processor] and in
    [rag_chatbot] alike, iff [config.USE_OPENAI and config.OPENAI_API_KEY]. *)
Definition openai_client (env : Env) : bool :=
  USE_OPENAI (config env) && negb (String.eqb (OPENAI_API_KEY (config env)) "").

(** ** Process state *)

(** One stored document of the ChromaDB collection [news_highlights]. *)
Record Entry := {
  entry_id : string;
  entry_document : string;
  entry_metadata : list (string * string);
  entry_embedding : Embedding
}.

Record World := {
  (** the module global [ai_processor._openai_quota_exceeded] *)
  _openai_quota_exceeded : bool;
  (** every request sent to the provider so far, oldest first *)
  provider_log : list Request;
  (** [RAGChatbot.collection] *)
  collection : list Entry
}.

Definition initial_world : World :=
  {| _openai_quota_exceeded := false; provider_log := []; collection := [] |}.

Definition log_request (r : Request) (w : World) : World :=
  {| _openai_quota_exceeded := _openai_quota_exceeded w;
     provider_log := provider_log w ++ [r];
     collection := collection w |}.

Definition set_quota_exceeded (w : World) : World :=
  {| _openai_quota_exceeded := true;
     provider_log := provider_log w;
     collection := collection w |}.

Definition set_collection (c : list Entry) (w : World) : World :=
  {| _openai_quota_exceeded := _openai_quota_exceeded w;
     provider_log := provider_log w;
     collection := c |}.

(** Sends one request to the provider and records it. *)
Definition call_provider (env : Env) (r : Request) (w : World) : Response * World :=
  (chat_completions_create env (length (provider_log w)) r, log_request r w).

(** The quota / rate-limit signature of an error message
    ([ai_processor.py] line 98, [rag_chatbot.py] line 149). *)
Definition is_quota_error (error_str : string) : bool :=
  Py.contains "429" error_str
  || Py.contains "quota" (Py.lower error_str)
  || Py.contains "insufficient_quota" (Py.lower error_str).

(** ** ai_processor.py: summarization *)

Definition _extractive_summary (article : Article.t) : string :=
  let sentences :=
    List.filter (fun s => 20 <? String.length s)
                (List.map Py.strip (Py.split "." (Article.content article))) in
  let summary :=
    if 3 <=? length sentences then Py.join ". " (firstn 3 sentences) +:+ "."
    else if 2 <=? length sentences then Py.join ". " (firstn 2 sentences) +:+ "."
    else match sentences with
         | s :: _ => s +:+ "."
         | [] =>
             let summary := Py.take 200 (Article.content article) in
             if 200 <? String.length (Article.content article)
             then summary +:+ "..." else summary
         end in
  if 300 <? String.length summary then Py.take 300 summary +:+ "..." else summary.

Definition summarize_request (article : Article.t) : Request :=
  {| system_content :=
       "You are a news summarizer. Create concise, informative summaries.";
     user_content :=
       "Summarize this news article in 2-3 sentences:" +:+ Py.NL +:+ Py.NL
       +:+ "Title: " +:+ Article.title article +:+ Py.NL +:+ Py.NL
       +:+ "Content: " +:+ Py.take 2000 (Article.content article);
     max_tokens := 150;
     temperature := 3 # 10 |}.

Definition summarize_article (env : Env) (article : Article.t) (w : World)
  : string * World :=
  if negb (openai_client env) || _openai_quota_exceeded w then
    (_extractive_summary article, w)
  else
    match call_provider env (summarize_request article) w with
    | (Completion text, w1) => (Py.strip text, w1)
    | (Failure error_str, w1) =>
        if is_quota_error error_str then
          (_extractive_summary article,
           if _openai_quota_exceeded w1 then w1 else set_quota_exceeded w1)
        else
          (_extractive_summary article, w1)
    end.

(** ** Stable sorting

    [list.sort] and the ranking of the vector index are stable sorts.  The
    result of a stable sort is determined by the order alone; insertion
    computes it.  [before y x] says that [y] must come strictly before [x]. *)

Section StableSort.
Context {A : Type} (before : A -> A -> bool).

Fixpoint insert_sorted (x : A) (l : list A) : list A :=
  match l with
  | [] => [x]
  | y :: l' => if before y x then y :: insert_sorted x l' else x :: l
  end.

Definition stable_sort (l : list A) : list A := fold_right insert_sorted [] l.

(** [x] may stand before [y]: [y] is not required to come strictly first. *)
Definition may_precede (x y : A) : Prop := before y x = false.
End StableSort.

(** ** scikit-learn's DBSCAN on a precomputed distance matrix *)

(** Modelled from the spec: [sklearn.cluster.DBSCAN] is a third-party
    library whose code is not part of the repository.  The spec asks for
    "density-based clustering (DBSCAN semantics): neighborhood radius [eps],
    minimum neighborhood size 2, using the precomputed distance matrix", with
    "a cluster label per record, or a sentinel noise value".  The definitions
    follow the library's [fit] and its [dbscan_inner] search: a sample is a
    core sample when at least [min_samples] samples, itself included, lie
    within [eps]; clusters are numbered from 0 in the order of their
    lowest-indexed core sample; noise is -1. *)

Module DBSCAN.

(** the label of unclustered samples *)
Definition noise : Z := (-1)%Z.

(** positions [k], [k+1], ... of the entries of [row] that satisfy [p] *)
Fixpoint positions {A} (p : A -> bool) (k : nat) (row : list A) : list nat :=
  match row with
  | [] => []
  | d :: row' => if p d then k :: positions p (S k) row' else positions p (S k) row'
  end.

(** [radius_neighbors]: for every sample, the samples at distance at most
    [eps], the sample itself included *)
Definition radius_neighbors (eps : Q) (X : list (list Q)) : list (list nat) :=
  map (fun row => positions (fun d => Qle_bool d eps) 0 row) X.

Definition core_samples (min_samples : nat) (neighborhoods : list (list nat))
  : list bool :=
  map (fun neighb => min_samples <=? length neighb) neighborhoods.

Definition unlabelled (labels : list Z) (i : nat) : bool :=
  match labels !! i with
  | Some l => Z.eqb l noise
  | None => false
  end.

Definition is_core_at (is_core : list bool) (i : nat) : bool :=
  match is_core !! i with
  | Some b => b
  | None => false
  end.

Definition neighb_at (neighborhoods : list (list nat)) (i : nat) : list nat :=
  match neighborhoods !! i with
  | Some neighb => neighb
  | None => []
  end.

(** the [for] loop that pushes the unlabelled neighbours; the head of the
    list is the back of the stack *)
Definition push_unlabelled (labels : list Z) (neighb stack : list nat) : list nat :=
  fold_left (fun st v => if unlabelled labels v then v :: st else st) neighb stack.

Section Inner.
Variables (is_core : list bool) (neighborhoods : list (list nat)).

(** The [while True] loop of [dbscan_inner]: a depth-first search from
    [i]; [None] when the fuel runs out. *)
Fixpoint expand (fuel : nat) (label_num : Z) (i : nat) (stack : list nat)
         (labels : list Z) : option (list Z) :=
  match fuel with
  | 0 => None
  | S fuel' =>
      let labels1 :=
        if unlabelled labels i then <[i := label_num]> labels else labels in
      let stack1 :=
        if unlabelled labels i && is_core_at is_core i
        then push_unlabelled labels1 (neighb_at neighborhoods i) stack
        else stack in
      match stack1 with
      | [] => Some labels1
      | v :: rest => expand fuel' label_num v rest labels1
      end
  end.

(** The outer [for i in range(n)] loop. *)
Fixpoint sweep (fuel : nat) (todo : list nat) (label_num : Z) (labels : list Z)
  : option (list Z) :=
  match todo with
  | [] => Some labels
  | i :: todo' =>
      if negb (unlabelled labels i) || negb (is_core_at is_core i)
      then sweep fuel todo' label_num labels
      else match expand fuel label_num i [] labels with
           | Some labels' => sweep fuel todo' (label_num + 1)%Z labels'
           | None => None
           end
  end.
End Inner.

(** Every search labels a sample or pops the stack, and labelling pushes
    at most [n] samples: this fuel is never used up (see [expand_total]). *)
Definition enough_fuel (n : nat) : nat := S (n * S n).

Definition dbscan_inner (is_core : list bool) (neighborhoods : list (list nat))
           (labels : list Z) : option (list Z) :=
  let n := length labels in
  sweep is_core neighborhoods (enough_fuel n) (seq 0 n) 0%Z labels.

(** [DBSCAN(eps, min_samples, metric='precomputed').fit_predict(X)] *)
Definition fit_predict (eps : Q) (min_samples : nat) (X : list (list Q))
  : option (list Z) :=
  let neighborhoods := radius_neighbors eps X in
  let is_core := core_samples min_samples neighborhoods in
  dbscan_inner is_core neighborhoods (replicate (length X) noise).

(** The vocabulary of the search invariant.  [adjacent u v]: [v] is in the
    neighbourhood of [u]. *)
Definition adjacent (neighborhoods : list (list nat)) (u v : nat) : Prop :=
  In v (neighb_at neighborhoods u).

(** Every neighbour of a labelled sample carries the same label, or is
    unlabelled and waits on the stack of the running search. *)
Definition linked (neighborhoods : list (list nat)) (label_num : Z)
           (waiting : list nat) (labels : list Z) : Prop :=
  forall u v lu,
    adjacent neighborhoods u v -> labels !! u = Some lu -> lu <> noise ->
    labels !! v = Some lu
    \/ (labels !! v = Some noise /\ lu = label_num /\ In v waiting).

Definition closed (neighborhoods : list (list nat)) (labels : list Z) : Prop :=
  forall u v lu,
    adjacent neighborhoods u v -> labels !! u = Some lu -> lu <> noise ->
    labels !! v = Some lu.

(** Labelled samples keep their label. *)
Definition keeps (labels labels' : list Z) : Prop :=
  forall u lu, labels !! u = Some lu -> lu <> noise -> labels' !! u = Some lu.

(** The number of samples still unlabelled: the measure of the search. *)
Definition pending_count (labels : list Z) : nat :=
  length (List.filter (fun l => Z.eqb l noise) labels).

End DBSCAN.

(** ** ai_processor.py: duplicate detection *)

Definition embedding_text (article : Article.t) : string :=
  Article.title article +:+ " " +:+ Py.take 500 (Article.content article).

(** [np.clip(d, 0, None)] on one entry *)
Definition clip0 (d : Q) : Q := if Qle_bool 0 d then d else 0%Q.

(** [np.clip(1 - similarity_matrix, 0, None)] followed by
    [np.fill_diagonal(distance_matrix, 0)] *)
Definition distance_row (env : Env) (embeddings : list Embedding)
           (i : nat) (e : Embedding) : list Q :=
  imap (fun j e' =>
          if Nat.eqb i j then 0%Q
          else clip0 (1 - cosine_similarity env e e')%Q) embeddings.

Definition distance_matrix (env : Env) (embeddings : list Embedding) : list (list Q) :=
  imap (distance_row env embeddings) embeddings.

(** The [try] block of [detect_duplicates] (lines 140-159). *)
Definition cluster_labels (env : Env) (articles : list Article.t)
  : Outcome (list Z) :=
  let texts := map embedding_text articles in
  match encode_fault env with
  | Some e => Raises e
  | None =>
      let embeddings := map (encode env) texts in
      let eps := (1 - SIMILARITY_THRESHOLD)%Q in
      match fit_predict_fault env with
      | Some e => Raises e
      | None =>
          match DBSCAN.fit_predict eps 2 (distance_matrix env embeddings) with
          | Some labels => Returns labels
          | None => Raises "unreachable: DBSCAN.fit_predict always returns"
          end
      end
  end.

(** [cluster_groups]: a dict from label to the indices carrying it, in
    insertion order. *)
Fixpoint groups_append {K V} (eqb : K -> K -> bool) (k : K) (v : V)
         (groups : list (K * list V)) : list (K * list V) :=
  match groups with
  | [] => [(k, [v])]
  | (k', vs) :: rest =>
      if eqb k' k then (k', vs ++ [v]) :: rest
      else (k', vs) :: groups_append eqb k v rest
  end.

Definition cluster_groups_of (cluster_labels : list Z) : list (Z * list nat) :=
  fold_left (fun groups '(idx, label) =>
               if negb (Z.eqb label (-1)) then groups_append Z.eqb label idx groups
               else groups)
            (imap pair cluster_labels) [].

Definition group_name (cluster_id : Z) : string := "group_" +:+ Py.str_int cluster_id.

Definition mark_duplicate (cluster_id : Z) (a : Article.t) : Article.t :=
  Article.set_duplicate_group_id (Some (group_name cluster_id))
                                 (Article.set_is_duplicate true a).

Definition mark_primary (cluster_id : Z) (a : Article.t) : Article.t :=
  Article.set_duplicate_group_id (Some (group_name cluster_id)) a.

(** The body of [for cluster_id, indices in cluster_groups.items()].  The
    indices are positions of [cluster_labels], which has one entry per
    article, so no subscript is out of range. *)
Definition mark_cluster (processed_articles : list Article.t)
           (group : Z * list nat) : list Article.t :=
  let '(cluster_id, indices) := group in
  match indices with
  | [] => processed_articles
  | primary_idx :: dups =>
      fold_left (fun arts dup_idx =>
                   alter (mark_primary cluster_id) primary_idx
                         (alter (mark_duplicate cluster_id) dup_idx arts))
                dups processed_articles
  end.

(** [processed_articles] is a shallow copy: the marks are written to the
    [Article] objects of the argument, which the result shares.  The list
    holds one object per position (the extractor builds one per page), so a
    mark at one index changes no other. *)
Definition detect_duplicates (env : Env) (articles : list Article.t)
  : list Article.t :=
  if length articles <? 2 then articles
  else
    match cluster_labels env articles with
    | Raises _ => articles
    | Returns cluster_labels =>
        let cluster_groups := cluster_groups_of cluster_labels in
        fold_left mark_cluster cluster_groups articles
    end.

(** ** ai_processor.py: highlight synthesis *)

(** [article.duplicate_group_id or f"single_{article.url}"] *)
Definition group_id_of (article : Article.t) : string :=
  if Py.truthy (Article.duplicate_group_id article)
  then default "" (Article.duplicate_group_id article)
  else "single_" +:+ Article.url article.

Definition in_category (category : string) (a : Article.t) : bool :=
  match Article.category a with
  | Some c => String.eqb c category
  | None => false
  end.

Definition category_articles_of (articles : list Article.t) (category : string)
  : list Article.t :=
  List.filter (fun a => in_category category a && negb (Article.is_duplicate a))
              articles.

(** [article_groups]: a dict from group id to its articles, in insertion
    order. *)
Definition article_groups_of (category_articles : list Article.t)
  : list (string * list Article.t) :=
  fold_left (fun groups article =>
               groups_append String.eqb (group_id_of article) article groups)
            category_articles [].

Definition all_text_of (group_articles : list Article.t) : string :=
  Py.lower
    (Py.join " "
       (map (fun a => Article.title a +:+ " " +:+ Py.take 200 (Article.content a))
            group_articles)).

(** The loop over [config.PRIORITY_KEYWORDS], then the frequency boost. *)
Definition priority_score_of (group_articles : list Article.t) : Q :=
  let frequency := Z.of_nat (length group_articles) in
  let all_text := all_text_of group_articles in
  let priority_score :=
    fold_left (fun score keyword =>
                 if Py.contains keyword all_text then (score + 1)%Q else score)
              PRIORITY_KEYWORDS 0%Q in
  (priority_score + inject_Z frequency * (1 # 2))%Q.

Definition some_strings (l : list (option string)) : list string :=
  omap (fun o => if Py.truthy o then o else None) l.

(** The body of [for group_id, group_articles in article_groups.items()].
    A group is created with its first article, so [group_articles[0]]
    exists; an empty group yields no highlight here. *)
Definition make_highlight (env : Env) (category : string)
           (group_articles : list Article.t) (w : World)
  : option Highlight.t * World :=
  match group_articles with
  | [] => (None, w)
  | primary_article :: _ =>
      let frequency := Z.of_nat (length group_articles) in
      let priority_score := priority_score_of group_articles in
      let '(summary, w1) :=
        if Py.truthy (Article.summary primary_article)
        then (default "" (Article.summary primary_article), w)
        else summarize_article env primary_article w in
      (Some
         (Highlight.mk
            (Article.title primary_article)
            summary
            category
            (map Article.source group_articles)
            (some_strings (map Article.author group_articles))
            frequency
            priority_score
            (if negb (Qle_bool priority_score 0) then PRIORITY_KEYWORDS else [])
            (map Article.url group_articles)
            (omap Article.published_date group_articles)),
       w1)
  end.

Fixpoint make_highlights (env : Env) (category : string)
         (groups : list (string * list Article.t)) (w : World)
  : list Highlight.t * World :=
  match groups with
  | [] => ([], w)
  | (_, group_articles) :: rest =>
      let '(h, w1) := make_highlight env category group_articles w in
      let '(hs, w2) := make_highlights env category rest w1 in
      (match h with Some h => h :: hs | None => hs end, w2)
  end.

(** The sort key [(x.priority_score, x.frequency)] and Python's order on
    such tuples. *)
Definition sort_key (h : Highlight.t) : Q * Z :=
  (Highlight.priority_score h, Highlight.frequency h).

Definition key_ltb (k1 k2 : Q * Z) : bool :=
  match fst k1 ?= fst k2 with
  | Lt => true
  | Eq => Z.ltb (snd k1) (snd k2)
  | Gt => false
  end%Q.

Definition key_eqb (k1 k2 : Q * Z) : bool :=
  Qeq_bool (fst k1) (fst k2) && Z.eqb (snd k1) (snd k2).

(** [highlights.sort(key=..., reverse=True)]: [y] goes before [x] when its
    key is strictly greater. *)
Definition sort_highlights (highlights : list Highlight.t) : list Highlight.t :=
  stable_sort (fun y x => key_ltb (sort_key x) (sort_key y)) highlights.

Definition generate_highlights (env : Env) (articles : list Article.t)
           (category : string) (w : World) : list Highlight.t * World :=
  let category_articles := category_articles_of articles category in
  match category_articles with
  | [] => ([], w)
  | _ =>
      let article_groups := article_groups_of category_articles in
      let '(highlights, w1) := make_highlights env category article_groups w in
      (sort_highlights highlights, w1)
  end.

(** ** The vector index *)

Record QueryResult := {
  documents : list (list string);
  metadatas : list (list (list (string * string)))
}.

(** The ChromaDB collection is a third-party store; it is a list of entries,
    oldest first.  The definitions follow what the library does for the
    calls the code makes.
    - [delete(where={})]: the filter is validated before the store is
      touched and an empty filter is rejected with a [ValueError], so
      nothing is deleted.
    - [add]: a batch with a repeated id is rejected; an entry whose id is
      already stored is skipped and the stored one stays; the other entries
      are appended.
    - [query]: the [n_results] entries nearest to the query vector by cosine
      distance, nearest first; [n_results = 0] is rejected.
    [add] and [query] also raise when the environment injects a fault. *)
Module VectorIndex.

(** [collection.delete(where={})] *)
Definition delete_where_empty (c : list Entry) : Outcome (list Entry) :=
  Raises "Expected where to have exactly one operator, got {}".

(** An entry with the id of [e] is in [c]. *)
Definition stored (c : list Entry) (e : Entry) : bool :=
  existsb (fun e' => String.eqb (entry_id e') (entry_id e)) c.

Fixpoint distinct_ids (l : list Entry) : bool :=
  match l with
  | [] => true
  | e :: l' => negb (stored l' e) && distinct_ids l'
  end.

Definition add (env : Env) (new : list Entry) (c : list Entry)
  : Outcome (list Entry) :=
  match add_fault env with
  | Some e => Raises e
  | None =>
      if distinct_ids new
      then Returns (c ++ List.filter (fun e => negb (stored c e)) new)
      else Raises "Expected IDs to be unique"
  end.

Definition distance (env : Env) (q : Embedding) (e : Entry) : Q :=
  (1 - cosine_similarity env q (entry_embedding e))%Q.

Definition query (env : Env) (q : Embedding) (n_results : nat) (c : list Entry)
  : Outcome QueryResult :=
  match query_fault env with
  | Some e => Raises e
  | None =>
      match n_results with
      | 0 =>
          Raises "Number of requested results 0, cannot be negative, or zero."
      | _ =>
          let ranked :=
            stable_sort (fun y x =>
                           match distance env q y ?= distance env q x with
                           | Lt => true
                           | _ => false
                           end%Q) c in
          let nearest := firstn n_results ranked in
          Returns {| documents := [map entry_document nearest];
                     metadatas := [map entry_metadata nearest] |}
      end
  end.

End VectorIndex.

(** ** rag_chatbot.py *)

(** [str(l)] for a list of strings: the [repr] of each item. *)
Definition str_list (l : list string) : string :=
  "[" +:+ Py.join ", " (map Py.repr l) +:+ "]".

Definition indent : string := "            ".

Definition doc_text_of (highlight : Highlight.t) : string :=
  Py.NL
  +:+ indent +:+ "Title: " +:+ Highlight.title highlight +:+ Py.NL
  +:+ indent +:+ "Category: " +:+ Highlight.category highlight +:+ Py.NL
  +:+ indent +:+ "Summary: " +:+ Highlight.summary highlight +:+ Py.NL
  +:+ indent +:+ "Sources: " +:+ Py.join ", " (Highlight.sources highlight) +:+ Py.NL
  +:+ indent +:+ "Frequency: " +:+ Py.str_int (Highlight.frequency highlight) +:+ Py.NL
  +:+ indent +:+ "Keywords: " +:+ Py.join ", " (Highlight.keywords highlight) +:+ Py.NL
  +:+ indent.

Definition metadata_of (highlight : Highlight.t) : list (string * string) :=
  [("title", Highlight.title highlight);
   ("category", Highlight.category highlight);
   ("summary", Highlight.summary highlight);
   ("sources", str_list (Highlight.sources highlight));
   ("frequency", Py.str_int (Highlight.frequency highlight));
   ("urls", str_list (Highlight.urls highlight))].

Definition highlight_id (idx : nat) : string :=
  "highlight_" +:+ Py.str_int (Z.of_nat idx).

Definition index_entry (env : Env) (idx : nat) (highlight : Highlight.t) : Entry :=
  {| entry_id := highlight_id idx;
     entry_document := doc_text_of highlight;
     entry_metadata := metadata_of highlight;
     entry_embedding := encode env (doc_text_of highlight) |}.

Definition index_highlights (env : Env) (highlights : list Highlight.t) (w : World)
  : Outcome unit * World :=
  match highlights with
  | [] => (Returns tt, w)
  | _ =>
      (* try: self.collection.delete(where={}) except: log a warning *)
      let w1 :=
        match VectorIndex.delete_where_empty (collection w) with
        | Returns c => set_collection c w
        | Raises _ => w
        end in
      match encode_fault env with
      | Some e => (Raises e, w1)
      | None =>
          match VectorIndex.add env (imap (index_entry env) highlights)
                                (collection w1) with
          | Returns c => (Returns tt, set_collection c w1)
          | Raises e => (Raises e, w1)
          end
      end
  end.

Definition insufficient_information : string :=
  "I don't have enough information about recent news highlights to answer your question. Please try asking about sports, lifestyle, music, or finance news.".

Definition apology : string :=
  "I encountered an error while processing your question. Please try again later.".

Definition response_prefix : string :=
  "Based on the news highlights:" +:+ Py.NL +:+ Py.NL.

Definition _generate_fallback_response (context_docs : list string)
           (user_message : string) : string :=
  match context_docs with
  | [] => insufficient_information
  | first_doc :: _ =>
      let user_lower := Py.lower user_message in
      let matches doc :=
        existsb (fun word => Py.contains word (Py.lower doc))
                (List.filter (fun word => 3 <? String.length word)
                             (Py.words user_lower)) in
      let relevant_doc := default first_doc (List.find matches context_docs) in
      let lines := Py.split (ascii_of_nat 10) relevant_doc in
      let summary :=
        fold_left (fun summary line =>
                     if Py.contains "Summary:" line || Py.contains "Title:" line
                     then summary +:+ line +:+ Py.NL else summary)
                  lines "" in
      if negb (String.eqb summary "")
      then response_prefix +:+ Py.take 400 summary +:+ "..."
      else response_prefix +:+ Py.take 400 relevant_doc +:+ "..."
  end.

Definition context_of (context_docs : list string) : string :=
  Py.join (Py.NL +:+ Py.NL)
          (imap (fun i doc =>
                   "News Highlight " +:+ Py.str_int (Z.of_nat (i + 1)) +:+ ":"
                   +:+ Py.NL +:+ doc)
                context_docs).

Definition query_request (context user_message : string) : Request :=
  {| system_content :=
       "You are a helpful assistant that answers questions about news highlights. Use the provided context to answer questions accurately. If the context doesn't contain relevant information, say so.";
     user_content :=
       "Context from news highlights:" +:+ Py.NL +:+ Py.NL +:+ context
       +:+ Py.NL +:+ Py.NL +:+ Py.NL +:+ "User question: " +:+ user_message
       +:+ Py.NL +:+ Py.NL
       +:+ "Please provide a helpful answer based on the context above.";
     max_tokens := 300;
     temperature := 7 # 10 |}.

(** Retrieval (lines 105-116): the documents of the first result row, or
    the exception of the embedding model or of the index. *)
Definition retrieve (env : Env) (user_message : string) (top_k : nat) (w : World)
  : Outcome (list string) :=
  match encode_fault env with
  | Some e => Raises e
  | None =>
      let query_embedding := encode env user_message in
      obind (VectorIndex.query env query_embedding top_k (collection w))
            (fun results =>
               Returns match documents results with
                       | [] => []
                       | row :: _ => row
                       end)
  end.

(** The body of the outer [try] of [query]. *)
Definition query_body (env : Env) (user_message : string) (top_k : nat) (w : World)
  : Outcome string * World :=
  match retrieve env user_message top_k w with
  | Raises e => (Raises e, w)
  | Returns [] => (Returns insufficient_information, w)
  | Returns context_docs =>
      let context := context_of context_docs in
      if openai_client env then
        match call_provider env (query_request context user_message) w with
        | (Completion text, w1) => (Returns (Py.strip text), w1)
        | (Failure error_str, w1) =>
            if is_quota_error error_str then
              (Returns (_generate_fallback_response context_docs user_message), w1)
            else
              (Returns (_generate_fallback_response context_docs user_message), w1)
        end
      else
        (Returns (_generate_fallback_response context_docs user_message), w)
  end.

Definition query (env : Env) (user_message : string) (top_k : nat) (w : World)
  : string * World :=
  match query_body env user_message top_k w with
  | (Returns response, w1) => (response, w1)
  | (Raises _, w1) => (apology, w1)
  end.

(** ** The process as a sequence of engine calls *)





(** ** Vocabulary of the statements about clustering and synthesis *)

(** The indices that carry the label [l], in ascending order. *)
Definition indices_of (l : Z) (labels : list Z) : list nat :=
  DBSCAN.positions (Z.eqb l) 0 labels.

(** What the dict [cluster_groups] holds: one entry per non-noise label, with
    all the indices carrying it, in ascending order. *)
Definition groups_of_labels (labels : list Z) (groups : list (Z * list nat)) : Prop :=
  List.NoDup (map fst groups)
  /\ (forall l idxs, In (l, idxs) groups ->
                     l <> (-1)%Z /\ idxs = indices_of l labels /\ idxs <> [])
  /\ (forall l, l <> (-1)%Z -> indices_of l labels <> [] -> In l (map fst groups)).

(** The loop over the duplicates of one cluster, index by index. *)
Definition cluster_mark (l : Z) (p : nat) (dups : list nat) (i : nat)
  : Article.t -> Article.t :=
  if in_dec Nat.eq_dec i dups then mark_duplicate l
  else if Nat.eq_dec i p
       then match dups with [] => id | _ => mark_primary l end
       else id.

(** What the marking loops do to the article at one index. *)
Definition role_mark (labels : list Z) (i : nat) : Article.t -> Article.t :=
  match labels !! i with
  | Some l =>
      if Z.eqb l (-1) then id
      else match indices_of l labels with
           | p :: dups =>
               if Nat.eqb i p
               then match dups with [] => id | _ => mark_primary l end
               else mark_duplicate l
           | [] => id
           end
  | None => id
  end.

(** The records of a list that belong to the group [gid], in list order. *)
Definition members_of (gid : string) (arts : list Article.t) : list Article.t :=
  List.filter (fun a => String.eqb (group_id_of a) gid) arts.

(** A highlight built from a group. *)
Definition built_from (category : string) (h : Highlight.t)
           (group_articles : list Article.t) : Prop :=
  group_articles <> []
  /\ Highlight.frequency h = Z.of_nat (length group_articles)
  /\ Highlight.priority_score h = priority_score_of group_articles
  /\ Highlight.keywords h
     = (if negb (Qle_bool (priority_score_of group_articles) 0)
        then PRIORITY_KEYWORDS else [])
  /\ Highlight.category h = category
  /\ Highlight.sources h = map Article.source group_articles
  /\ Highlight.urls h = map Article.url group_articles.

(** The highlights before sorting, one per group, in group order. *)
Definition unsorted_highlights (env : Env) (articles : list Article.t)
           (category : string) (w : World) : list Highlight.t :=
  fst (make_highlights env category
         (article_groups_of (category_articles_of articles category)) w).

(** ** Sample data *)

Definition sample_config : Config :=
  {| OPENAI_API_KEY := "sk-test"; USE_OPENAI := true |}.

(** The provider is rate limited on the first request and answers every
    later one; all texts have the same embedding. *)
Definition env_rate_limited_once : Env :=
  {| config := sample_config;
     chat_completions_create :=
       fun n _ =>
         if Nat.eqb n 0 then Failure "Error code: 429 - insufficient_quota"
         else Completion "The team won the final.";
     encode := fun _ => [1%Q];
     encode_fault := None;
     cosine_similarity := fun _ _ => 1%Q;
     fit_predict_fault := None;
     add_fault := None;
     query_fault := None |}.


(** The two records of the end-to-end example, categorised as sports. *)
Definition article_final : Article.t :=
  Article.mk "Team wins final"
    "The team won the final match yesterday. It was a great game. Fans celebrated."
    None "abc" "https://abc.example/final" (Some "sports") None 0%Z None []
    false None.

Definition article_championship : Article.t :=
  Article.mk "Local team wins championship"
    "The local team won the championship final. It was a great game. Fans celebrated all night."
    None "smh" "https://smh.example/championship" (Some "sports") None 0%Z None []
    false None.

Definition highlight_final : Highlight.t :=
  Highlight.mk "Team wins final" "The team won the final match yesterday."
    "sports" ["abc"] [] 1%Z (1 # 2) PRIORITY_KEYWORDS
    ["https://abc.example/final"] [].

(** The embedding model fails. *)
Definition env_embedding_down : Env :=
  {| config := sample_config;
     chat_completions_create := fun _ _ => Completion "A summary.";
     encode := fun _ => [1%Q];
     encode_fault := Some "CUDA out of memory";
     cosine_similarity := fun _ _ => 1%Q;
     fit_predict_fault := None;
     add_fault := None;
     query_fault := None |}.

(** ** Similar records *)

(** Two embeddings within [eps = 1 - SIMILARITY_THRESHOLD] of each other. *)
Definition near (env : Env) (e1 e2 : Embedding) : bool :=
  Qle_bool (clip0 (1 - cosine_similarity env e1 e2)%Q)
           (1 - SIMILARITY_THRESHOLD)%Q.

Definition similar (env : Env) (a b : Article.t) : bool :=
  near env (encode env (embedding_text a)) (encode env (embedding_text b)).

(** The records a clustering run leaves unmarked. *)
Definition primaries_of (articles : list Article.t) : list Article.t :=
  List.filter (fun a => negb (Article.is_duplicate a)) articles.

(** ** Orders used in the statements *)

(** Python's order on the sort keys: [k1 <= k2]. *)
Definition key_le (k1 k2 : Q * Z) : Prop :=
  (fst k1 < fst k2)%Q \/ ((fst k1 == fst k2)%Q /\ (snd k1 <= snd k2)%Z).

(** The distinct elements of a list, in the order of their first occurrence. *)
Definition first_seen (keys : list string) : list string :=
  fold_left (fun seen k =>
               if existsb (fun k' => String.eqb k' k) seen then seen
               else seen ++ [k])
            keys [].

(** An embedding model with two topics and the dot product as similarity:
    texts that mention a team are alike, and unlike all others. *)
Definition dot (a b : Embedding) : Q :=
  fold_right Qplus 0%Q (map (fun p => (fst p * snd p)%Q) (combine a b)).

Definition env_topics : Env :=
  {| config := {| OPENAI_API_KEY := ""; USE_OPENAI := false |};
     chat_completions_create := fun _ _ => Failure "no client";
     encode := fun text =>
                 if Py.contains "team" (Py.lower text) then [1%Q; 0%Q]
                 else [0%Q; 1%Q];
     encode_fault := None;
     cosine_similarity := dot;
     fit_predict_fault := None;
     add_fault := None;
     query_fault := None |}.

Definition article_budget : Article.t :=
  Article.mk "Budget update"
    "The treasurer presented the federal budget on Tuesday evening in Canberra."
    (Some "A. Reporter") "afr" "https://afr.example/budget" (Some "finance")
    None 0%Z (Some "The treasurer presented the budget.") [] false None.

(** No provider; all texts have the same embedding. *)
Definition env_offline : Env :=
  {| config := {| OPENAI_API_KEY := ""; USE_OPENAI := false |};
     chat_completions_create := fun _ _ => Failure "no client";
     encode := fun _ => [1%Q];
     encode_fault := None;
     cosine_similarity := fun _ _ => 1%Q;
     fit_predict_fault := None;
     add_fault := None;
     query_fault := None |}.

(** The index cannot be queried. *)
Definition env_query_fails : Env :=
  {| config := sample_config;
     chat_completions_create := fun _ _ => Completion "An answer.";
     encode := fun _ => [1%Q];
     encode_fault := None;
     cosine_similarity := fun _ _ => 1%Q;
     fit_predict_fault := None;
     add_fault := None;
     query_fault := Some "index unavailable" |}.

Definition highlight_budget : Highlight.t :=
  Highlight.mk "Budget update" "The treasurer presented the budget."
    "finance" ["afr"] ["A. Reporter"] 1%Z (3 # 2) PRIORITY_KEYWORDS
    ["https://afr.example/budget"] [].

From Stdlib Require Import DecimalPos DecimalZ FinFun.

(** ** ai_processor.py: categorization *)

(** [config.CATEGORIES] *)
Definition CATEGORIES : list string := ["sports"; "lifestyle"; "music"; "finance"].

Definition SPORTS_KEYWORDS : list string :=
  ["sport"; "football"; "cricket"; "rugby"; "tennis"; "olympics";
   "athlete"; "match"; "game"; "team"; "player"; "coach"].

Definition LIFESTYLE_KEYWORDS : list string :=
  ["lifestyle"; "health"; "wellness"; "fitness"; "diet"; "travel";
   "fashion"; "beauty"; "home"; "family"; "relationship"].

Definition MUSIC_KEYWORDS : list string :=
  ["music"; "song"; "album"; "artist"; "concert"; "festival";
   "musician"; "band"; "singer"; "performance"; "chart"].

Definition FINANCE_KEYWORDS : list string :=
  ["finance"; "business"; "economy"; "market"; "stock"; "investment";
   "bank"; "money"; "dollar"; "profit"; "revenue"; "financial"].

(** [sum(1 for keyword in keywords if keyword in text)] *)
Definition keyword_hits (text : string) (keywords : list string) : nat :=
  length (List.filter (fun keyword => Py.contains keyword text) keywords).

(** [score / len(keywords) if keywords else 0].  The quotient of two small
    integers; distinct quotients of this size are distinct floats, so the
    comparisons below are those of the code. *)
Definition _score_category (text : string) (keywords : list string) : Q :=
  match keywords with
  | [] => 0%Q
  | _ => (inject_Z (Z.of_nat (keyword_hits text keywords))
          / inject_Z (Z.of_nat (length keywords)))%Q
  end.

(** The dict [category_scores], in insertion order. *)
Definition category_scores (text_lower : string) : list (string * Q) :=
  [("sports", _score_category text_lower SPORTS_KEYWORDS);
   ("lifestyle", _score_category text_lower LIFESTYLE_KEYWORDS);
   ("music", _score_category text_lower MUSIC_KEYWORDS);
   ("finance", _score_category text_lower FINANCE_KEYWORDS)].

Definition Qlt_bool (x y : Q) : bool := negb (Qle_bool y x).

(** [max(items, key=...)] with [best] the maximum so far: a later item
    replaces it only when its key is strictly greater. *)
Fixpoint py_max {A} (key : A -> Q) (best : A) (items : list A) : A :=
  match items with
  | [] => best
  | item :: items' =>
      py_max key (if Qlt_bool (key best) (key item) then item else best) items'
  end.

Definition categorize_text (article : Article.t) : string :=
  Article.title article +:+ " " +:+ Py.take 500 (Article.content article).

Definition categorize_article (article : Article.t) : string :=
  let text := categorize_text article in
  let text_lower := Py.lower text in
  match category_scores text_lower with
  | [] => "lifestyle"
  | first :: rest =>
      let best := py_max snd first rest in
      if Qlt_bool 0 (snd best) then fst best else "lifestyle"
  end.

(** ** Vocabulary of further statements *)

(** A record without its two marks. *)
Definition erase_marks (a : Article.t) : Article.t :=
  Article.set_duplicate_group_id None (Article.set_is_duplicate false a).

(** The score of a category in [category_scores], 0 for an unknown name. *)
Definition score_of (text_lower category : string) : Q :=
  match List.find (fun entry => String.eqb (fst entry) category)
                  (category_scores text_lower) with
  | Some entry => snd entry
  | None => 0%Q
  end.

Definition article_sport : Article.t :=
  Article.mk "Coach praises team after match"
    "The coach said the player market was quiet." None "abc"
    "https://abc.example/coach" None None 0%Z None [] false None.

Definition article_short : Article.t :=
  Article.mk "Brief" "Rain today. More soon." None "abc"
    "https://abc.example/brief" (Some "lifestyle") None 0%Z None [] false None.

(** The provider fails once without a quota signature, then answers. *)
Definition env_transient : Env :=
  {| config := sample_config;
     chat_completions_create :=
       fun n _ =>
         if Nat.eqb n 0 then Failure "Connection reset by peer"
         else Completion "  A summary from the provider. ";
     encode := fun _ => [1%Q];
     encode_fault := None;
     cosine_similarity := fun _ _ => 1%Q;
     fit_predict_fault := None;
     add_fault := None;
     query_fault := None |}.

(** A sample that has no neighbour but itself. *)
Definition lonely (neighborhoods : list (list nat)) (u : nat) : Prop :=
  forall v, DBSCAN.adjacent neighborhoods u v -> v = u.

(** Lonely samples carry no label. *)
Definition lonely_noise (neighborhoods : list (list nat)) (labels : list Z) : Prop :=
  forall u x, lonely neighborhoods u -> labels !! u = Some x -> x = DBSCAN.noise.

(** ** config.py: the news sources *)

(** [config.NEWS_SOURCES], a dict from category to the urls of its sources. *)
Definition NEWS_SOURCES : list (string * list string) :=
  [("sports",
    ["https://www.abc.net.au/news/sport/";
     "https://www.smh.com.au/sport";
     "https://www.theage.com.au/sport"]);
   ("lifestyle",
    ["https://www.abc.net.au/news/lifestyle/";
     "https://www.smh.com.au/lifestyle";
     "https://www.theage.com.au/lifestyle"]);
   ("music",
    ["https://www.abc.net.au/news/entertainment/arts/";
     "https://www.smh.com.au/entertainment/music"]);
   ("finance",
    ["https://www.abc.net.au/news/business/";
     "https://www.smh.com.au/business";
     "https://www.theage.com.au/business";
     "https://www.afr.com/"])].

(** [config.NEWS_SOURCES[category]], when [category in config.NEWS_SOURCES] *)
Definition sources_of (category : string) : option (list string) :=
  option_map snd
    (List.find (fun entry => String.eqb (fst entry) category) NEWS_SOURCES).

(** ** main.py: the processing pipeline *)

(** One call of the database, with the list it was given. *)
Inductive DbCall :=
| SaveArticles (articles : list Article.t)
| SaveHighlights (highlights : list Highlight.t).

(** The services of [main.py] besides the engine.  The extractor fetches
    pages and the database writes to SQLite; both are outside the engine and
    enter as what the pipeline sees of them: the list a call of
    [extract_articles] returns or the exception it raises (the first argument
    is the number of extractions made before, since the pages may change),
    and the exception raised by a call of the database, when it fails. *)
Record Services := {
  extract_articles : nat -> string -> list string -> Outcome (list Article.t);
  save_articles_fault : option string;
  save_highlights_fault : option string
}.

(** The state of the process: that of the engine, the number of extractions
    made and the calls the database has served, oldest first. *)
Record System := {
  world : World;
  extractions : nat;
  database : list DbCall
}.

Definition initial_system : System :=
  {| world := initial_world; extractions := 0; database := [] |}.

Definition set_world (w : World) (s : System) : System :=
  {| world := w; extractions := extractions s; database := database s |}.

Definition count_extraction (s : System) : System :=
  {| world := world s; extractions := S (extractions s);
     database := database s |}.

Definition log_database (call : DbCall) (s : System) : System :=
  {| world := world s; extractions := extractions s;
     database := database s ++ [call] |}.

Definition save_articles (sv : Services) (articles : list Article.t) (s : System)
  : Outcome unit * System :=
  match save_articles_fault sv with
  | Some e => (Raises e, s)
  | None => (Returns tt, log_database (SaveArticles articles) s)
  end.

Definition save_highlights (sv : Services) (highlights : list Highlight.t)
           (s : System) : Outcome unit * System :=
  match save_highlights_fault sv with
  | Some e => (Raises e, s)
  | None => (Returns tt, log_database (SaveHighlights highlights) s)
  end.

Definition set_category (c : option string) (a : Article.t) : Article.t :=
  Article.mk (Article.title a) (Article.content a) (Article.author a)
    (Article.source a) (Article.url a) c (Article.published_date a)
    (Article.extracted_at a) (Article.summary a) (Article.keywords a)
    (Article.is_duplicate a) (Article.duplicate_group_id a).

Definition set_summary (s : option string) (a : Article.t) : Article.t :=
  Article.mk (Article.title a) (Article.content a) (Article.author a)
    (Article.source a) (Article.url a) (Article.category a)
    (Article.published_date a) (Article.extracted_at a) s (Article.keywords a)
    (Article.is_duplicate a) (Article.duplicate_group_id a).

(** The body of the loop over the articles of one category (lines 81-84);
    neither call raises. *)
Definition process_article (env : Env) (article : Article.t) (w : World)
  : Article.t * World :=
  let article :=
    if negb (Py.truthy (Article.category article))
    then set_category (Some (categorize_article article)) article
    else article in
  let '(summary, w1) := summarize_article env article w in
  (set_summary (Some summary) article, w1).

Fixpoint process_articles (env : Env) (articles : list Article.t) (w : World)
  : list Article.t * World :=
  match articles with
  | [] => ([], w)
  | article :: rest =>
      let '(article', w1) := process_article env article w in
      let '(rest', w2) := process_articles env rest w1 in
      (article' :: rest', w2)
  end.

(** The loop over the categories that fills [all_articles] (lines 64-92). *)
Fixpoint extract_categories (env : Env) (sv : Services) (categories : list string)
         (all_articles : list Article.t) (s : System)
  : Outcome (list Article.t) * System :=
  match categories with
  | [] => (Returns all_articles, s)
  | category :: rest =>
      match sources_of category with
      | None => extract_categories env sv rest all_articles s
      | Some sources =>
          let s1 := count_extraction s in
          match extract_articles sv (extractions s) category sources with
          | Raises e => (Raises e, s1)
          | Returns [] => extract_categories env sv rest all_articles s1
          | Returns articles =>
              let '(articles', w1) := process_articles env articles (world s1) in
              extract_categories env sv rest (all_articles ++ articles')
                                 (set_world w1 s1)
          end
      end
  end.

(** The loop over the categories that fills [all_highlights]
    (lines 112-116). *)
Fixpoint generate_all_highlights (env : Env) (all_articles : list Article.t)
         (categories : list string) (w : World) : list Highlight.t * World :=
  match categories with
  | [] => ([], w)
  | category :: rest =>
      let '(highlights, w1) := generate_highlights env all_articles category w in
      let '(more, w2) := generate_all_highlights env all_articles rest w1 in
      (highlights ++ more, w2)
  end.

(** The dict that [process_news_pipeline] returns. *)
Record PipelineResult := {
  status : string;
  message : option string;
  articles_count : Z;
  highlights_count : Z
}.

Definition pipeline_error (message : string) : PipelineResult :=
  {| status := "error"; message := Some message;
     articles_count := 0; highlights_count := 0 |}.

(** The body of the [try] of [process_news_pipeline]. *)
Definition pipeline_body (env : Env) (sv : Services) (categories : list string)
           (s : System) : Outcome PipelineResult * System :=
  match extract_categories env sv categories [] s with
  | (Raises e, s1) => (Raises e, s1)
  | (Returns [], s1) => (Returns (pipeline_error "No articles extracted"), s1)
  | (Returns all_articles, s1) =>
      let all_articles := detect_duplicates env all_articles in
      match save_articles sv all_articles s1 with
      | (Raises e, s2) => (Raises e, s2)
      | (Returns _, s2) =>
          let '(all_highlights, w3) :=
            generate_all_highlights env all_articles categories (world s2) in
          match save_highlights sv all_highlights (set_world w3 s2) with
          | (Raises e, s4) => (Raises e, s4)
          | (Returns _, s4) =>
              match index_highlights env all_highlights (world s4) with
              | (Raises e, w5) => (Raises e, set_world w5 s4)
              | (Returns _, w5) =>
                  (Returns {| status := "success"; message := None;
                              articles_count :=
                                Z.of_nat (length all_articles);
                              highlights_count :=
                                Z.of_nat (length all_highlights) |},
                   set_world w5 s4)
              end
          end
      end
  end.

Definition process_news_pipeline (env : Env) (sv : Services)
           (categories : option (list string)) (s : System)
  : PipelineResult * System :=
  let categories := default CATEGORIES categories in
  match pipeline_body env sv categories s with
  | (Returns result, s1) => (result, s1)
  | (Raises e, s1) => (pipeline_error e, s1)
  end.

(** A sample extractor: two sports stories and one finance story. *)
Definition sample_services : Services :=
  {| extract_articles :=
       fun _ category _ =>
         if String.eqb category "sports"
         then Returns [article_final; article_championship]
         else if String.eqb category "finance" then Returns [article_budget]
         else Returns [];
     save_articles_fault := None;
     save_highlights_fault := None |}.

(** ** Vocabulary of the statements about the pipeline *)

(** From [w] to [w'] at most [n] requests were sent to the provider, the
    collection was left alone and the gate was not cleared. *)
Definition sends_at_most (n : nat) (w w' : World) : Prop :=
  collection w' = collection w
  /\ (_openai_quota_exceeded w = true -> _openai_quota_exceeded w' = true)
  /\ exists requests,
      provider_log w' = provider_log w ++ requests /\ length requests <= n.

(** What the pipeline has filled in when an article reaches
    [detect_duplicates]. *)
Definition filled_in (a : Article.t) : Prop :=
  Py.truthy (Article.category a) = true /\ Article.summary a <> None.

(** The embedding model is down and the provider has no client. *)
Definition env_offline_embedding_down : Env :=
  {| config := {| OPENAI_API_KEY := ""; USE_OPENAI := false |};
     chat_completions_create := fun _ _ => Failure "no client";
     encode := fun _ => [1%Q];
     encode_fault := Some "CUDA out of memory";
     cosine_similarity := fun _ _ => 1%Q;
     fit_predict_fault := None;
     add_fault := None;
     query_fault := None |}.

(** The records whose urls a highlight lists, in list order. *)
Definition backing_of (h : Highlight.t) (articles : list Article.t)
  : list Article.t :=
  List.filter (fun a => existsb (String.eqb (Article.url a)) (Highlight.urls h))
              articles.

(** A record for which [isascii] holds of the title and of the content. *)
Definition ascii_article (a : Article.t) : Prop :=
  Py.isascii (Article.title a) = true /\ Py.isascii (Article.content a) = true.

Definition article_breaking : Article.t :=
  Article.mk "Breaking news: coach resigns"
    "The coach of the national team resigned on Monday after the defeat."
    None "abc" "https://abc.example/coach-resigns" (Some "sports") None 0%Z
    (Some "The coach resigned.") [] false None.

(** * Properties *)

(** ** Strings and decimal names *)

Lemma string_append_assoc (a b c : string) : (a +:+ b) +:+ c = a +:+ (b +:+ c).
Proof.
  induction a as [|x a IH]; [reflexivity|].
  change (String x ((a +:+ b) +:+ c) = String x (a +:+ (b +:+ c))).
  now rewrite IH.
Qed.

Lemma string_append_cons (x : ascii) (a b : string) :
  String x a +:+ b = String x (a +:+ b).
Proof. reflexivity. Qed.

Lemma to_int_proper z : Z.to_int z <> Decimal.Pos Decimal.Nil
                        /\ Z.to_int z <> Decimal.Neg Decimal.Nil.
Proof.
  destruct z as [|p|p]; simpl; split; try discriminate;
    intros [= H]; now apply (Unsigned.to_uint_nonnil p).
Qed.

Lemma str_int_inj z1 z2 : Py.str_int z1 = Py.str_int z2 -> z1 = z2.
Proof.
  unfold Py.str_int. intros H.
  apply (f_equal NilZero.int_of_string) in H.
  destruct (to_int_proper z1) as (H1 & H1'), (to_int_proper z2) as (H2 & H2').
  rewrite !NilZero.isi in H by assumption.
  injection H as H. apply (f_equal Z.of_int) in H.
  now rewrite !DecimalZ.of_to in H.
Qed.

Lemma string_append_inj (p a b : string) : p +:+ a = p +:+ b -> a = b.
Proof.
  induction p as [|c p IH]; [auto|].
  rewrite !string_append_cons. intros [= H]. auto.
Qed.

Lemma group_name_inj l1 l2 : group_name l1 = group_name l2 -> l1 = l2.
Proof.
  unfold group_name. intros H. now apply string_append_inj, str_int_inj in H.
Qed.

Lemma highlight_id_inj i j : highlight_id i = highlight_id j -> i = j.
Proof.
  unfold highlight_id. intros H.
  apply string_append_inj, str_int_inj in H. lia.
Qed.

(** ** Summaries *)

Example extractive_summary_short :
  _extractive_summary
    (Article.mk "t" "Too short. Also short." None "s" "u" None None 0%Z None []
                false None)
  = "Too short. Also short.".
Proof. reflexivity. Qed.

Example extractive_summary_sentences :
  _extractive_summary
    (Article.mk "t" "The team won the final match yesterday. It was a great game. Fans celebrated."
                None "s" "u" None None 0%Z None [] false None)
  = "The team won the final match yesterday.".
Proof. reflexivity. Qed.

(** ** The degrading gate *)















(** ** DBSCAN: the search terminates and labels whole neighbourhoods *)

Module DBSCANFacts.
Import DBSCAN.

Lemma positions_bounds {A} (p : A -> bool) k row i :
  In i (positions p k row) -> k <= i < k + length row.
Proof.
  revert k. induction row as [|d row IH]; intros k Hi; [destruct Hi|].
  simpl in Hi. destruct (p d).
  - destruct Hi as [<-|Hi]; [simpl; lia|]. apply IH in Hi. simpl. lia.
  - apply IH in Hi. simpl. lia.
Qed.

Lemma positions_In {A} (p : A -> bool) k row i :
  In i (positions p k row)
  <-> exists d, row !! (i - k) = Some d /\ p d = true /\ k <= i.
Proof.
  revert k. induction row as [|d row IH]; intros k; simpl.
  - split; [intros []|]. intros (d & Hd & _). discriminate.
  - split.
    + intros Hi.
      assert (Hcase : (k = i /\ p d = true) \/ In i (positions p (S k) row)).
      { destruct (p d); [destruct Hi as [<-|Hi]|]; auto. }
      destruct Hcase as [[<- Hp]|Hin].
      * exists d. rewrite Nat.sub_diag. auto.
      * apply IH in Hin as (d' & Hd' & Hp' & Hle). exists d'.
        replace (i - k) with (S (i - S k)) by lia. simpl. split; [done|].
        split; [done|lia].
    + intros (d' & Hd' & Hp' & Hle).
      destruct (decide (i = k)) as [->|Hne].
      * rewrite Nat.sub_diag in Hd'. simpl in Hd'.
        injection Hd' as ->. rewrite Hp'. now left.
      * assert (Hin : In i (positions p (S k) row)).
        { apply IH. exists d'. replace (i - k) with (S (i - S k)) in Hd' by lia.
          simpl in Hd'. split; [done|]. split; [done|lia]. }
        destruct (p d); [now right|done].
Qed.

Lemma positions_length {A} (p : A -> bool) k row :
  length (positions p k row) <= length row.
Proof.
  revert k. induction row as [|d row IH]; intros k; simpl; [lia|].
  destruct (p d); simpl; specialize (IH (S k)); lia.
Qed.

Lemma positions_snoc {A} (p : A -> bool) k row d :
  positions p k (row ++ [d])
  = positions p k row ++ (if p d then [k + length row] else []).
Proof.
  revert k. induction row as [|d' row IH]; intros k; simpl.
  - now rewrite Nat.add_0_r.
  - rewrite IH. replace (S k + length row) with (k + S (length row)) by lia.
    now destruct (p d').
Qed.

Lemma positions_NoDup {A} (p : A -> bool) k row :
  List.NoDup (positions p k row).
Proof.
  revert k. induction row as [|d row IH]; intros k; simpl; [constructor|].
  destruct (p d); [|apply IH].
  constructor; [|apply IH].
  intros Hin. apply positions_bounds in Hin. lia.
Qed.

Lemma pending_count_le labels : pending_count labels <= length labels.
Proof. apply List.filter_length_le. Qed.

Lemma unlabelled_lookup labels i :
  unlabelled labels i = true <-> labels !! i = Some noise.
Proof.
  unfold unlabelled. destruct (labels !! i) as [l|]; [|easy].
  rewrite Z.eqb_eq. split; congruence.
Qed.

Lemma pending_count_insert labels i c :
  labels !! i = Some noise -> c <> noise ->
  S (pending_count (<[i := c]> labels)) = pending_count labels.
Proof.
  unfold pending_count. revert i.
  induction labels as [|l labels IH]; intros i Hi Hc; [discriminate|].
  destruct i as [|i]; simpl in *.
  - injection Hi as ->. simpl.
    destruct (Z.eqb_spec c noise); [contradiction|reflexivity].
  - destruct (Z.eqb l noise); simpl; rewrite <- (IH i Hi Hc); reflexivity.
Qed.

Lemma push_unlabelled_length labels neighb stack :
  length (push_unlabelled labels neighb stack) <= length neighb + length stack.
Proof.
  unfold push_unlabelled. revert stack.
  induction neighb as [|v neighb IH]; intros stack; simpl; [lia|].
  etransitivity; [apply IH|]. destruct (unlabelled labels v); simpl; lia.
Qed.

Lemma push_unlabelled_In labels neighb stack v :
  In v (push_unlabelled labels neighb stack)
  <-> In v stack \/ (In v neighb /\ unlabelled labels v = true).
Proof.
  unfold push_unlabelled. revert stack.
  induction neighb as [|u neighb IH]; intros stack; simpl; [tauto|].
  rewrite IH. destruct (unlabelled labels u) eqn:Hu; simpl.
  - split; [intros [[<-|H]|[H1 H2]]; auto|].
    intros [H|[[->|H1] H2]]; auto.
  - split; [intros [H|[H1 H2]]; auto|].
    intros [H|[[->|H1] H2]]; auto. congruence.
Qed.

Section Search.
Variables (is_core : list bool) (neighborhoods : list (list nat)) (n : nat).
Hypothesis neighb_small : forall i, length (neighb_at neighborhoods i) <= n.

Lemma expand_total fuel label_num i stack labels :
  label_num <> noise ->
  pending_count labels * S n + length stack < fuel ->
  exists labels',
    expand is_core neighborhoods fuel label_num i stack labels = Some labels'
    /\ length labels' = length labels.
Proof.
  intros Hc. revert i stack labels.
  induction fuel as [|fuel IH]; intros i stack labels Hfuel; [lia|].
  simpl. destruct (unlabelled labels i) eqn:Hi; simpl.
  - apply unlabelled_lookup in Hi.
    pose proof (pending_count_insert labels i label_num Hi Hc) as Hcount.
    set (labels1 := <[i := label_num]> labels) in *.
    assert (Hlen : length labels1 = length labels) by apply length_insert.
    set (stack1 := if is_core_at is_core i
                   then push_unlabelled labels1 (neighb_at neighborhoods i) stack
                   else stack).
    assert (Hstack : length stack1 <= n + length stack).
    { unfold stack1. destruct (is_core_at is_core i); [|lia].
      etransitivity; [apply push_unlabelled_length|].
      specialize (neighb_small i). lia. }
    destruct stack1 as [|v rest]; [eauto|].
    destruct (IH v rest labels1) as (labels' & He & Hl).
    { simpl in Hstack. nia. }
    exists labels'. split; [exact He|congruence].
  - destruct stack as [|v rest]; [eauto|].
    apply IH. simpl in Hfuel. lia.
Qed.

Lemma sweep_total todo label_num labels :
  (0 <= label_num)%Z -> length labels = n ->
  exists labels',
    sweep is_core neighborhoods (enough_fuel n) todo label_num labels
    = Some labels'
    /\ length labels' = n.
Proof.
  revert label_num labels.
  induction todo as [|i todo IH]; intros label_num labels Hc Hlen; [eauto|].
  cbn [sweep].
  destruct (negb (unlabelled labels i) || negb (is_core_at is_core i));
    [now apply IH|].
  destruct (expand_total (enough_fuel n) label_num i [] labels)
    as (labels' & He & Hl).
  - unfold noise. lia.
  - pose proof (pending_count_le labels). unfold enough_fuel. simpl. nia.
  - rewrite He. apply IH; [lia|congruence].
Qed.
End Search.

(** With a symmetric neighbour relation in which every sample that has
    another neighbour is a core sample, the search labels neighbours
    alike. *)
Section Linked.
Variables (is_core : list bool) (neighborhoods : list (list nat)) (n : nat).

Local Abbreviation adjacent := (DBSCAN.adjacent neighborhoods).
Local Abbreviation linked := (DBSCAN.linked neighborhoods).
Local Abbreviation closed := (DBSCAN.closed neighborhoods).
Local Abbreviation keeps := DBSCAN.keeps.

Hypothesis adjacent_sym : forall u v, adjacent u v -> adjacent v u.
Hypothesis adjacent_range : forall u v, adjacent u v -> v < n.
Hypothesis adjacent_core :
  forall u v, adjacent u v -> u <> v -> is_core_at is_core u = true.

Lemma linked_closed label_num labels :
  linked label_num [] labels -> closed labels.
Proof.
  intros H u v lu Ha Hu Hn.
  destruct (H u v lu Ha Hu Hn) as [Hv|(_ & _ & [])]. exact Hv.
Qed.

Lemma closed_linked label_num waiting labels :
  closed labels -> linked label_num waiting labels.
Proof. intros H u v lu Ha Hu Hn. left. eauto. Qed.

Lemma linked_step label_num i stack labels :
  label_num <> noise -> length labels = n ->
  labels !! i = Some noise ->
  linked label_num (i :: stack) labels ->
  linked label_num
         (if is_core_at is_core i
          then push_unlabelled (<[i := label_num]> labels)
                               (neighb_at neighborhoods i) stack
          else stack)
         (<[i := label_num]> labels).
Proof.
  intros Hc Hlen Hi Hl u v lu Ha Hu Hn.
  assert (Hi_lt : i < length labels) by (eapply lookup_lt_Some; eauto).
  destruct (decide (u = i)) as [->|Hui].
  - rewrite list_lookup_insert_eq in Hu by exact Hi_lt.
    injection Hu as <-.
    destruct (decide (v = i)) as [->|Hvi].
    { left. now apply list_lookup_insert_eq. }
    rewrite list_lookup_insert_ne by congruence.
    assert (Hv_lt : v < length labels)
      by (rewrite Hlen; eapply adjacent_range; eauto).
    destruct (lookup_lt_is_Some_2 labels v Hv_lt) as [lv Hv].
    destruct (decide (lv = noise)) as [->|Hlv].
    + right. split; [exact Hv|]. split; [reflexivity|].
      rewrite (adjacent_core i v Ha) by congruence.
      apply push_unlabelled_In. right. split; [exact Ha|].
      apply unlabelled_lookup.
      now rewrite list_lookup_insert_ne by congruence.
    + left. rewrite Hv. f_equal.
      destruct (Hl v i lv (adjacent_sym _ _ Ha) Hv Hlv)
        as [Hi'|(_ & Heq & _)]; congruence.
  - rewrite list_lookup_insert_ne in Hu by congruence.
    destruct (Hl u v lu Ha Hu Hn) as [Hv|(Hv & Heq & Hin)].
    + left. rewrite list_lookup_insert_ne; [exact Hv|]. congruence.
    + destruct (decide (v = i)) as [->|Hvi].
      * left. subst lu. now apply list_lookup_insert_eq.
      * right. rewrite list_lookup_insert_ne by congruence.
        split; [exact Hv|]. split; [exact Heq|].
        destruct Hin as [Hin|Hin]; [congruence|].
        destruct (is_core_at is_core i); [|exact Hin].
        apply push_unlabelled_In. now left.
Qed.

Lemma expand_linked fuel label_num i stack labels labels' :
  label_num <> noise -> length labels = n ->
  linked label_num (i :: stack) labels ->
  expand is_core neighborhoods fuel label_num i stack labels = Some labels' ->
  closed labels' /\ length labels' = n /\ keeps labels labels'
  /\ (labels !! i = Some noise -> labels' !! i = Some label_num).
Proof.
  intros Hc. revert i stack labels.
  induction fuel as [|fuel IH]; intros i stack labels Hlen Hl He;
    [discriminate|].
  simpl in He. destruct (unlabelled labels i) eqn:Hi; simpl in He.
  - apply unlabelled_lookup in Hi.
    assert (Hi_lt : i < length labels) by (eapply lookup_lt_Some; eauto).
    pose proof (linked_step label_num i stack labels Hc Hlen Hi Hl) as Hl1.
    set (labels1 := <[i := label_num]> labels) in *.
    assert (Hlen1 : length labels1 = n)
      by (unfold labels1; now rewrite length_insert).
    assert (Hk1 : keeps labels labels1).
    { intros u lu Hu Hn. unfold labels1.
      rewrite list_lookup_insert_ne; [exact Hu|]. congruence. }
    assert (Hi1 : labels1 !! i = Some label_num)
      by now apply list_lookup_insert_eq.
    destruct (if is_core_at is_core i
              then push_unlabelled labels1 (neighb_at neighborhoods i) stack
              else stack) as [|v rest].
    + injection He as <-. split; [eapply linked_closed; eauto|].
      split; [exact Hlen1|]. split; [exact Hk1|]. intros _. exact Hi1.
    + destruct (IH v rest labels1 Hlen1 Hl1 He) as (Hcl & Hl' & Hk & _).
      split; [exact Hcl|]. split; [exact Hl'|].
      split; [intros u lu Hu Hn; apply Hk; auto|].
      intros _. apply Hk; auto.
  - assert (Hl0 : linked label_num stack labels).
    { intros u v lu Ha Hu Hn.
      destruct (Hl u v lu Ha Hu Hn) as [Hv|(Hv & Heq & [<-|Hin])]; auto.
      apply unlabelled_lookup in Hv. congruence. }
    assert (Hnot : labels !! i = Some noise -> labels' !! i = Some label_num).
    { intros Hi'. apply unlabelled_lookup in Hi'. congruence. }
    destruct stack as [|v rest].
    + injection He as <-. split; [eapply linked_closed; eauto|].
      split; [exact Hlen|]. split; [intros u lu Hu _; exact Hu|exact Hnot].
    + destruct (IH v rest labels Hlen Hl0 He) as (Hcl & Hl' & Hk & _).
      repeat split; auto.
Qed.

Lemma sweep_linked fuel todo label_num labels labels' :
  (0 <= label_num)%Z -> length labels = n -> closed labels ->
  sweep is_core neighborhoods fuel todo label_num labels = Some labels' ->
  closed labels' /\ length labels' = n /\ keeps labels labels'
  /\ forall i, In i todo -> i < n -> is_core_at is_core i = true ->
               exists l, labels' !! i = Some l /\ l <> noise.
Proof.
  revert label_num labels.
  induction todo as [|i todo IH]; intros label_num labels Hc Hlen Hcl Hs.
  - injection Hs as <-. repeat split; auto.
    + intros u lu Hu _. exact Hu.
    + intros i [].
  - cbn [sweep] in Hs.
    destruct (negb (unlabelled labels i) || negb (is_core_at is_core i))
      eqn:Hskip.
    + destruct (IH label_num labels Hc Hlen Hcl Hs) as (Hcl' & Hl' & Hk & Hall).
      repeat split; auto.
      intros j [<-|Hj] Hjn Hcore; [|now apply Hall].
      rewrite Hcore in Hskip. rewrite orb_false_r in Hskip.
      apply negb_true_iff in Hskip.
      destruct (lookup_lt_is_Some_2 labels i) as [l Hl]; [lia|].
      assert (Hn : l <> noise).
      { intros ->. apply unlabelled_lookup in Hl. congruence. }
      exists l. split; [apply Hk; auto|exact Hn].
    + apply orb_false_iff in Hskip as [Hu Hcore].
      apply negb_false_iff in Hu. apply unlabelled_lookup in Hu.
      destruct (expand is_core neighborhoods fuel label_num i [] labels)
        as [labels1|] eqn:He; [|discriminate].
      assert (Hne : label_num <> noise) by (unfold noise; lia).
      destruct (expand_linked fuel label_num i [] labels labels1 Hne Hlen
                  (closed_linked _ _ _ Hcl) He) as (Hcl1 & Hlen1 & Hk1 & Hi1).
      destruct (IH (label_num + 1)%Z labels1 ltac:(lia) Hlen1 Hcl1 Hs)
        as (Hcl' & Hl' & Hk & Hall).
      repeat split; auto.
      * intros u lu Hu' Hn. apply Hk; auto.
      * intros j [<-|Hj] Hjn Hcj; [|now apply Hall].
        exists label_num. split; [apply Hk; auto|exact Hne].
Qed.

Lemma dbscan_inner_linked labels' :
  dbscan_inner is_core neighborhoods (replicate n noise) = Some labels' ->
  length labels' = n /\
  forall u v, adjacent u v -> u <> v ->
              exists l, l <> noise /\ labels' !! u = Some l
                        /\ labels' !! v = Some l.
Proof.
  unfold dbscan_inner. rewrite length_replicate. intros Hs.
  apply sweep_linked in Hs as (Hcl & Hlen & _ & Hall).
  - split; [exact Hlen|]. intros u v Ha Hne.
    assert (Hu : u < n) by (eapply adjacent_range, adjacent_sym; eauto).
    assert (Hin : In u (seq 0 n)) by (apply in_seq; lia).
    destruct (Hall u Hin Hu (adjacent_core u v Ha Hne)) as (l & Hl & Hn).
    exists l. repeat split; eauto.
  - lia.
  - apply length_replicate.
  - intros u v lu _ Hu Hn. apply lookup_replicate in Hu as [-> _].
    contradiction.
Qed.
End Linked.

(** Without core samples nothing is labelled. *)
Lemma sweep_no_core is_core neighborhoods fuel todo label_num labels :
  (forall i, is_core_at is_core i = false) ->
  sweep is_core neighborhoods fuel todo label_num labels = Some labels.
Proof.
  intros Hnone. induction todo as [|i todo IH]; [reflexivity|].
  cbn [sweep]. rewrite Hnone. now rewrite orb_true_r.
Qed.

Lemma radius_neighbors_small eps X i :
  Forall (fun row => length row = length X) X ->
  length (neighb_at (radius_neighbors eps X) i) <= length X.
Proof.
  intros Hsq. unfold neighb_at, radius_neighbors.
  rewrite list_lookup_fmap.
  destruct (X !! i) as [row|] eqn:Hrow; simpl; [|lia].
  etransitivity; [apply positions_length|].
  rewrite Forall_forall in Hsq.
  rewrite (Hsq row); [lia|]. eapply list_elem_of_lookup_2, Hrow.
Qed.

(** On a square matrix [fit_predict] returns one label per sample. *)
Lemma fit_predict_total eps min_samples X :
  Forall (fun row => length row = length X) X ->
  exists labels,
    fit_predict eps min_samples X = Some labels /\ length labels = length X.
Proof.
  intros Hsq. unfold fit_predict, dbscan_inner.
  rewrite length_replicate.
  apply sweep_total; [|lia|apply length_replicate].
  intros i. now apply radius_neighbors_small.
Qed.

End DBSCANFacts.

(** ** Insertion-ordered groups *)

Lemma NoDup_snoc {A} (l : list A) (x : A) :
  List.NoDup l -> ~ In x l -> List.NoDup (l ++ [x]).
Proof.
  induction 1 as [|y l Hy Hl IH]; intros Hx; simpl.
  - repeat constructor. intros [].
  - constructor.
    + intros Hin. apply in_app_or in Hin as [Hin|[->|[]]]; [tauto|].
      apply Hx. now left.
    + apply IH. intros Hin. apply Hx. now right.
Qed.

Section GroupsAppend.
Context {K V : Type} (eqb : K -> K -> bool).
Hypothesis eqb_eq : forall a b, eqb a b = true <-> a = b.

Lemma groups_append_absent (k : K) (v : V) groups :
  ~ In k (map fst groups) ->
  groups_append eqb k v groups = groups ++ [(k, [v])].
Proof.
  induction groups as [|[k' vs] groups IH]; intros Hk; [reflexivity|].
  simpl in *. destruct (eqb k' k) eqn:He.
  - apply eqb_eq in He. tauto.
  - rewrite IH; tauto.
Qed.

Lemma groups_append_present (k : K) (v : V) groups :
  In k (map fst groups) ->
  exists g1 vs g2,
    groups = g1 ++ (k, vs) :: g2 /\ ~ In k (map fst g1) /\
    groups_append eqb k v groups = g1 ++ (k, vs ++ [v]) :: g2.
Proof.
  induction groups as [|[k' vs] groups IH]; intros Hk; [destruct Hk|].
  simpl. destruct (eqb k' k) eqn:He.
  - apply eqb_eq in He as ->. exists [], vs, groups. simpl. tauto.
  - simpl in Hk. destruct Hk as [->|Hk].
    { assert (eqb k k = true) by now apply eqb_eq. congruence. }
    destruct (IH Hk) as (g1 & vs' & g2 & -> & Hno & Heq).
    exists ((k', vs) :: g1), vs', g2. rewrite Heq. simpl.
    repeat split; auto. intros [->|H]; [|tauto].
    assert (eqb k k = true) by now apply eqb_eq. congruence.
Qed.

Lemma groups_append_keys (k : K) (v : V) groups :
  map fst (groups_append eqb k v groups)
  = if existsb (fun k' => eqb k' k) (map fst groups)
    then map fst groups else map fst groups ++ [k].
Proof.
  induction groups as [|[k' vs] groups IH]; [reflexivity|].
  simpl. destruct (eqb k' k); simpl; [reflexivity|].
  rewrite IH. now destruct (existsb _ _).
Qed.

Lemma groups_append_nonempty (k : K) (v : V) groups :
  Forall (fun g => snd g <> []) groups ->
  Forall (fun g => snd g <> []) (groups_append eqb k v groups).
Proof.
  induction 1 as [|[k' vs] groups Hg Hall IH]; simpl.
  - repeat constructor. discriminate.
  - destruct (eqb k' k); constructor; auto. simpl. now destruct vs.
Qed.
End GroupsAppend.

(** ** Duplicate detection *)

Lemma indices_of_In l labels i :
  In i (indices_of l labels) <-> labels !! i = Some l.
Proof.
  unfold indices_of. rewrite DBSCANFacts.positions_In.
  rewrite Nat.sub_0_r. split.
  - intros (d & Hd & He & _). apply Z.eqb_eq in He. congruence.
  - intros Hi. exists l. rewrite Z.eqb_refl. repeat split; auto. lia.
Qed.

Lemma cluster_groups_of_snoc labels l :
  cluster_groups_of (labels ++ [l])
  = if negb (Z.eqb l (-1))
    then groups_append Z.eqb l (length labels) (cluster_groups_of labels)
    else cluster_groups_of labels.
Proof.
  unfold cluster_groups_of. rewrite imap_app, fold_left_app. simpl.
  now rewrite Nat.add_0_r.
Qed.

Lemma indices_of_snoc l labels l' :
  indices_of l (labels ++ [l'])
  = indices_of l labels ++ (if Z.eqb l l' then [length labels] else []).
Proof. unfold indices_of. now rewrite DBSCANFacts.positions_snoc. Qed.

Lemma cluster_groups_of_spec labels :
  groups_of_labels labels (cluster_groups_of labels).
Proof.
  induction labels as [|l' labels IH] using rev_ind.
  - split; [constructor|]. split; [intros l idxs []|].
    intros l _ Hi. now contradiction Hi.
  - rewrite cluster_groups_of_snoc.
    destruct IH as (Hnd & Hin & Hall).
    assert (Hother : forall l, l <> l' ->
                               indices_of l (labels ++ [l']) = indices_of l labels).
    { intros l Hl. rewrite indices_of_snoc.
      destruct (Z.eqb_spec l l'); [contradiction|]. apply app_nil_r. }
    destruct (Z.eqb_spec l' (-1)) as [->|Hl']; simpl.
    { split; [exact Hnd|]. split.
      - intros l idxs H. destruct (Hin l idxs H) as (Hl & -> & Hne).
        rewrite Hother by exact Hl. auto.
      - intros l Hl Hi. rewrite Hother in Hi by exact Hl. auto. }
    destruct (in_dec Z.eq_dec l' (map fst (cluster_groups_of labels)))
      as [Hpresent|Habsent].
    + destruct (groups_append_present Z.eqb Z.eqb_eq l' (length labels) _ Hpresent)
        as (g1 & vs & g2 & Hsplit & Hno & ->).
      rewrite Hsplit in Hnd, Hin, Hall.
      assert (Hkeys : map fst (g1 ++ (l', vs ++ [length labels]) :: g2)
                      = map fst (g1 ++ (l', vs) :: g2))
        by (rewrite !map_app; reflexivity).
      assert (Hvs : vs = indices_of l' labels).
      { apply (Hin l' vs). apply in_or_app. right. now left. }
      assert (Hold : forall l idxs,
                 In (l, idxs) (g1 ++ (l', vs ++ [length labels]) :: g2) ->
                 (l = l' /\ idxs = vs ++ [length labels])
                 \/ (l <> l' /\ In (l, idxs) (g1 ++ (l', vs) :: g2))).
      { intros l idxs H. apply in_app_or in H as [H|[H|H]].
        - right. split; [|apply in_or_app; now left].
          intros ->. apply Hno. apply (in_map fst) in H. exact H.
        - left. now injection H as <- <-.
        - right. split; [|apply in_or_app; right; now right].
          intros ->. rewrite map_app in Hnd. simpl in Hnd.
          apply NoDup_remove_2 in Hnd. apply Hnd.
          apply in_or_app. right. apply (in_map fst) in H. exact H. }
      split; [now rewrite Hkeys|]. split.
      * intros l idxs H. destruct (Hold l idxs H) as [[-> ->]|[Hl H']].
        -- split; [exact Hl'|]. split; [|now destruct vs].
           rewrite indices_of_snoc, Z.eqb_refl. now rewrite Hvs.
        -- destruct (Hin l idxs H') as (Hl1 & -> & Hne).
           rewrite Hother by exact Hl. auto.
      * intros l Hl Hi. rewrite Hkeys.
        destruct (Z.eq_dec l l') as [->|Hne]; [now rewrite <- Hsplit|].
        apply Hall; [exact Hl|]. now rewrite Hother in Hi.
    + rewrite (groups_append_absent Z.eqb Z.eqb_eq) by exact Habsent.
      assert (Hnone : indices_of l' labels = []).
      { destruct (indices_of l' labels) eqn:Hi; [reflexivity|].
        exfalso. apply Habsent, Hall; [exact Hl'|]. now rewrite Hi. }
      split; [|split].
      * rewrite map_app. simpl. now apply NoDup_snoc.
      * intros l idxs H. apply in_app_or in H as [H|[H|[]]].
        -- assert (Hl : l <> l').
           { intros ->. apply Habsent. apply (in_map fst) in H. exact H. }
           destruct (Hin l idxs H) as (Hl1 & -> & Hne).
           rewrite Hother by exact Hl. auto.
        -- injection H as <- <-. split; [exact Hl'|]. split; [|discriminate].
           now rewrite indices_of_snoc, Hnone, Z.eqb_refl.
      * intros l Hl Hi. rewrite map_app. apply in_or_app.
        destruct (Z.eq_dec l l') as [->|Hne]; [right; now left|].
        left. apply Hall; [exact Hl|]. now rewrite Hother in Hi.
Qed.

Lemma indices_of_head l labels p dups :
  indices_of l labels = p :: dups ->
  labels !! p = Some l /\ ~ In p dups /\ List.NoDup dups
  /\ forall i, labels !! i = Some l -> p <= i.
Proof.
  intros Hi.
  assert (Hnd : List.NoDup (p :: dups))
    by (rewrite <- Hi; apply DBSCANFacts.positions_NoDup).
  split; [apply indices_of_In; rewrite Hi; now left|].
  inversion Hnd as [|? ? Hp Hd]; subst. split; [exact Hp|]. split; [exact Hd|].
  unfold indices_of in Hi. clear Hnd Hp Hd.
  assert (Hgen : forall k row,
             DBSCAN.positions (Z.eqb l) k row = p :: dups ->
             forall i, row !! i = Some l -> p <= k + i).
  { clear Hi. intros k row. revert k.
    induction row as [|d row IH]; intros k Hpos i Hrow; [discriminate|].
    simpl in Hpos. destruct (Z.eqb l d) eqn:Hd.
    - injection Hpos as <- _. lia.
    - destruct i as [|i]; simpl in Hrow.
      + injection Hrow as ->. rewrite Z.eqb_refl in Hd. discriminate.
      + specialize (IH (S k) Hpos i Hrow). lia. }
  intros i Hl. apply (Hgen 0 labels Hi i Hl).
Qed.

Lemma mark_primary_idem l a : mark_primary l (mark_primary l a) = mark_primary l a.
Proof. reflexivity. Qed.

Lemma mark_dups_lookup l p dups (arts : list Article.t) i :
  ~ In p dups -> List.NoDup dups ->
  fold_left (fun arts dup_idx =>
               alter (mark_primary l) p (alter (mark_duplicate l) dup_idx arts))
            dups arts !! i
  = cluster_mark l p dups i <$> arts !! i.
Proof.
  intros Hp Hnd. revert arts. unfold cluster_mark.
  induction dups as [|d dups IH]; intros arts; simpl fold_left.
  - destruct (in_dec Nat.eq_dec i []) as [[]|_].
    destruct (Nat.eq_dec i p); now rewrite option_fmap_id.
  - assert (Hpd : p <> d) by (intros ->; apply Hp; now left).
    inversion Hnd as [|? ? Hd Hnd']; subst.
    rewrite IH by (auto; intros H; apply Hp; now right).
    destruct (Nat.eq_dec i p) as [->|Hip].
    + rewrite list_lookup_alter_eq, list_lookup_alter_ne by congruence.
      destruct (in_dec Nat.eq_dec p dups) as [H|_];
        [exfalso; apply Hp; now right|].
      destruct (in_dec Nat.eq_dec p (d :: dups)) as [H|_]; [contradiction|].
      rewrite <- option_fmap_compose. now destruct dups.
    + rewrite list_lookup_alter_ne by congruence.
      destruct (Nat.eq_dec i d) as [->|Hid].
      * rewrite list_lookup_alter_eq.
        destruct (in_dec Nat.eq_dec d dups) as [H|_]; [contradiction|].
        destruct (in_dec Nat.eq_dec d (d :: dups)) as [_|H];
          [|exfalso; apply H; now left].
        now rewrite option_fmap_id.
      * rewrite list_lookup_alter_ne by congruence.
        destruct (in_dec Nat.eq_dec i dups) as [H|H];
          destruct (in_dec Nat.eq_dec i (d :: dups)) as [H'|H']; try reflexivity.
        -- exfalso. apply H'. now right.
        -- destruct H' as [->|H']; contradiction.
Qed.

Lemma mark_cluster_untouched (arts : list Article.t) l idxs i :
  List.NoDup idxs -> ~ In i idxs -> mark_cluster arts (l, idxs) !! i = arts !! i.
Proof.
  intros Hnd Hi. unfold mark_cluster. destruct idxs as [|p dups]; [reflexivity|].
  inversion Hnd; subst.
  rewrite mark_dups_lookup by assumption. unfold cluster_mark.
  destruct (in_dec Nat.eq_dec i dups) as [H|_]; [exfalso; apply Hi; now right|].
  destruct (Nat.eq_dec i p) as [->|_]; [exfalso; apply Hi; now left|].
  apply option_fmap_id.
Qed.

Lemma fold_mark_cluster_untouched groups (arts : list Article.t) i :
  (forall l idxs, In (l, idxs) groups -> List.NoDup idxs /\ ~ In i idxs) ->
  fold_left mark_cluster groups arts !! i = arts !! i.
Proof.
  revert arts. induction groups as [|[l idxs] groups IH]; intros arts H;
    [reflexivity|].
  simpl fold_left. rewrite IH by (intros l' idxs' Hin; apply (H l' idxs'); now right).
  apply mark_cluster_untouched; apply (H l idxs); now left.
Qed.

Lemma fold_mark_cluster_lookup labels (arts : list Article.t) i :
  fold_left mark_cluster (cluster_groups_of labels) arts !! i
  = role_mark labels i <$> arts !! i.
Proof.
  destruct (cluster_groups_of_spec labels) as (Hnd & Hin & Hall).
  assert (Hidx : forall l idxs, In (l, idxs) (cluster_groups_of labels) ->
                                List.NoDup idxs).
  { intros l idxs H. destruct (Hin l idxs H) as (_ & -> & _).
    apply DBSCANFacts.positions_NoDup. }
  unfold role_mark.
  destruct (labels !! i) as [l|] eqn:Hl.
  2:{ rewrite option_fmap_id. apply fold_mark_cluster_untouched.
      intros l idxs H. split; [eauto|].
      destruct (Hin l idxs H) as (_ & -> & _).
      rewrite indices_of_In. congruence. }
  destruct (Z.eqb_spec l (-1)) as [->|Hnoise].
  { rewrite option_fmap_id. apply fold_mark_cluster_untouched.
    intros l idxs H. split; [eauto|].
    destruct (Hin l idxs H) as (Hne & -> & _).
    rewrite indices_of_In. congruence. }
  assert (Hmem : In i (indices_of l labels)) by now apply indices_of_In.
  assert (Hkey : In l (map fst (cluster_groups_of labels))).
  { apply Hall; [exact Hnoise|]. intros Hnil. now rewrite Hnil in Hmem. }
  apply in_map_iff in Hkey as ([l0 idxs] & Hfst & Hg). simpl in Hfst. subst l0.
  destruct (Hin l idxs Hg) as (_ & Hidxs & Hne).
  apply in_split in Hg as (g1 & g2 & Hsplit).
  rewrite Hsplit in Hnd, Hin, Hidx |- *.
  rewrite map_app in Hnd. simpl in Hnd.
  pose proof (NoDup_remove_2 _ _ _ Hnd) as Hfresh.
  assert (Hout : forall l2 idxs2, In (l2, idxs2) g1 \/ In (l2, idxs2) g2 ->
                                  List.NoDup idxs2 /\ ~ In i idxs2).
  { intros l2 idxs2 H.
    assert (Hin2 : In (l2, idxs2) (g1 ++ (l, idxs) :: g2)).
    { apply in_or_app. destruct H; [now left|right; now right]. }
    split; [eauto|].
    destruct (Hin l2 idxs2 Hin2) as (_ & -> & _).
    rewrite indices_of_In. intros Hi2.
    assert (l2 = l) by congruence. subst l2.
    apply Hfresh. apply in_or_app.
    destruct H as [H|H]; [left|right]; apply (in_map fst) in H; exact H. }
  rewrite fold_left_app. simpl fold_left.
  rewrite fold_mark_cluster_untouched
    by (intros l2 idxs2 H2; apply (Hout l2 idxs2); now right).
  rewrite <- Hidxs.
  destruct idxs as [|p dups]; [contradiction|].
  symmetry in Hidxs. destruct (indices_of_head _ _ _ _ Hidxs) as (_ & Hp & Hd & _).
  unfold mark_cluster. rewrite mark_dups_lookup by assumption.
  rewrite fold_mark_cluster_untouched
    by (intros l2 idxs2 H2; apply (Hout l2 idxs2); now left).
  rewrite Hidxs in Hmem. unfold cluster_mark.
  destruct (Nat.eqb_spec i p) as [->|Hip].
  - destruct (in_dec Nat.eq_dec p dups) as [H|_]; [contradiction|].
    destruct (Nat.eq_dec p p) as [_|H]; [reflexivity|contradiction].
  - destruct Hmem as [->|Hmem]; [contradiction|].
    destruct (in_dec Nat.eq_dec i dups) as [_|H]; [reflexivity|contradiction].
Qed.

Lemma mark_cluster_length (arts : list Article.t) group :
  length (mark_cluster arts group) = length arts.
Proof.
  destruct group as [l [|p dups]]; [reflexivity|]. simpl.
  revert arts. induction dups as [|d dups IH]; intros arts; [reflexivity|].
  simpl. rewrite IH. now rewrite !length_alter.
Qed.

Lemma fold_mark_cluster_length groups (arts : list Article.t) :
  length (fold_left mark_cluster groups arts) = length arts.
Proof.
  revert arts. induction groups as [|g groups IH]; intros arts; [reflexivity|].
  simpl. rewrite IH. apply mark_cluster_length.
Qed.

Lemma distance_matrix_square env embeddings :
  length (distance_matrix env embeddings) = length embeddings
  /\ Forall (fun row => length row = length (distance_matrix env embeddings))
            (distance_matrix env embeddings).
Proof.
  unfold distance_matrix. rewrite length_imap. split; [reflexivity|].
  apply Forall_lookup. intros i row Hrow.
  rewrite list_lookup_imap in Hrow.
  destruct (embeddings !! i); [|discriminate]. injection Hrow as <-.
  unfold distance_row. apply length_imap.
Qed.

(** The guarded block returns one label per article, and it returns unless
    the embedding model or the clustering raises. *)
Lemma cluster_labels_length env articles labels :
  cluster_labels env articles = Returns labels ->
  length labels = length articles.
Proof.
  unfold cluster_labels.
  destruct (encode_fault env); [discriminate|].
  destruct (fit_predict_fault env); [discriminate|].
  destruct (distance_matrix_square env (map (encode env)
                                            (map embedding_text articles)))
    as (Hlen & Hsq).
  destruct (DBSCANFacts.fit_predict_total (1 - SIMILARITY_THRESHOLD) 2 _ Hsq)
    as (labels' & -> & Hl).
  intros [= <-]. rewrite Hl, Hlen. now rewrite !length_map.
Qed.

Lemma cluster_labels_returns env articles :
  encode_fault env = None -> fit_predict_fault env = None ->
  exists labels, cluster_labels env articles = Returns labels.
Proof.
  intros He Hf. unfold cluster_labels. rewrite He, Hf.
  destruct (distance_matrix_square env (map (encode env)
                                            (map embedding_text articles)))
    as (_ & Hsq).
  destruct (DBSCANFacts.fit_predict_total (1 - SIMILARITY_THRESHOLD) 2 _ Hsq)
    as (labels' & -> & _).
  eauto.
Qed.

Lemma detect_duplicates_cases env articles :
  (detect_duplicates env articles = articles
   /\ (length articles < 2 \/ exists e, cluster_labels env articles = Raises e))
  \/ (2 <= length articles
      /\ exists labels,
          cluster_labels env articles = Returns labels
          /\ length labels = length articles
          /\ forall i, detect_duplicates env articles !! i
                       = role_mark labels i <$> articles !! i).
Proof.
  unfold detect_duplicates.
  destruct (Nat.ltb_spec (length articles) 2) as [Hlt|Hge]; [left; auto|].
  destruct (cluster_labels env articles) as [labels|e] eqn:Hc.
  - right. split; [exact Hge|]. exists labels. split; [reflexivity|].
    split; [now apply cluster_labels_length in Hc|].
    intros i. apply fold_mark_cluster_lookup.
  - left. eauto.
Qed.

Lemma detect_duplicates_length env articles :
  length (detect_duplicates env articles) = length articles.
Proof.
  unfold detect_duplicates.
  destruct (length articles <? 2); [reflexivity|].
  destruct (cluster_labels env articles); [|reflexivity].
  apply fold_mark_cluster_length.
Qed.

Lemma role_mark_cases labels i :
  role_mark labels i = id
  \/ exists l, role_mark labels i = mark_primary l
               \/ role_mark labels i = mark_duplicate l.
Proof.
  unfold role_mark. destruct (labels !! i) as [l|]; [|now left].
  destruct (Z.eqb l (-1)); [now left|].
  destruct (indices_of l labels) as [|p dups]; [now left|].
  destruct (Nat.eqb i p); [|right; eauto].
  destruct dups; [now left|right; eauto].
Qed.

(** The mark of a member that is not the first of its cluster, and of the
    first member of a cluster with another member. *)
Lemma role_mark_duplicate labels l p j :
  l <> (-1)%Z -> labels !! p = Some l -> labels !! j = Some l -> p < j ->
  role_mark labels j = mark_duplicate l.
Proof.
  intros Hl Hp Hj Hlt. unfold role_mark. rewrite Hj.
  destruct (Z.eqb_spec l (-1)); [contradiction|].
  destruct (indices_of l labels) as [|h dups] eqn:Hi.
  - apply indices_of_In in Hj. now rewrite Hi in Hj.
  - destruct (indices_of_head _ _ _ _ Hi) as (_ & _ & _ & Hmin).
    specialize (Hmin p Hp).
    destruct (Nat.eqb_spec j h); [lia|reflexivity].
Qed.

Lemma role_mark_primary labels l p j :
  l <> (-1)%Z -> labels !! p = Some l -> labels !! j = Some l -> j <> p ->
  (forall k, k < p -> labels !! k <> Some l) ->
  role_mark labels p = mark_primary l.
Proof.
  intros Hl Hp Hj Hne Hmin. unfold role_mark. rewrite Hp.
  destruct (Z.eqb_spec l (-1)); [contradiction|].
  destruct (indices_of l labels) as [|h dups] eqn:Hi.
  - apply indices_of_In in Hp. now rewrite Hi in Hp.
  - destruct (indices_of_head _ _ _ _ Hi) as (Hh & _ & _ & Hleast).
    assert (h = p).
    { specialize (Hleast p Hp). destruct (Nat.eq_dec h p); [assumption|].
      exfalso. apply (Hmin h); [lia|exact Hh]. }
    subst h. rewrite Nat.eqb_refl.
    destruct dups; [|reflexivity].
    apply indices_of_In in Hj. rewrite Hi in Hj.
    destruct Hj as [<-|[]]. contradiction.
Qed.

(** C4.  When the embedding model or the clustering raises, whatever the
    exception, [detect_duplicates] returns the list it was given: the same
    records in the same order, none marked, none dropped. *)
Theorem detect_duplicates_fails_open env articles error_str :
  encode_fault env = Some error_str
  \/ fit_predict_fault env = Some error_str
  \/ cluster_labels env articles = Raises error_str ->
  detect_duplicates env articles = articles.
Proof.
  intros H.
  assert (Hr : exists e, cluster_labels env articles = Raises e).
  { unfold cluster_labels. destruct H as [->|[H|H]]; [eauto| |eauto].
    destruct (encode_fault env); [eauto|]. rewrite H. eauto. }
  destruct Hr as (e & Hr). unfold detect_duplicates. rewrite Hr.
  now destruct (length articles <? 2).
Qed.

Lemma detect_duplicates_fails_open_witness :
  (encode_fault env_embedding_down = Some "CUDA out of memory"
   \/ fit_predict_fault env_embedding_down = Some "CUDA out of memory"
   \/ cluster_labels env_embedding_down [article_final; article_championship]
      = Raises "CUDA out of memory")
  /\ detect_duplicates env_embedding_down [article_final; article_championship]
     = [article_final; article_championship].
Proof.
  split; [left; reflexivity|].
  apply (detect_duplicates_fails_open env_embedding_down
           [article_final; article_championship] "CUDA out of memory").
  left. reflexivity.
Defined.

(** C5, as stated, fails: the claim is for every input list, and the code
    never clears a mark.  A record that comes in marked as a duplicate and
    falls into no cluster leaves marked and without a group id; and when the
    record with the lowest index of a cluster comes in marked, the primary of
    that cluster leaves marked. *)
Lemma marked_input_counterexample :
  map (fun a => (Article.is_duplicate a, Article.duplicate_group_id a))
      (detect_duplicates env_rate_limited_once
                         [Article.set_is_duplicate true article_budget])
  = [(true, None)]
  /\ ~ (forall i a,
           detect_duplicates env_rate_limited_once
                             [Article.set_is_duplicate true article_budget] !! i
           = Some a ->
           Article.is_duplicate a = true ->
           Article.duplicate_group_id a <> None)
  /\ cluster_labels env_rate_limited_once
                    [Article.set_is_duplicate true article_final;
                     article_championship]
     = Returns [0%Z; 0%Z]
  /\ map (fun a => (Article.is_duplicate a, Article.duplicate_group_id a))
         (detect_duplicates env_rate_limited_once
                            [Article.set_is_duplicate true article_final;
                             article_championship])
     = [(true, Some "group_0"); (true, Some "group_0")].
Proof.
  split; [reflexivity|]. split; [|split; reflexivity].
  intros H.
  apply (H 0 (Article.set_is_duplicate true article_budget));
    reflexivity.
Qed.

(** C5, amended.  For every list of records that enter unmarked, as the
    extraction step creates them, the result of [detect_duplicates] has as
    many records as the input; every record marked as a duplicate has a
    group id; and in every cluster with a non-noise label [l] and two or
    more members, the member [p] with the lowest index is left unmarked,
    every other member [j] is marked as a duplicate, and all of them carry
    the group id [group_<l>]. *)
Theorem detect_duplicates_marks_clusters env (articles : list Article.t) :
  Forall (fun a => Article.is_duplicate a = false) articles ->
  let out := detect_duplicates env articles in
  length out = length articles
  /\ (forall i a, out !! i = Some a -> Article.is_duplicate a = true ->
                  Article.duplicate_group_id a <> None)
  /\ (forall labels l p j,
         cluster_labels env articles = Returns labels ->
         l <> (-1)%Z ->
         labels !! p = Some l -> (forall k, k < p -> labels !! k <> Some l) ->
         labels !! j = Some l -> j <> p ->
         exists ap aj,
           out !! p = Some ap /\ out !! j = Some aj
           /\ Article.is_duplicate ap = false
           /\ Article.duplicate_group_id ap = Some (group_name l)
           /\ Article.is_duplicate aj = true
           /\ Article.duplicate_group_id aj = Some (group_name l)).
Proof.
  intros Hfresh out. rewrite Forall_lookup in Hfresh.
  split; [apply detect_duplicates_length|]. split.
  - intros i a Ha Hdup.
    destruct (detect_duplicates_cases env articles)
      as [(Heq & _)|(_ & labels & _ & _ & Hlook)].
    + unfold out in Ha. rewrite Heq in Ha.
      specialize (Hfresh i a Ha). simpl in Hfresh. congruence.
    + unfold out in Ha. rewrite Hlook in Ha.
      destruct (articles !! i) as [a0|] eqn:Ha0; [|discriminate].
      injection Ha as <-. specialize (Hfresh i a0 Ha0). simpl in Hfresh.
      destruct (role_mark_cases labels i) as [Hr|(l & [Hr|Hr])];
        rewrite Hr in Hdup |- *; unfold mark_primary, mark_duplicate in *;
        simpl in *; congruence.
  - intros labels l p j Hc Hl Hp Hmin Hj Hne.
    pose proof (cluster_labels_length _ _ _ Hc) as Hlen.
    assert (Hpj : p < j).
    { destruct (Nat.lt_trichotomy p j) as [H|[H|H]]; [exact H|congruence|].
      exfalso. now apply (Hmin j). }
    destruct (detect_duplicates_cases env articles)
      as [(_ & [Hlt|(e & He)])|(_ & labels' & Hc' & _ & Hlook)].
    + apply lookup_lt_Some in Hj. lia.
    + congruence.
    + assert (labels' = labels) by congruence. subst labels'.
      destruct (lookup_lt_is_Some_2 articles p) as [ap0 Hap];
        [apply lookup_lt_Some in Hp; lia|].
      destruct (lookup_lt_is_Some_2 articles j) as [aj0 Haj];
        [apply lookup_lt_Some in Hj; lia|].
      exists (mark_primary l ap0), (mark_duplicate l aj0).
      unfold out. rewrite !Hlook, Hap, Haj.
      rewrite (role_mark_primary labels l p j) by assumption.
      rewrite (role_mark_duplicate labels l p j) by assumption.
      repeat split. simpl. apply (Hfresh p ap0 Hap).
Qed.

Lemma detect_duplicates_marks_clusters_witness :
  Forall (fun a => Article.is_duplicate a = false)
         [article_final; article_championship]
  /\ cluster_labels env_rate_limited_once [article_final; article_championship]
     = Returns [0%Z; 0%Z]
  /\ length (detect_duplicates env_rate_limited_once
                               [article_final; article_championship]) = 2
  /\ exists ap aj,
      detect_duplicates env_rate_limited_once
                        [article_final; article_championship] !! 0 = Some ap
      /\ detect_duplicates env_rate_limited_once
                           [article_final; article_championship] !! 1 = Some aj
      /\ Article.is_duplicate ap = false
      /\ Article.duplicate_group_id ap = Some (group_name 0)
      /\ Article.is_duplicate aj = true
      /\ Article.duplicate_group_id aj = Some (group_name 0).
Proof.
  assert (Hfresh : Forall (fun a => Article.is_duplicate a = false)
                          [article_final; article_championship])
    by (repeat constructor).
  assert (Hlabels : cluster_labels env_rate_limited_once
                                   [article_final; article_championship]
                    = Returns [0%Z; 0%Z]) by reflexivity.
  split; [exact Hfresh|]. split; [exact Hlabels|].
  destruct (detect_duplicates_marks_clusters env_rate_limited_once
              [article_final; article_championship] Hfresh)
    as (Hlen & _ & Hcluster).
  split; [exact Hlen|].
  apply (Hcluster [0%Z; 0%Z] 0%Z 0 1 Hlabels); try reflexivity;
    [discriminate|intros k Hk; inversion Hk|discriminate].
Defined.

Example detect_duplicates_example :
  cluster_labels env_rate_limited_once [article_final; article_championship]
  = Returns [0%Z; 0%Z]
  /\ map (fun a => (Article.is_duplicate a, Article.duplicate_group_id a))
         (detect_duplicates env_rate_limited_once
                            [article_final; article_championship])
     = [(false, Some "group_0"); (true, Some "group_0")].
Proof. split; reflexivity. Qed.

(** ** Clusters and similarity *)

Lemma Qle_bool_ext (a b c : Q) : (a == b)%Q -> Qle_bool a c = Qle_bool b c.
Proof.
  intros H. apply Bool.eq_iff_eq_true. rewrite !Qle_bool_iff. now rewrite H.
Qed.

Lemma clip0_ext (a b : Q) : (a == b)%Q -> (clip0 a == clip0 b)%Q.
Proof.
  intros H. unfold clip0.
  assert (Hb : Qle_bool 0 a = Qle_bool 0 b).
  { apply Bool.eq_iff_eq_true. rewrite !Qle_bool_iff. now rewrite H. }
  rewrite Hb. now destruct (Qle_bool 0 b).
Qed.

Lemma near_sym env e1 e2 :
  (forall a b, (cosine_similarity env a b == cosine_similarity env b a)%Q) ->
  near env e1 e2 = near env e2 e1.
Proof.
  intros Hsym. unfold near. apply Qle_bool_ext, clip0_ext.
  now rewrite (Hsym e1 e2).
Qed.

Lemma NoDup_two {A} (l : list A) (a b : A) :
  List.NoDup l -> In a l -> In b l -> a <> b -> 2 <= length l.
Proof.
  intros Hnd Ha Hb Hne. destruct l as [|x [|y l]]; simpl in *.
  - destruct Ha.
  - destruct Ha as [<-|[]], Hb as [<-|[]]. contradiction.
  - lia.
Qed.

Lemma NoDup_one {A} (l : list A) (a : A) :
  List.NoDup l -> (forall x, In x l -> x = a) -> length l <= 1.
Proof.
  intros Hnd Hall. destruct l as [|x [|y l]]; simpl; try lia.
  exfalso. inversion Hnd as [|? ? Hx _]; subst. apply Hx.
  rewrite (Hall x), (Hall y); simpl; auto.
Qed.

Section Neighbourhoods.
Variables (env : Env) (embeddings : list Embedding).

Let eps : Q := (1 - SIMILARITY_THRESHOLD)%Q.
Let neighborhoods : list (list nat) :=
  DBSCAN.radius_neighbors eps (distance_matrix env embeddings).
Let is_core : list bool := DBSCAN.core_samples 2 neighborhoods.

Lemma adjacent_iff u v :
  DBSCAN.adjacent neighborhoods u v
  <-> exists eu ev,
      embeddings !! u = Some eu /\ embeddings !! v = Some ev
      /\ (u = v \/ near env eu ev = true).
Proof.
  unfold DBSCAN.adjacent, DBSCAN.neighb_at, neighborhoods,
    DBSCAN.radius_neighbors, distance_matrix.
  rewrite list_lookup_fmap, list_lookup_imap.
  destruct (embeddings !! u) as [eu|] eqn:Hu; simpl.
  2:{ split; [intros []|]. intros (eu & ev & H & _). discriminate. }
  rewrite DBSCANFacts.positions_In, Nat.sub_0_r.
  unfold distance_row. rewrite list_lookup_imap.
  destruct (embeddings !! v) as [ev|] eqn:Hv; simpl.
  2:{ split; [intros (d & H & _); discriminate|].
      intros (eu' & ev & _ & H & _). discriminate. }
  split.
  - intros (d & Hd & Hle & _). injection Hd as <-.
    exists eu, ev. repeat split.
    destruct (Nat.eqb_spec u v); [now left|right; exact Hle].
  - intros (eu' & ev' & [= <-] & [= <-] & H).
    eexists. split; [reflexivity|]. split; [|lia].
    destruct (Nat.eqb_spec u v) as [Heq|Hne]; [reflexivity|].
    destruct H; [contradiction|assumption].
Qed.

Lemma is_core_at_spec u :
  DBSCAN.is_core_at is_core u
  = (2 <=? length (DBSCAN.neighb_at neighborhoods u)).
Proof.
  unfold DBSCAN.is_core_at, is_core, DBSCAN.core_samples, DBSCAN.neighb_at.
  rewrite list_lookup_fmap. now destruct (neighborhoods !! u).
Qed.

Lemma neighb_at_NoDup u : List.NoDup (DBSCAN.neighb_at neighborhoods u).
Proof.
  unfold DBSCAN.neighb_at, neighborhoods, DBSCAN.radius_neighbors.
  rewrite list_lookup_fmap.
  destruct (distance_matrix env embeddings !! u); simpl;
    [apply DBSCANFacts.positions_NoDup|constructor].
Qed.

Lemma neighbour_makes_core u v :
  DBSCAN.adjacent neighborhoods u v -> u <> v ->
  DBSCAN.is_core_at is_core u = true.
Proof.
  intros Ha Hne. rewrite is_core_at_spec. apply Nat.leb_le.
  apply (NoDup_two _ u v); [apply neighb_at_NoDup| |exact Ha|exact Hne].
  apply adjacent_iff in Ha as (eu & ev & Hu & _ & _).
  apply adjacent_iff. exists eu, eu. auto.
Qed.

Lemma isolated_not_core u :
  (forall v, DBSCAN.adjacent neighborhoods u v -> v = u) ->
  DBSCAN.is_core_at is_core u = false.
Proof.
  intros Hiso. rewrite is_core_at_spec. apply Nat.leb_gt.
  pose proof (NoDup_one _ u (neighb_at_NoDup u) Hiso). lia.
Qed.

(** Two distinct samples with near embeddings receive the same non-noise
    label. *)
Lemma fit_predict_linked labels :
  (forall a b, (cosine_similarity env a b == cosine_similarity env b a)%Q) ->
  DBSCAN.fit_predict eps 2 (distance_matrix env embeddings) = Some labels ->
  forall u v eu ev,
    u <> v -> embeddings !! u = Some eu -> embeddings !! v = Some ev ->
    near env eu ev = true ->
    exists l, l <> DBSCAN.noise /\ labels !! u = Some l /\ labels !! v = Some l.
Proof.
  intros Hsym Hfit u v eu ev Hne Hu Hv Hnear.
  unfold DBSCAN.fit_predict in Hfit. fold neighborhoods is_core in Hfit.
  apply (DBSCANFacts.dbscan_inner_linked is_core neighborhoods) in Hfit
    as (_ & Hlinked).
  - apply (Hlinked u v); [|exact Hne]. apply adjacent_iff. exists eu, ev. auto.
  - intros a b Hab. apply adjacent_iff in Hab as (ea & eb & Ha & Hb & Hor).
    apply adjacent_iff. exists eb, ea. repeat split; auto.
    destruct Hor as [->|Hn]; [now left|right]. now rewrite near_sym.
  - intros a b Hab. apply adjacent_iff in Hab as (ea & eb & Ha & Hb & _).
    apply lookup_lt_Some in Hb.
    now rewrite (proj1 (distance_matrix_square env embeddings)).
  - exact neighbour_makes_core.
Qed.

(** Without two distinct near samples every label is noise. *)
Lemma fit_predict_all_noise labels :
  (forall u v eu ev,
      u <> v -> embeddings !! u = Some eu -> embeddings !! v = Some ev ->
      near env eu ev = false) ->
  DBSCAN.fit_predict eps 2 (distance_matrix env embeddings) = Some labels ->
  labels = replicate (length embeddings) DBSCAN.noise.
Proof.
  intros Hfar Hfit.
  unfold DBSCAN.fit_predict, DBSCAN.dbscan_inner in Hfit.
  fold neighborhoods is_core in Hfit.
  rewrite DBSCANFacts.sweep_no_core in Hfit.
  - injection Hfit as <-.
    now rewrite (proj1 (distance_matrix_square env embeddings)).
  - intros i. apply isolated_not_core. intros v Ha.
    apply adjacent_iff in Ha as (eu & ev & Hu & Hv & [->|Hn]); [reflexivity|].
    destruct (Nat.eq_dec v i) as [->|Hne]; [reflexivity|].
    rewrite (Hfar i v eu ev) in Hn; auto. discriminate.
Qed.
End Neighbourhoods.

Lemma cluster_labels_linked env articles labels :
  (forall a b, (cosine_similarity env a b == cosine_similarity env b a)%Q) ->
  cluster_labels env articles = Returns labels ->
  forall u v au av,
    u <> v -> articles !! u = Some au -> articles !! v = Some av ->
    similar env au av = true ->
    exists l, l <> (-1)%Z /\ labels !! u = Some l /\ labels !! v = Some l.
Proof.
  intros Hsym Hc u v au av Hne Hu Hv Hs. unfold cluster_labels in Hc.
  destruct (encode_fault env); [discriminate|].
  destruct (fit_predict_fault env); [discriminate|].
  destruct (DBSCAN.fit_predict _ _ _) as [labels'|] eqn:Hfit; [|discriminate].
  injection Hc as ->.
  apply (fit_predict_linked env _ labels Hsym Hfit u v
           (encode env (embedding_text au)) (encode env (embedding_text av)));
    auto; rewrite !list_lookup_fmap; [now rewrite Hu|now rewrite Hv].
Qed.

Lemma cluster_labels_all_noise env articles labels :
  (forall u v au av,
      u <> v -> articles !! u = Some au -> articles !! v = Some av ->
      similar env au av = false) ->
  cluster_labels env articles = Returns labels ->
  labels = replicate (length articles) (-1)%Z.
Proof.
  intros Hfar Hc. unfold cluster_labels in Hc.
  destruct (encode_fault env); [discriminate|].
  destruct (fit_predict_fault env); [discriminate|].
  destruct (DBSCAN.fit_predict _ _ _) as [labels'|] eqn:Hfit; [|discriminate].
  injection Hc as ->.
  apply fit_predict_all_noise in Hfit.
  - now rewrite !length_map in Hfit.
  - intros u v eu ev Hne Hu Hv. rewrite !list_lookup_fmap in Hu, Hv.
    destruct (articles !! u) as [au|] eqn:Hau; [|discriminate].
    destruct (articles !! v) as [av|] eqn:Hav; [|discriminate].
    injection Hu as <-. injection Hv as <-. apply (Hfar u v); auto.
Qed.

(** The guarded block raises only when the environment does. *)
Lemma cluster_labels_raises env articles e :
  cluster_labels env articles = Raises e ->
  encode_fault env = Some e \/ (encode_fault env = None /\ fit_predict_fault env = Some e).
Proof.
  unfold cluster_labels.
  destruct (encode_fault env) as [e1|]; [intros [= ->]; now left|].
  destruct (fit_predict_fault env) as [e2|]; [intros [= ->]; now right|].
  destruct (distance_matrix_square env (map (encode env)
                                            (map embedding_text articles)))
    as (_ & Hsq).
  destruct (DBSCANFacts.fit_predict_total (1 - SIMILARITY_THRESHOLD) 2 _ Hsq)
    as (labels' & -> & _).
  discriminate.
Qed.

Lemma cluster_labels_raises_any env articles articles' e :
  cluster_labels env articles = Raises e ->
  cluster_labels env articles' = Raises e.
Proof.
  intros H. apply cluster_labels_raises in H as [H1|[H1 H2]];
    unfold cluster_labels; rewrite H1; [reflexivity|]. now rewrite H2.
Qed.

Lemma fold_mark_cluster_noise labels (arts : list Article.t) :
  (forall i l, labels !! i = Some l -> l = (-1)%Z) ->
  fold_left mark_cluster (cluster_groups_of labels) arts = arts.
Proof.
  intros Hnoise. apply list_eq. intros i.
  rewrite fold_mark_cluster_lookup. unfold role_mark.
  destruct (labels !! i) as [l|] eqn:Hl; [|apply option_fmap_id].
  rewrite (Hnoise i l Hl). apply option_fmap_id.
Qed.

Lemma role_mark_text labels i a :
  embedding_text (role_mark labels i a) = embedding_text a.
Proof.
  destruct (role_mark_cases labels i) as [->|(l & [->| ->])]; reflexivity.
Qed.

Lemma similar_text env a a' b b' :
  embedding_text a = embedding_text a' -> embedding_text b = embedding_text b' ->
  similar env a b = similar env a' b'.
Proof. unfold similar. now intros -> ->. Qed.

Lemma filter_lookup {A} (f : A -> bool) (l : list A) u x :
  List.filter f l !! u = Some x -> exists i, l !! i = Some x /\ f x = true.
Proof.
  intros H. apply list_elem_of_lookup_2, list_elem_of_In, filter_In in H as [H Hf].
  apply list_elem_of_In, list_elem_of_lookup_1 in H as [i Hi]. eauto.
Qed.

Lemma filter_lookup_distinct {A} (f : A -> bool) (l : list A) u v x y :
  u < v -> List.filter f l !! u = Some x -> List.filter f l !! v = Some y ->
  exists i j, i < j /\ l !! i = Some x /\ l !! j = Some y
              /\ f x = true /\ f y = true.
Proof.
  revert u v. induction l as [|a l IH]; intros u v Hlt Hu Hv; [discriminate|].
  simpl in Hu, Hv. destruct (f a) eqn:Hfa.
  - destruct v as [|v]; [lia|]. destruct u as [|u]; simpl in Hu, Hv.
    + injection Hu as <-.
      destruct (filter_lookup f l v y Hv) as (j & Hj & Hfy).
      exists 0, (S j). repeat split; auto. lia.
    + destruct (IH u v ltac:(lia) Hu Hv) as (i & j & Hij & Hi & Hj & Hfx & Hfy).
      exists (S i), (S j). repeat split; auto. lia.
  - destruct (IH u v Hlt Hu Hv) as (i & j & Hij & Hi & Hj & Hfx & Hfy).
    exists (S i), (S j). repeat split; auto. lia.
Qed.

(** No two records that a clustering run leaves unmarked are similar. *)
Lemma primaries_not_similar env articles :
  (forall a b, (cosine_similarity env a b == cosine_similarity env b a)%Q) ->
  forall labels,
    2 <= length articles -> cluster_labels env articles = Returns labels ->
    forall u v pu pv,
      u <> v ->
      primaries_of (detect_duplicates env articles) !! u = Some pu ->
      primaries_of (detect_duplicates env articles) !! v = Some pv ->
      similar env pu pv = false.
Proof.
  intros Hsym labels Hlen Hc.
  assert (Hlook : forall i, detect_duplicates env articles !! i
                            = role_mark labels i <$> articles !! i).
  { destruct (detect_duplicates_cases env articles)
      as [(_ & [H|(e & H)])|(_ & labels' & Hc' & _ & H)]; [lia|congruence|].
    assert (labels' = labels) by congruence. now subst. }
  assert (Hordered : forall u v pu pv,
             u < v ->
             primaries_of (detect_duplicates env articles) !! u = Some pu ->
             primaries_of (detect_duplicates env articles) !! v = Some pv ->
             similar env pu pv = false /\ similar env pv pu = false).
  { intros u v pu pv Hlt Hu Hv.
    destruct (filter_lookup_distinct _ _ u v pu pv Hlt Hu Hv)
      as (i & j & Hij & Hi & Hj & _ & Hfy).
    rewrite Hlook in Hi, Hj.
    destruct (articles !! i) as [ai|] eqn:Hai; [|discriminate].
    destruct (articles !! j) as [aj|] eqn:Haj; [|discriminate].
    injection Hi as <-. injection Hj as Hpv.
    assert (Hfar : similar env ai aj = false).
    { destruct (similar env ai aj) eqn:Hs; [|reflexivity]. exfalso.
      destruct (cluster_labels_linked env articles labels Hsym Hc i j ai aj)
        as (l & Hl & Hli & Hlj); auto; [lia|].
      rewrite (role_mark_duplicate labels l i j Hl Hli Hlj Hij) in Hpv.
      subst pv. discriminate. }
    rewrite (similar_text env _ ai pv aj), Hfar;
      [|apply role_mark_text|subst pv; apply role_mark_text].
    split; [reflexivity|].
    rewrite (similar_text env pv aj _ ai);
      [|subst pv; apply role_mark_text|apply role_mark_text].
    unfold similar in *. now rewrite near_sym. }
  intros u v pu pv Hne Hu Hv.
  destruct (Nat.lt_trichotomy u v) as [H|[H|H]]; [|contradiction|].
  - now apply (Hordered u v pu pv).
  - now apply (Hordered v u pv pu).
Qed.

(** C6.  With a symmetric cosine similarity, clustering again the records
    that a first run left unmarked -- same embedding model, same threshold --
    returns them as they are: no record is marked as a duplicate. *)
Theorem detect_duplicates_idempotent_on_primaries env articles :
  (forall a b, (cosine_similarity env a b == cosine_similarity env b a)%Q) ->
  let primaries := primaries_of (detect_duplicates env articles) in
  detect_duplicates env primaries = primaries
  /\ Forall (fun a => Article.is_duplicate a = false)
            (detect_duplicates env primaries).
Proof.
  intros Hsym primaries.
  assert (Hsame : detect_duplicates env primaries = primaries).
  { assert (Hshort : length primaries <= length articles).
    { unfold primaries, primaries_of.
      rewrite <- (detect_duplicates_length env articles).
      apply List.filter_length_le. }
    unfold detect_duplicates at 1.
    destruct (Nat.ltb_spec (length primaries) 2) as [_|Hge]; [reflexivity|].
    destruct (cluster_labels env primaries) as [labels2|e2] eqn:Hc2;
      [|reflexivity].
    apply fold_mark_cluster_noise.
    destruct (cluster_labels env articles) as [labels|e] eqn:Hc.
    - rewrite (cluster_labels_all_noise env primaries labels2); auto.
      + intros i l Hl. now apply lookup_replicate in Hl as [-> _].
      + intros u v pu pv Hne Hu Hv.
        apply (primaries_not_similar env articles Hsym labels ltac:(lia) Hc
                 u v pu pv Hne Hu Hv).
    - rewrite (cluster_labels_raises_any env articles primaries e Hc) in Hc2.
      discriminate. }
  split; [exact Hsame|]. rewrite Hsame.
  apply Forall_forall. intros a Ha.
  apply list_elem_of_In, filter_In in Ha as [_ Ha]. now apply negb_true_iff.
Qed.

(** ** Stable sorting *)

Section StableSortFacts.
Context {A : Type} (before : A -> A -> bool).

Lemma insert_sorted_Permutation x l :
  Permutation (insert_sorted before x l) (x :: l).
Proof.
  induction l as [|y l IH]; simpl; [reflexivity|].
  destruct (before y x); [|reflexivity].
  rewrite IH. apply perm_swap.
Qed.

Lemma stable_sort_Permutation l : Permutation (stable_sort before l) l.
Proof.
  induction l as [|x l IH]; simpl; [reflexivity|].
  rewrite insert_sorted_Permutation. now constructor.
Qed.

Lemma stable_sort_In x l : In x (stable_sort before l) <-> In x l.
Proof.
  split; apply Permutation_in;
    [apply stable_sort_Permutation|symmetry; apply stable_sort_Permutation].
Qed.

Local Abbreviation may_precede := (may_precede before).

Hypothesis before_asym : forall x y, before y x = true -> before x y = false.
Hypothesis before_negtrans :
  forall x y z, before y x = false -> before z y = false -> before z x = false.

Lemma insert_sorted_sorted x l :
  StronglySorted may_precede l ->
  StronglySorted may_precede (insert_sorted before x l).
Proof.
  induction 1 as [|y l Hl IH Hy]; simpl.
  - repeat constructor.
  - destruct (before y x) eqn:Hyx.
    + constructor; [exact IH|].
      apply Forall_forall. intros z Hz.
      apply list_elem_of_In, (Permutation_in _ (insert_sorted_Permutation x l)) in Hz.
      destruct Hz as [<-|Hz]; [now apply before_asym|].
      rewrite Forall_forall in Hy. apply Hy. now apply list_elem_of_In.
    + constructor; [now constructor|].
      constructor; [exact Hyx|].
      apply Forall_forall. intros z Hz.
      rewrite Forall_forall in Hy. specialize (Hy z Hz).
      unfold may_precede in *. eauto.
Qed.

Lemma stable_sort_sorted l : StronglySorted may_precede (stable_sort before l).
Proof.
  induction l as [|x l IH]; simpl; [constructor|].
  now apply insert_sorted_sorted.
Qed.

(** Elements of one class, none of which must come before another, keep
    their relative order. *)
Section Stable.
Variable class : A -> bool.
Hypothesis class_unordered :
  forall x y, class x = true -> class y = true -> before y x = false.

Lemma insert_sorted_filter x l :
  List.filter class (insert_sorted before x l) = List.filter class (x :: l).
Proof.
  induction l as [|y l IH]; [reflexivity|].
  simpl insert_sorted. destruct (before y x) eqn:Hyx; [|reflexivity].
  simpl List.filter in *. rewrite IH.
  destruct (class x) eqn:Hx, (class y) eqn:Hy; try reflexivity.
  rewrite (class_unordered x y Hx Hy) in Hyx. discriminate.
Qed.

Lemma stable_sort_filter l :
  List.filter class (stable_sort before l) = List.filter class l.
Proof.
  induction l as [|x l IH]; [reflexivity|].
  simpl stable_sort. rewrite insert_sorted_filter. simpl. now rewrite IH.
Qed.
End Stable.
End StableSortFacts.

(** ** The order on sort keys *)

Lemma key_ltb_spec k1 k2 :
  key_ltb k1 k2 = true
  <-> (fst k1 < fst k2)%Q \/ ((fst k1 == fst k2)%Q /\ (snd k1 < snd k2)%Z).
Proof.
  unfold key_ltb. destruct (Qcompare_spec (fst k1) (fst k2)) as [He|Hl|Hg].
  - rewrite Z.ltb_lt. split; [auto|]. intros [H|[_ H]]; [|exact H].
    rewrite He in H. now apply Qlt_irrefl in H.
  - split; auto.
  - split; [discriminate|]. intros [H|[H _]].
    + exfalso. apply (Qlt_irrefl (fst k1)).
      now apply Qlt_trans with (fst k2).
    + rewrite H in Hg. now apply Qlt_irrefl in Hg.
Qed.

Lemma key_ltb_false k1 k2 : key_ltb k1 k2 = false <-> key_le k2 k1.
Proof.
  unfold key_le. rewrite <- not_true_iff_false, key_ltb_spec. split.
  - intros Hn. destruct (Q_dec (fst k1) (fst k2)) as [[Hl|Hg]|He].
    + exfalso. auto.
    + now left.
    + right. split; [now symmetry|].
      destruct (Z.le_gt_cases (snd k2) (snd k1)) as [H|H]; [exact H|].
      exfalso. apply Hn. right. split; [exact He|lia].
  - intros [Hl|[He Hz]] [Hl'|[He' Hz']].
    + apply (Qlt_irrefl (fst k1)). now apply Qlt_trans with (fst k2).
    + rewrite He' in Hl. now apply Qlt_irrefl in Hl.
    + rewrite He in Hl'. now apply Qlt_irrefl in Hl'.
    + lia.
Qed.

Lemma key_le_trans k1 k2 k3 : key_le k1 k2 -> key_le k2 k3 -> key_le k1 k3.
Proof.
  unfold key_le. intros [H1|[H1 Z1]] [H2|[H2 Z2]].
  - left. now apply Qlt_trans with (fst k2).
  - left. now rewrite <- H2.
  - left. now rewrite H1.
  - right. split; [now rewrite H1|lia].
Qed.

Lemma key_eqb_spec k1 k2 :
  key_eqb k1 k2 = true <-> (fst k1 == fst k2)%Q /\ snd k1 = snd k2.
Proof.
  unfold key_eqb. now rewrite andb_true_iff, Qeq_bool_iff, Z.eqb_eq.
Qed.

Lemma StronglySorted_weaken {A} (R R' : A -> A -> Prop) l :
  (forall a b, R a b -> R' a b) -> StronglySorted R l -> StronglySorted R' l.
Proof.
  intros HR. induction 1 as [|x l Hl IH Hx]; constructor; [exact IH|].
  rewrite Forall_forall in Hx |- *. auto.
Qed.

Lemma sort_highlights_sorted highlights :
  StronglySorted (fun h1 h2 => key_le (sort_key h2) (sort_key h1))
                 (sort_highlights highlights).
Proof.
  unfold sort_highlights.
  eapply StronglySorted_weaken;
    [|apply (stable_sort_sorted
               (fun y x => key_ltb (sort_key x) (sort_key y)))].
  - intros h1 h2 H. unfold may_precede in H. now apply key_ltb_false in H.
  - intros x y Hxy. apply key_ltb_false. apply key_ltb_spec in Hxy.
    unfold key_le. destruct Hxy as [H|[H Hz]]; [now left|right].
    split; [exact H|lia].
  - intros x y z H1 H2. apply key_ltb_false. apply key_ltb_false in H1, H2.
    eapply key_le_trans; eauto.
Qed.

Lemma sort_highlights_stable highlights k :
  List.filter (fun h => key_eqb (sort_key h) k) (sort_highlights highlights)
  = List.filter (fun h => key_eqb (sort_key h) k) highlights.
Proof.
  apply stable_sort_filter. intros x y Hx Hy.
  apply key_eqb_spec in Hx as [Hx1 Hx2], Hy as [Hy1 Hy2].
  apply key_ltb_false. right. split; [|lia]. now rewrite Hx1, Hy1.
Qed.

(** ** Highlight synthesis *)

Lemma string_eqb_eq (a b : string) : String.eqb a b = true <-> a = b.
Proof. apply String.eqb_eq. Qed.

Lemma article_groups_of_snoc arts a :
  article_groups_of (arts ++ [a])
  = groups_append String.eqb (group_id_of a) a (article_groups_of arts).
Proof. unfold article_groups_of. now rewrite fold_left_app. Qed.

Lemma members_of_snoc gid arts a :
  members_of gid (arts ++ [a])
  = members_of gid arts ++ (if String.eqb (group_id_of a) gid then [a] else []).
Proof. unfold members_of. now rewrite List.filter_app. Qed.

(** What the dict [article_groups] holds: one entry per group id, with all
    the filtered articles of that group, in input order. *)
Lemma article_groups_of_spec arts :
  List.NoDup (map fst (article_groups_of arts))
  /\ (forall gid group, In (gid, group) (article_groups_of arts) ->
                        group <> [] /\ group = members_of gid arts)
  /\ (forall a, In a arts -> In (group_id_of a) (map fst (article_groups_of arts))).
Proof.
  induction arts as [|a arts IH] using rev_ind.
  - split; [constructor|]. split; [intros gid group []|intros a []].
  - rewrite article_groups_of_snoc. destruct IH as (Hnd & Hin & Hall).
    set (g := group_id_of a).
    assert (Hother : forall gid, gid <> g ->
                                 members_of gid (arts ++ [a]) = members_of gid arts).
    { intros gid Hne. rewrite members_of_snoc. fold g.
      destruct (String.eqb_spec g gid); [congruence|apply app_nil_r]. }
    assert (Hself : members_of g (arts ++ [a]) = members_of g arts ++ [a]).
    { rewrite members_of_snoc. fold g. now rewrite String.eqb_refl. }
    destruct (in_dec string_dec g (map fst (article_groups_of arts)))
      as [Hpresent|Habsent].
    + destruct (groups_append_present String.eqb string_eqb_eq g a _ Hpresent)
        as (g1 & vs & g2 & Hsplit & Hno & ->).
      rewrite Hsplit in Hnd, Hin, Hall.
      assert (Hkeys : map fst (g1 ++ (g, vs ++ [a]) :: g2)
                      = map fst (g1 ++ (g, vs) :: g2))
        by (rewrite !map_app; reflexivity).
      assert (Hvs : vs = members_of g arts).
      { apply (Hin g vs). apply in_or_app. right. now left. }
      assert (Hold : forall gid group,
                 In (gid, group) (g1 ++ (g, vs ++ [a]) :: g2) ->
                 (gid = g /\ group = vs ++ [a])
                 \/ (gid <> g /\ In (gid, group) (g1 ++ (g, vs) :: g2))).
      { intros gid group H. apply in_app_or in H as [H|[H|H]].
        - right. split; [|apply in_or_app; now left].
          intros ->. apply Hno. apply (in_map fst) in H. exact H.
        - left. now injection H as <- <-.
        - right. split; [|apply in_or_app; right; now right].
          intros ->. rewrite map_app in Hnd. simpl in Hnd.
          apply NoDup_remove_2 in Hnd. apply Hnd.
          apply in_or_app. right. apply (in_map fst) in H. exact H. }
      split; [now rewrite Hkeys|]. split.
      * intros gid group H. destruct (Hold gid group H) as [[-> ->]|[Hne H']].
        -- split; [now destruct vs|]. now rewrite Hself, Hvs.
        -- destruct (Hin gid group H') as (Hn & ->).
           rewrite Hother by exact Hne. auto.
      * intros a' Ha'. rewrite Hkeys. apply in_app_or in Ha' as [Ha'|[<-|[]]].
        -- now apply Hall.
        -- fold g. now rewrite <- Hsplit.
    + rewrite (groups_append_absent String.eqb string_eqb_eq) by exact Habsent.
      assert (Hnone : members_of g arts = []).
      { destruct (members_of g arts) as [|a' l] eqn:Hm; [reflexivity|].
        exfalso. apply Habsent.
        assert (Ha' : In a' (members_of g arts)) by (rewrite Hm; now left).
        apply filter_In in Ha' as [Ha' Hg]. apply String.eqb_eq in Hg.
        rewrite <- Hg. now apply Hall. }
      split; [|split].
      * rewrite map_app. simpl. now apply NoDup_snoc.
      * intros gid group H. apply in_app_or in H as [H|[H|[]]].
        -- assert (Hne : gid <> g).
           { intros ->. apply Habsent. apply (in_map fst) in H. exact H. }
           destruct (Hin gid group H) as (Hn & ->).
           rewrite Hother by exact Hne. auto.
        -- injection H as <- <-. split; [discriminate|].
           now rewrite Hself, Hnone.
      * intros a' Ha'. rewrite map_app. apply in_or_app.
        apply in_app_or in Ha' as [Ha'|[<-|[]]]; [left; now apply Hall|].
        right. now left.
Qed.

Lemma first_seen_snoc keys k :
  first_seen (keys ++ [k])
  = if existsb (fun k' => String.eqb k' k) (first_seen keys)
    then first_seen keys else first_seen keys ++ [k].
Proof. unfold first_seen. now rewrite fold_left_app. Qed.

(** The groups are listed in the order in which the scan over the filtered
    records first met them. *)
Lemma article_groups_first_seen arts :
  map fst (article_groups_of arts) = first_seen (map group_id_of arts).
Proof.
  induction arts as [|a arts IH] using rev_ind; [reflexivity|].
  rewrite article_groups_of_snoc, map_app.
  change (map group_id_of [a]) with [group_id_of a].
  rewrite first_seen_snoc, groups_append_keys. now rewrite IH.
Qed.

Lemma article_groups_nonempty arts :
  Forall (fun g => snd g <> []) (article_groups_of arts).
Proof.
  induction arts as [|a arts IH] using rev_ind; [constructor|].
  rewrite article_groups_of_snoc. now apply groups_append_nonempty.
Qed.

Lemma make_highlight_built env category group w :
  group <> [] ->
  exists h, fst (make_highlight env category group w) = Some h
            /\ built_from category h group.
Proof.
  intros Hne. unfold make_highlight.
  destruct group as [|primary rest]; [contradiction|].
  destruct (if Py.truthy (Article.summary primary)
            then (default "" (Article.summary primary), w)
            else summarize_article env primary w) as [summary w1].
  eexists. split; [reflexivity|]. now repeat split.
Qed.

Lemma make_highlights_built env category groups w :
  Forall (fun g => snd g <> []) groups ->
  Forall2 (fun h g => built_from category h (snd g))
          (fst (make_highlights env category groups w)) groups.
Proof.
  intros Hall. revert w.
  induction Hall as [|[gid group] groups Hg Hall IH]; intros w; [constructor|].
  simpl. destruct (make_highlight_built env category group w Hg) as (h & Hh & Hb).
  destruct (make_highlight env category group w) as [oh w1]. simpl in Hh.
  subst oh. specialize (IH w1).
  destruct (make_highlights env category groups w1) as [hs w2]. simpl in *.
  now constructor.
Qed.

Lemma keyword_score_nonneg all_text keywords (score : Q) :
  (0 <= score)%Q ->
  (0 <= fold_left (fun score keyword =>
                     if Py.contains keyword all_text then (score + 1)%Q
                     else score) keywords score)%Q.
Proof.
  revert score. induction keywords as [|k keywords IH]; intros score Hs;
    [exact Hs|].
  simpl. apply IH. destruct (Py.contains k all_text); [|exact Hs].
  apply Qle_trans with (0 + 0)%Q; [discriminate|].
  apply Qplus_le_compat; [exact Hs|discriminate].
Qed.

Lemma priority_score_of_bound (group : list Article.t) :
  (inject_Z (Z.of_nat (length group)) * (1 # 2) <= priority_score_of group)%Q.
Proof.
  unfold priority_score_of.
  set (kw := fold_left _ PRIORITY_KEYWORDS 0%Q).
  assert (Hkw : (0 <= kw)%Q) by (apply keyword_score_nonneg; discriminate).
  rewrite <- (Qplus_0_l (inject_Z _ * _)) at 1.
  apply Qplus_le_compat; [exact Hkw|apply Qle_refl].
Qed.

Lemma half_frequency_bound (group : list Article.t) :
  group <> [] -> (1 # 2 <= inject_Z (Z.of_nat (length group)) * (1 # 2))%Q.
Proof.
  intros Hne. destruct group as [|a group]; [contradiction|].
  unfold Qle, Qmult, inject_Z. simpl Qnum. simpl Qden. simpl length. lia.
Qed.

Lemma generate_highlights_sorted env articles category w :
  fst (generate_highlights env articles category w)
  = sort_highlights (unsorted_highlights env articles category w).
Proof.
  unfold generate_highlights, unsorted_highlights.
  destruct (category_articles_of articles category) as [|a l]; [reflexivity|].
  now destruct (make_highlights _ _ _ _).
Qed.

Lemma unsorted_highlights_built env articles category w :
  Forall2 (fun h g => built_from category h (snd g))
          (unsorted_highlights env articles category w)
          (article_groups_of (category_articles_of articles category)).
Proof. apply make_highlights_built, article_groups_nonempty. Qed.

Lemma generate_highlights_built env articles category w h :
  In h (fst (generate_highlights env articles category w)) ->
  exists gid group,
    In (gid, group) (article_groups_of (category_articles_of articles category))
    /\ built_from category h group.
Proof.
  rewrite generate_highlights_sorted. unfold sort_highlights.
  rewrite stable_sort_In. intros Hin.
  pose proof (unsorted_highlights_built env articles category w) as Hall.
  induction Hall as [|h' [gid group] hs groups Hb Hall IH]; [destruct Hin|].
  destruct Hin as [<-|Hin].
  - exists gid, group. split; [now left|exact Hb].
  - destruct (IH Hin) as (gid' & group' & Hg & Hb').
    exists gid', group'. split; [now right|exact Hb'].
Qed.

(** C10.  Every highlight of [generate_highlights] has a frequency of at
    least one, a priority score of at least half its frequency, hence at
    least one half and strictly positive; so its keywords are the whole of
    [PRIORITY_KEYWORDS] and the empty alternative is never taken. *)
Theorem highlight_score_is_positive env articles category w h :
  In h (fst (generate_highlights env articles category w)) ->
  (1 <= Highlight.frequency h)%Z
  /\ (1 # 2 <= inject_Z (Highlight.frequency h) * (1 # 2))%Q
  /\ (inject_Z (Highlight.frequency h) * (1 # 2) <= Highlight.priority_score h)%Q
  /\ (0 < Highlight.priority_score h)%Q
  /\ Highlight.keywords h = PRIORITY_KEYWORDS.
Proof.
  intros Hin.
  destruct (generate_highlights_built _ _ _ _ _ Hin)
    as (gid & group & _ & Hne & Hf & Hp & Hk & _).
  pose proof (half_frequency_bound group Hne) as Hhalf.
  pose proof (priority_score_of_bound group) as Hbound.
  assert (Hpos : (0 < priority_score_of group)%Q).
  { apply Qlt_le_trans with (1 # 2)%Q; [reflexivity|].
    eapply Qle_trans; eauto. }
  rewrite Hf, Hp, Hk. repeat split; auto.
  - destruct group; [contradiction|]. simpl length. lia.
  - destruct (Qle_bool (priority_score_of group) 0) eqn:Hle; [|reflexivity].
    apply Qle_bool_iff in Hle. exfalso.
    apply (Qlt_irrefl 0). eapply Qlt_le_trans; eauto.
Qed.

Lemma highlight_score_is_positive_witness :
  In highlight_final
     (fst (generate_highlights env_rate_limited_once [article_final] "sports"
                               initial_world))
  /\ (1 <= Highlight.frequency highlight_final)%Z
  /\ (1 # 2 <= inject_Z (Highlight.frequency highlight_final) * (1 # 2))%Q
  /\ (inject_Z (Highlight.frequency highlight_final) * (1 # 2)
      <= Highlight.priority_score highlight_final)%Q
  /\ (0 < Highlight.priority_score highlight_final)%Q
  /\ Highlight.keywords highlight_final = PRIORITY_KEYWORDS.
Proof.
  split; [left; reflexivity|].
  apply (highlight_score_is_positive env_rate_limited_once [article_final]
           "sports" initial_world highlight_final).
  left. reflexivity.
Defined.

(** C7.  The list returned by [generate_highlights] is sorted non-increasing
    by [(priority_score, frequency)]; it is a permutation of the highlights
    built group by group; highlights with the same score and the same
    frequency stand in the order of their groups; and the groups are listed
    in the order in which the scan over the filtered records first met
    them. *)
Theorem highlights_sorted_and_stable env articles category w :
  let highlights := fst (generate_highlights env articles category w) in
  let unsorted := unsorted_highlights env articles category w in
  let category_articles := category_articles_of articles category in
  let groups := article_groups_of category_articles in
  StronglySorted (fun h1 h2 => key_le (sort_key h2) (sort_key h1)) highlights
  /\ Permutation highlights unsorted
  /\ (forall k,
         List.filter (fun h => key_eqb (sort_key h) k) highlights
         = List.filter (fun h => key_eqb (sort_key h) k) unsorted)
  /\ Forall2 (fun h g => built_from category h (snd g)) unsorted groups
  /\ map fst groups = first_seen (map group_id_of category_articles).
Proof.
  intros highlights unsorted category_articles groups.
  unfold highlights. rewrite generate_highlights_sorted. fold unsorted.
  split; [apply sort_highlights_sorted|].
  split; [apply stable_sort_Permutation|].
  split; [intros k; apply sort_highlights_stable|].
  split; [apply unsorted_highlights_built|apply article_groups_first_seen].
Qed.

Example highlights_sorted_example :
  map (fun h => (Highlight.title h, Highlight.priority_score h))
      (fst (generate_highlights env_topics
              [article_final;
               Article.mk "Cup update" "The cup draw was held on Monday morning."
                          None "abc" "https://abc.example/cup" (Some "sports")
                          None 0%Z None [] false None;
               article_championship]
              "sports" initial_world))
  = [("Cup update", 3 # 2); ("Team wins final", 1 # 2);
     ("Local team wins championship", 1 # 2)].
Proof. reflexivity. Qed.

(** ** The end-to-end example *)

Lemma near_of_similarity env e1 e2 :
  (SIMILARITY_THRESHOLD <= cosine_similarity env e1 e2)%Q ->
  near env e1 e2 = true.
Proof.
  intros Hs. unfold near, clip0.
  assert (Hd : (1 - cosine_similarity env e1 e2 <= 1 - SIMILARITY_THRESHOLD)%Q).
  { apply Qplus_le_compat; [apply Qle_refl|]. now apply Qopp_le_compat. }
  destruct (Qle_bool 0 (1 - cosine_similarity env e1 e2));
    apply Qle_bool_iff; [exact Hd|discriminate].
Qed.

(** Two samples within [eps] of each other form the cluster 0. *)
Lemma cluster_labels_pair env a0 a1 :
  encode_fault env = None -> fit_predict_fault env = None ->
  similar env a0 a1 = true -> similar env a1 a0 = true ->
  cluster_labels env [a0; a1] = Returns [0%Z; 0%Z].
Proof.
  intros He Hf H01 H10. unfold similar, near in H01, H10.
  unfold cluster_labels. rewrite He, Hf.
  unfold DBSCAN.fit_predict, DBSCAN.radius_neighbors, distance_matrix,
    distance_row.
  cbn [map imap Nat.eqb DBSCAN.positions length replicate].
  unfold compose. cbn [Nat.eqb].
  rewrite H01. cbn [DBSCAN.positions]. rewrite H10.
  reflexivity.
Qed.

Lemma detect_duplicates_pair env a0 a1 :
  encode_fault env = None -> fit_predict_fault env = None ->
  similar env a0 a1 = true -> similar env a1 a0 = true ->
  detect_duplicates env [a0; a1] = [mark_primary 0 a0; mark_duplicate 0 a1].
Proof.
  intros He Hf H01 H10. unfold detect_duplicates.
  rewrite (cluster_labels_pair env a0 a1 He Hf H01 H10). reflexivity.
Qed.

Lemma generate_highlights_backing env articles category w h :
  In h (fst (generate_highlights env articles category w)) ->
  exists gid,
    let backing := members_of gid (category_articles_of articles category) in
    backing <> []
    /\ Highlight.frequency h = Z.of_nat (length backing)
    /\ Highlight.urls h = map Article.url backing
    /\ Highlight.sources h = map Article.source backing.
Proof.
  intros Hin.
  destruct (generate_highlights_built _ _ _ _ _ Hin)
    as (gid & group & Hg & Hne & Hf & _ & _ & _ & Hs & Hu).
  destruct (article_groups_of_spec (category_articles_of articles category))
    as (_ & Hmem & _).
  destruct (Hmem gid group Hg) as (_ & Heq).
  exists gid. simpl. rewrite <- Heq. auto.
Qed.

(** The end-to-end example of the spec: the second record is marked as a
    duplicate, [generate_highlights] leaves it out, and the one highlight
    has frequency 1, not 2. *)
Lemma example_frequency_counterexample :
  let env := env_rate_limited_once in
  (SIMILARITY_THRESHOLD
   <= cosine_similarity env (encode env (embedding_text article_final))
                        (encode env (embedding_text article_championship)))%Q
  /\ map Highlight.frequency
         (fst (generate_highlights env
                 (detect_duplicates env [article_final; article_championship])
                 "sports" initial_world))
     = [1%Z]
  /\ ~ exists h,
        fst (generate_highlights env
               (detect_duplicates env [article_final; article_championship])
               "sports" initial_world) = [h]
        /\ Highlight.frequency h = 2%Z.
Proof.
  split; [discriminate|]. split; [reflexivity|].
  intros (h & Hh & Hf).
  assert (Hm : map Highlight.frequency
                   (fst (generate_highlights env_rate_limited_once
                           (detect_duplicates env_rate_limited_once
                              [article_final; article_championship])
                           "sports" initial_world)) = [1%Z]) by reflexivity.
  rewrite Hh in Hm. simpl in Hm. congruence.
Qed.

(** C2.  What the code does on the end-to-end example.  For every
    highlight returned by [generate_highlights], [frequency] is the number
    of records of the category that are not marked as duplicates and carry
    the highlight's group id.  [detect_duplicates] gives both records of the
    example, with cosine similarity at least 0.85, the group id [group_0]
    and marks the second as a duplicate; [generate_highlights] drops the
    marked record before it groups and counts, so the one highlight it
    returns for "sports" is backed by the first record alone and has
    frequency 1, where the cluster has two records and the claim says 2. *)
Theorem frequency_counts_unmarked_members env w :
  encode_fault env = None -> fit_predict_fault env = None ->
  (forall a b, (cosine_similarity env a b == cosine_similarity env b a)%Q) ->
  (SIMILARITY_THRESHOLD
   <= cosine_similarity env (encode env (embedding_text article_final))
                        (encode env (embedding_text article_championship)))%Q ->
  (forall articles category h,
      In h (fst (generate_highlights env articles category w)) ->
      exists gid,
        let backing := members_of gid (category_articles_of articles category) in
        backing <> []
        /\ Highlight.frequency h = Z.of_nat (length backing)
        /\ Highlight.urls h = map Article.url backing
        /\ Highlight.sources h = map Article.source backing)
  /\ let clustered := detect_duplicates env [article_final; article_championship] in
     map Article.duplicate_group_id clustered = [Some "group_0"; Some "group_0"]
     /\ map Article.is_duplicate clustered = [false; true]
     /\ exists h,
         fst (generate_highlights env clustered "sports" w) = [h]
         /\ Highlight.frequency h = 1%Z
         /\ Highlight.urls h = [Article.url article_final].
Proof.
  intros He Hf Hsym Hs.
  split; [intros articles category h; apply generate_highlights_backing|].
  assert (H01 : similar env article_final article_championship = true)
    by now apply near_of_similarity.
  assert (H10 : similar env article_championship article_final = true).
  { unfold similar. now rewrite near_sym. }
  intros clustered. unfold clustered.
  rewrite (detect_duplicates_pair env _ _ He Hf H01 H10).
  split; [reflexivity|]. split; [reflexivity|].
  rewrite generate_highlights_sorted. unfold unsorted_highlights.
  change (category_articles_of
            [mark_primary 0 article_final; mark_duplicate 0 article_championship]
            "sports")
    with [mark_primary 0 article_final].
  change (article_groups_of [mark_primary 0 article_final])
    with [("group_0", [mark_primary 0 article_final])].
  cbn [make_highlights make_highlight].
  change (Py.truthy (Article.summary (mark_primary 0 article_final)))
    with false.
  cbv iota.
  destruct (summarize_article env (mark_primary 0 article_final) w)
    as [summary w1].
  eexists. split; [reflexivity|]. split; reflexivity.
Qed.

Lemma frequency_counts_unmarked_members_witness :
  let env := env_rate_limited_once in
  encode_fault env = None /\ fit_predict_fault env = None
  /\ (forall a b, (cosine_similarity env a b == cosine_similarity env b a)%Q)
  /\ (SIMILARITY_THRESHOLD
      <= cosine_similarity env (encode env (embedding_text article_final))
                           (encode env (embedding_text article_championship)))%Q
  /\ let clustered := detect_duplicates env [article_final; article_championship] in
     map Article.duplicate_group_id clustered = [Some "group_0"; Some "group_0"]
     /\ map Article.is_duplicate clustered = [false; true]
     /\ exists h,
         fst (generate_highlights env clustered "sports" initial_world) = [h]
         /\ Highlight.frequency h = 1%Z
         /\ Highlight.urls h = [Article.url article_final].
Proof.
  split; [reflexivity|]. split; [reflexivity|].
  split; [intros a b; reflexivity|]. split; [unfold Qle; simpl; lia|].
  apply (frequency_counts_unmarked_members env_rate_limited_once initial_world);
    [reflexivity|reflexivity|intros a b; reflexivity|unfold Qle; simpl; lia].
Defined.

Lemma dot_sym a b : (dot a b == dot b a)%Q.
Proof.
  unfold dot. revert b. induction a as [|x a IH]; intros [|y b]; simpl;
    try reflexivity.
  rewrite IH. now rewrite (Qmult_comm x y).
Qed.

Lemma detect_duplicates_idempotent_on_primaries_witness :
  (forall a b, (cosine_similarity env_topics a b
                == cosine_similarity env_topics b a)%Q)
  /\ let primaries :=
       primaries_of (detect_duplicates env_topics
                       [article_final; article_budget; article_championship]) in
     detect_duplicates env_topics primaries = primaries
     /\ Forall (fun a => Article.is_duplicate a = false)
               (detect_duplicates env_topics primaries).
Proof.
  split; [exact dot_sym|].
  apply (detect_duplicates_idempotent_on_primaries env_topics
           [article_final; article_budget; article_championship]).
  exact dot_sym.
Defined.

Example detect_duplicates_topics :
  map (fun a => (Article.is_duplicate a, Article.duplicate_group_id a))
      (detect_duplicates env_topics
                         [article_final; article_budget; article_championship])
  = [(false, Some "group_0"); (false, None); (true, Some "group_0")]
  /\ map Article.url
         (primaries_of (detect_duplicates env_topics
                          [article_final; article_budget; article_championship]))
     = ["https://abc.example/final"; "https://afr.example/budget"].
Proof. split; reflexivity. Qed.

(** ** Retrieval answering *)

Lemma retrieve_empty_index env user_message top_k w :
  0 < top_k ->
  encode_fault env = None -> query_fault env = None -> collection w = [] ->
  retrieve env user_message top_k w = Returns [].
Proof.
  intros Hk He Hq Hc. unfold retrieve, VectorIndex.query. rewrite He, Hq, Hc.
  destruct top_k; [lia|reflexivity].
Qed.

Lemma retrieve_raises env user_message top_k w e :
  encode_fault env = Some e
  \/ (encode_fault env = None /\ query_fault env = Some e) ->
  retrieve env user_message top_k w = Raises e.
Proof.
  unfold retrieve, VectorIndex.query. intros [->|[-> ->]]; reflexivity.
Qed.

(** The index rejects a request for no document. *)
Lemma retrieve_zero env user_message w :
  exists e, retrieve env user_message 0 w = Raises e.
Proof.
  unfold retrieve, VectorIndex.query.
  destruct (encode_fault env); [eauto|].
  destruct (query_fault env); simpl; eauto.
Qed.

(** Apart from retrieval nothing in the body of [query] raises: a failed
    provider call is handled by the inner [try]. *)
Lemma query_body_raises env user_message top_k w e :
  fst (query_body env user_message top_k w) = Raises e ->
  retrieve env user_message top_k w = Raises e.
Proof.
  unfold query_body, call_provider.
  destruct (retrieve env user_message top_k w) as [[|doc docs]|e'];
    [discriminate| |now intros [= ->]].
  destruct (openai_client env); [|discriminate].
  destruct (chat_completions_create env _ _) as [text|error_str];
    [discriminate|].
  destruct (is_quota_error error_str); discriminate.
Qed.

Lemma query_empty env user_message top_k w :
  retrieve env user_message top_k w = Returns [] ->
  query env user_message top_k w = (insufficient_information, w).
Proof. intros Hr. unfold query, query_body. now rewrite Hr. Qed.

Lemma query_apology env user_message top_k w e :
  retrieve env user_message top_k w = Raises e ->
  query env user_message top_k w = (apology, w).
Proof. intros Hr. unfold query, query_body. now rewrite Hr. Qed.

(** A provider call that raises, with or without quota signature, is
    answered by the fallback. *)
Lemma query_provider_failure env user_message top_k w docs error_str :
  retrieve env user_message top_k w = Returns docs -> docs <> [] ->
  openai_client env = true ->
  chat_completions_create env (length (provider_log w))
    (query_request (context_of docs) user_message) = Failure error_str ->
  query env user_message top_k w
  = (_generate_fallback_response docs user_message,
     log_request (query_request (context_of docs) user_message) w).
Proof.
  intros Hr Hne Hc Hf. unfold query, query_body, call_provider.
  rewrite Hr, Hc, Hf. destruct docs as [|doc docs]; [contradiction|].
  now destruct (is_quota_error error_str).
Qed.


(** C8, as stated, fails: not every exception raised during [query] becomes
    the apology.  An exception of the provider call is caught by the inner
    handler and answered with the fallback built from the retrieved
    documents.  And on an index that was never populated a query for no
    document gets the apology, not the insufficient-information message,
    since the index rejects the request. *)
Lemma provider_failure_counterexample :
  chat_completions_create env_transient
    (length (provider_log
               (snd (index_highlights env_transient [highlight_final]
                                      initial_world))))
    (query_request (context_of [doc_text_of highlight_final])
                   "Who won the final?")
  = Failure "Connection reset by peer"
  /\ fst (query env_transient "Who won the final?" 3
            (snd (index_highlights env_transient [highlight_final]
                                   initial_world)))
     = _generate_fallback_response [doc_text_of highlight_final]
                                   "Who won the final?"
  /\ fst (query env_transient "Who won the final?" 3
            (snd (index_highlights env_transient [highlight_final]
                                   initial_world)))
     <> apology
  /\ collection initial_world = []
  /\ fst (query env_transient "Who won the final?" 0 initial_world) = apology
  /\ fst (query env_transient "Who won the final?" 0 initial_world)
     <> insufficient_information.
Proof.
  split; [reflexivity|]. split; [vm_compute; reflexivity|].
  split; [vm_compute; discriminate|]. split; [reflexivity|].
  split; [reflexivity|]. vm_compute. discriminate.
Qed.

(** C8, amended.  [query] returns a string in every case and never raises.
    When retrieval returns no documents -- in particular on a collection
    that was never populated, asked for at least one document -- the string
    is the fixed insufficient-information message, which names the
    categories.  The exceptions that reach the outer handler are those of
    retrieval: when the embedding model or the index raises, as the index
    does when asked for no document, the string is the fixed apology and
    the state is unchanged.  An exception of the provider call never
    reaches that handler: it is answered with the deterministic fallback
    built from the retrieved documents. *)
Theorem query_never_raises env user_message top_k w :
  (retrieve env user_message top_k w = Returns [] ->
   query env user_message top_k w = (insufficient_information, w))
  /\ (0 < top_k -> encode_fault env = None -> query_fault env = None ->
      collection w = [] ->
      query env user_message top_k w = (insufficient_information, w))
  /\ (forall e, fst (query_body env user_message top_k w) = Raises e ->
                retrieve env user_message top_k w = Raises e
                /\ query env user_message top_k w = (apology, w))
  /\ (forall e, encode_fault env = Some e
                \/ (encode_fault env = None /\ query_fault env = Some e) ->
                query env user_message top_k w = (apology, w))
  /\ (top_k = 0 -> query env user_message top_k w = (apology, w))
  /\ (forall docs error_str,
         retrieve env user_message top_k w = Returns docs -> docs <> [] ->
         openai_client env = true ->
         chat_completions_create env (length (provider_log w))
           (query_request (context_of docs) user_message) = Failure error_str ->
         query env user_message top_k w
         = (_generate_fallback_response docs user_message,
            log_request (query_request (context_of docs) user_message) w))
  /\ Forall (fun category => Py.contains category insufficient_information = true)
            ["sports"; "lifestyle"; "music"; "finance"].
Proof.
  split; [apply query_empty|]. split.
  { intros Hk He Hq Hc. now apply query_empty, retrieve_empty_index. }
  split.
  { intros e Hb. apply query_body_raises in Hb. split; [exact Hb|].
    now apply (query_apology _ _ _ _ e). }
  split.
  { intros e Hf. apply (query_apology _ _ _ _ e). now apply retrieve_raises. }
  split.
  { intros ->. destruct (retrieve_zero env user_message w) as (e & He).
    now apply (query_apology _ _ _ _ e). }
  split; [intros docs error_str; apply query_provider_failure|].
  repeat constructor.
Qed.

Lemma query_never_raises_witness :
  (0 < 3
   /\ encode_fault env_rate_limited_once = None
   /\ query_fault env_rate_limited_once = None
   /\ collection initial_world = []
   /\ query env_rate_limited_once "Who won the final?" 3 initial_world
      = (insufficient_information, initial_world))
  /\ ((encode_fault env_query_fails = Some "index unavailable"
       \/ (encode_fault env_query_fails = None
           /\ query_fault env_query_fails = Some "index unavailable"))
      /\ query env_query_fails "Who won the final?" 3 initial_world
         = (apology, initial_world))
  /\ query env_transient "Who won the final?" 0 initial_world
     = (apology, initial_world)
  /\ (retrieve env_transient "Who won the final?" 3
        (snd (index_highlights env_transient [highlight_final] initial_world))
      = Returns [doc_text_of highlight_final]
      /\ openai_client env_transient = true
      /\ chat_completions_create env_transient
           (length (provider_log
                      (snd (index_highlights env_transient [highlight_final]
                                             initial_world))))
           (query_request (context_of [doc_text_of highlight_final])
                          "Who won the final?")
         = Failure "Connection reset by peer"
      /\ query env_transient "Who won the final?" 3
           (snd (index_highlights env_transient [highlight_final] initial_world))
         = (_generate_fallback_response [doc_text_of highlight_final]
                                        "Who won the final?",
            log_request
              (query_request (context_of [doc_text_of highlight_final])
                             "Who won the final?")
              (snd (index_highlights env_transient [highlight_final]
                                     initial_world)))).
Proof.
  split.
  { split; [lia|]. split; [reflexivity|]. split; [reflexivity|].
    split; [reflexivity|].
    apply (query_never_raises env_rate_limited_once "Who won the final?" 3
             initial_world); [lia|reflexivity|reflexivity|reflexivity]. }
  split.
  { split; [right; split; reflexivity|].
    apply (query_never_raises env_query_fails "Who won the final?" 3
             initial_world) with (e := "index unavailable").
    right. split; reflexivity. }
  split.
  { now apply (query_never_raises env_transient "Who won the final?" 0
                 initial_world). }
  split; [vm_compute; reflexivity|]. split; [reflexivity|].
  split; [reflexivity|].
  apply (query_never_raises env_transient "Who won the final?" 3
           (snd (index_highlights env_transient [highlight_final]
                                  initial_world)))
    with (error_str := "Connection reset by peer");
    [vm_compute; reflexivity|discriminate|reflexivity|reflexivity].
Defined.

Example query_answers_from_fallback :
  let w := snd (index_highlights env_topics [highlight_final; highlight_budget]
                                 initial_world) in
  fst (query env_topics "What about the budget?" 3 w)
  = response_prefix
    +:+ "            Title: Budget update" +:+ Py.NL
    +:+ "            Summary: The treasurer presented the budget." +:+ Py.NL
    +:+ "...".
Proof. reflexivity. Qed.

(** ** Indexing *)

Lemma imap_entry_ids env highlights :
  map entry_id (imap (index_entry env) highlights)
  = map highlight_id (seq 0 (length highlights)).
Proof.
  assert (Hgen : forall k,
             map entry_id (imap (fun i => index_entry env (k + i)) highlights)
             = map highlight_id (seq k (length highlights))).
  { induction highlights as [|h highlights IH]; intros k; [reflexivity|].
    simpl. rewrite Nat.add_0_r. f_equal.
    rewrite <- (IH (S k)). f_equal. apply imap_ext. intros i x _. simpl.
    f_equal. lia. }
  apply (Hgen 0).
Qed.

Lemma highlight_id_Injective : Finite.Injective highlight_id.
Proof. intros i j. apply highlight_id_inj. Qed.

Lemma index_entry_ids_NoDup env highlights :
  List.NoDup (map entry_id (imap (index_entry env) highlights)).
Proof.
  rewrite imap_entry_ids. apply Finite.Injective_map_NoDup;
    [apply highlight_id_Injective|apply List.seq_NoDup].
Qed.

Lemma stored_In c e :
  VectorIndex.stored c e = true <-> In (entry_id e) (map entry_id c).
Proof.
  unfold VectorIndex.stored. rewrite existsb_exists, in_map_iff.
  split; intros (e' & H1 & H2); exists e'.
  - apply String.eqb_eq in H2. auto.
  - split; [exact H2|]. now apply String.eqb_eq.
Qed.

Lemma distinct_ids_NoDup l :
  VectorIndex.distinct_ids l = true <-> List.NoDup (map entry_id l).
Proof.
  induction l as [|e l IH]; simpl.
  - split; [constructor|reflexivity].
  - rewrite andb_true_iff, negb_true_iff, IH, <- not_true_iff_false, stored_In.
    split.
    + intros [Hn Hd]. now constructor.
    + intros Hd. inversion Hd; subst. auto.
Qed.

(** What [index_highlights] comes to: the clear is rejected and only
    logged, and the entries whose ids are not yet stored are appended. *)
Lemma index_highlights_spec env highlights w :
  index_highlights env highlights w
  = match highlights with
    | [] => (Returns tt, w)
    | _ =>
        match encode_fault env with
        | Some e => (Raises e, w)
        | None =>
            match add_fault env with
            | Some e => (Raises e, w)
            | None =>
                (Returns tt,
                 set_collection
                   (collection w
                    ++ List.filter
                         (fun e => negb (VectorIndex.stored (collection w) e))
                         (imap (index_entry env) highlights)) w)
            end
        end
    end.
Proof.
  unfold index_highlights, VectorIndex.delete_where_empty, VectorIndex.add.
  destruct highlights as [|h hs]; [reflexivity|].
  destruct (encode_fault env); [reflexivity|].
  destruct (add_fault env); [reflexivity|].
  rewrite (proj2 (distinct_ids_NoDup _) (index_entry_ids_NoDup env (h :: hs))).
  reflexivity.
Qed.

Lemma index_highlights_returns env highlights w :
  encode_fault env = None -> add_fault env = None ->
  exists w', index_highlights env highlights w = (Returns tt, w').
Proof.
  intros He Ha. rewrite index_highlights_spec.
  destruct highlights; [eauto|]. rewrite He, Ha. eauto.
Qed.

(** C9.  The code does not rebuild the index.  The clear is the call
    [collection.delete(where={})], which the store rejects, and the failure
    is only logged; the store then skips every new entry whose id it
    already holds.  So whatever was stored stays where it was, and only
    entries with ids not seen before are appended.  After a run with two
    highlights, a run with one highlight returns and leaves the collection
    as it was: [highlight_0] still holds the document of the earlier run,
    and [highlight_1] lingers. *)
Theorem index_highlights_keeps_stale_entries env highlights w :
  (exists added,
      collection (snd (index_highlights env highlights w))
      = collection w ++ added
      /\ Forall (fun e => In e (imap (index_entry env) highlights)
                          /\ ~ In (entry_id e) (map entry_id (collection w)))
                added)
  /\ index_highlights env_offline [highlight_budget]
       (snd (index_highlights env_offline [highlight_final; highlight_budget]
                              initial_world))
     = (Returns tt,
        snd (index_highlights env_offline [highlight_final; highlight_budget]
                              initial_world))
  /\ map (fun e => (entry_id e, entry_document e))
         (collection
            (snd (index_highlights env_offline [highlight_final; highlight_budget]
                                   initial_world)))
     = [("highlight_0", doc_text_of highlight_final);
        ("highlight_1", doc_text_of highlight_budget)].
Proof.
  split; [|split; vm_compute; reflexivity].
  rewrite index_highlights_spec.
  assert (Hnone : exists added : list Entry,
             collection w = collection w ++ added
             /\ Forall (fun e => In e (imap (index_entry env) highlights)
                                 /\ ~ In (entry_id e)
                                         (map entry_id (collection w))) added).
  { exists []. rewrite app_nil_r. split; [reflexivity|constructor]. }
  destruct highlights as [|h hs]; [exact Hnone|].
  destruct (encode_fault env); [exact Hnone|].
  destruct (add_fault env); [exact Hnone|].
  eexists. split; [reflexivity|].
  apply List.Forall_forall. intros e He. apply filter_In in He as [Hin Hs].
  split; [exact Hin|]. apply negb_true_iff in Hs.
  rewrite <- stored_In. congruence.
Qed.

(** ** The gate, the synthesis and the chatbot *)









(** * Further properties of the code *)

(** ** Strings *)

Lemma string_length_append (s1 s2 : string) :
  String.length (s1 +:+ s2) = String.length s1 + String.length s2.
Proof. induction s1 as [|c s1 IH]; simpl; [reflexivity|now rewrite IH]. Qed.

Lemma take_length n s : String.length (Py.take n s) = Nat.min n (String.length s).
Proof.
  revert s. induction n as [|n IH]; intros [|c s]; simpl; try reflexivity.
  now rewrite IH.
Qed.

Lemma take_all n s : String.length s <= n -> Py.take n s = s.
Proof.
  revert s. induction n as [|n IH]; intros [|c s]; simpl; try reflexivity;
    intros H; [lia|]. rewrite IH; [reflexivity|lia].
Qed.

Example categorize_article_example :
  categorize_article article_sport = "sports"
  /\ categorize_article article_budget = "lifestyle"
  /\ categorize_article article_final = "sports".
Proof. repeat split; reflexivity. Qed.

(** ** Categorization *)

Lemma Qlt_bool_iff (x y : Q) : Qlt_bool x y = true <-> (x < y)%Q.
Proof.
  unfold Qlt_bool. rewrite negb_true_iff, <- not_true_iff_false, Qle_bool_iff.
  split; [apply Qnot_le_lt|apply Qlt_not_le].
Qed.

Lemma py_max_In {A} (key : A -> Q) best items :
  In (py_max key best items) (best :: items).
Proof.
  revert best. induction items as [|item items IH]; intros best; [now left|].
  simpl py_max. specialize (IH (if Qlt_bool (key best) (key item) then item else best)).
  destruct IH as [IH|IH]; [|right; now right].
  rewrite <- IH. destruct (Qlt_bool (key best) (key item)); [right|]; now left.
Qed.

Lemma py_max_ge_best {A} (key : A -> Q) best items :
  (key best <= key (py_max key best items))%Q.
Proof.
  revert best. induction items as [|item items IH]; intros best;
    [apply Qle_refl|].
  simpl py_max. destruct (Qlt_bool (key best) (key item)) eqn:Hlt; [|apply IH].
  apply Qle_trans with (key item); [|apply IH].
  apply Qlt_le_weak. now apply Qlt_bool_iff.
Qed.

Lemma py_max_max {A} (key : A -> Q) best items x :
  In x (best :: items) -> (key x <= key (py_max key best items))%Q.
Proof.
  revert best. induction items as [|item items IH]; intros best Hin.
  - destruct Hin as [<-|[]]. apply Qle_refl.
  - simpl py_max. destruct Hin as [<-|[<-|Hin]].
    + destruct (Qlt_bool (key best) (key item)) eqn:Hlt;
        [|apply py_max_ge_best].
      apply Qle_trans with (key item); [|apply py_max_ge_best].
      apply Qlt_le_weak. now apply Qlt_bool_iff.
    + destruct (Qlt_bool (key best) (key item)) eqn:Hlt;
        [apply py_max_ge_best|].
      apply Qle_trans with (key best); [|apply py_max_ge_best].
      apply Qnot_lt_le. intros H. apply Qlt_bool_iff in H. congruence.
    + apply IH. now right.
Qed.

Lemma keyword_hits_le text keywords :
  keyword_hits text keywords <= length keywords.
Proof. apply List.filter_length_le. Qed.

Lemma keyword_hits_pos text keywords :
  0 < keyword_hits text keywords
  <-> exists keyword, In keyword keywords /\ Py.contains keyword text = true.
Proof.
  unfold keyword_hits. split.
  - destruct (List.filter _ keywords) as [|k l] eqn:Hf; simpl; [lia|].
    intros _. exists k.
    assert (Hk : In k (List.filter (fun keyword => Py.contains keyword text)
                                   keywords)) by (rewrite Hf; now left).
    now apply filter_In in Hk.
  - intros (k & Hk). apply (proj2 (filter_In (fun keyword => Py.contains keyword text) k keywords))
      in Hk.
    destruct (List.filter _ keywords); [destruct Hk|simpl; lia].
Qed.

Lemma inject_nat_pos n : 0 < n -> (0 < inject_Z (Z.of_nat n))%Q.
Proof. intros H. rewrite <- (Zlt_Qlt 0). lia. Qed.

Lemma _score_category_bounds text keywords :
  (0 <= _score_category text keywords <= 1)%Q.
Proof.
  unfold _score_category. destruct keywords as [|k ks] eqn:Hk;
    [split; discriminate|].
  rewrite <- Hk.
  assert (Hn : 0 < length keywords) by (subst; simpl; lia).
  pose proof (keyword_hits_le text keywords) as Hle.
  pose proof (inject_nat_pos _ Hn) as Hpos.
  split.
  - apply Qle_shift_div_l; [exact Hpos|]. rewrite Qmult_0_l.
    rewrite <- (Zle_Qle 0). lia.
  - apply Qle_shift_div_r; [exact Hpos|]. rewrite Qmult_1_l.
    rewrite <- Zle_Qle. lia.
Qed.

Lemma _score_category_pos text keywords :
  (0 < _score_category text keywords)%Q
  <-> exists keyword, In keyword keywords /\ Py.contains keyword text = true.
Proof.
  rewrite <- keyword_hits_pos. unfold _score_category.
  destruct keywords as [|k ks] eqn:Hk.
  - split; [intros H; discriminate H|]. unfold keyword_hits. simpl. lia.
  - rewrite <- Hk.
    assert (Hn : 0 < length keywords) by (subst; simpl; lia).
    pose proof (inject_nat_pos _ Hn) as Hpos.
    split.
    + intros Hs. destruct (keyword_hits text keywords) eqn:Hh; [|lia].
      exfalso. apply (Qlt_irrefl 0).
      eapply Qlt_le_trans; [exact Hs|].
      unfold Qdiv. simpl inject_Z. rewrite Qmult_0_l. apply Qle_refl.
    + intros Hh. apply Qlt_shift_div_l; [exact Hpos|]. rewrite Qmult_0_l.
      rewrite <- (Zlt_Qlt 0). lia.
Qed.

Lemma category_scores_names text_lower :
  map fst (category_scores text_lower) = CATEGORIES.
Proof. reflexivity. Qed.

Lemma score_of_entry text_lower entry :
  In entry (category_scores text_lower) ->
  score_of text_lower (fst entry) = snd entry.
Proof.
  intros [<-|[<-|[<-|[<-|[]]]]]; reflexivity.
Qed.

Lemma score_of_nonneg text_lower category :
  (0 <= score_of text_lower category)%Q.
Proof.
  unfold score_of.
  destruct (List.find _ (category_scores text_lower)) as [entry|] eqn:Hf;
    [|discriminate].
  apply find_some in Hf as [Hin _].
  destruct Hin as [<-|[<-|[<-|[<-|[]]]]]; apply _score_category_bounds.
Qed.

(** The best entry of [category_scores]. *)
Lemma best_entry text_lower :
  exists best,
    In best (category_scores text_lower)
    /\ best = py_max snd ("sports", _score_category text_lower SPORTS_KEYWORDS)
                     [("lifestyle", _score_category text_lower LIFESTYLE_KEYWORDS);
                      ("music", _score_category text_lower MUSIC_KEYWORDS);
                      ("finance", _score_category text_lower FINANCE_KEYWORDS)]
    /\ forall entry, In entry (category_scores text_lower) ->
                     (snd entry <= snd best)%Q.
Proof.
  eexists. split; [apply py_max_In|]. split; [reflexivity|].
  intros entry Hin. now apply py_max_max.
Qed.

Lemma categorize_article_In article :
  In (categorize_article article) CATEGORIES.
Proof.
  unfold categorize_article.
  set (tl := Py.lower (categorize_text article)).
  destruct (best_entry tl) as (best & Hin & Hbest & Hmax).
  cbn [category_scores]. rewrite <- Hbest.
  destruct (Qlt_bool 0 (snd best)); [|right; now left].
  rewrite <- (category_scores_names tl). now apply in_map.
Qed.

(** X1.  For an article with ASCII title and content, [categorize_article]
    returns one of the four configured categories, and "lifestyle" when the
    text contains no keyword of any category. *)
Theorem categorize_article_in_categories article :
  Py.isascii (Article.title article) = true ->
  Py.isascii (Article.content article) = true ->
  In (categorize_article article) CATEGORIES
  /\ ((forall keyword,
          In keyword (SPORTS_KEYWORDS ++ LIFESTYLE_KEYWORDS ++ MUSIC_KEYWORDS
                      ++ FINANCE_KEYWORDS) ->
          Py.contains keyword (Py.lower (categorize_text article)) = false) ->
      categorize_article article = "lifestyle").
Proof.
  intros _ _. unfold categorize_article.
  set (tl := Py.lower (categorize_text article)).
  destruct (best_entry tl) as (best & Hin & Hbest & Hmax).
  cbn [category_scores]. rewrite <- Hbest. split.
  - destruct (Qlt_bool 0 (snd best)); [|right; now left].
    rewrite <- (category_scores_names tl). now apply in_map.
  - intros Hnone. destruct (Qlt_bool 0 (snd best)) eqn:Hpos; [|reflexivity].
    exfalso. apply Qlt_bool_iff in Hpos.
    assert (Hkw : exists keywords,
               snd best = _score_category tl keywords
               /\ forall k, In k keywords ->
                            In k (SPORTS_KEYWORDS ++ LIFESTYLE_KEYWORDS
                                  ++ MUSIC_KEYWORDS ++ FINANCE_KEYWORDS)).
    { destruct Hin as [<-|[<-|[<-|[<-|[]]]]]; eexists; (split; [reflexivity|]);
        intros k Hk; rewrite !in_app_iff; auto. }
    destruct Hkw as (keywords & Hs & Hsub). rewrite Hs in Hpos.
    apply _score_category_pos in Hpos as (k & Hk & Hc).
    rewrite (Hnone k (Hsub k Hk)) in Hc. discriminate.
Qed.

Lemma categorize_article_in_categories_witness :
  Py.isascii (Article.title article_budget) = true
  /\ Py.isascii (Article.content article_budget) = true
  /\ (forall keyword,
         In keyword (SPORTS_KEYWORDS ++ LIFESTYLE_KEYWORDS ++ MUSIC_KEYWORDS
                     ++ FINANCE_KEYWORDS) ->
         Py.contains keyword (Py.lower (categorize_text article_budget)) = false)
  /\ categorize_article article_budget = "lifestyle".
Proof.
  assert (H : forall keyword,
             In keyword (SPORTS_KEYWORDS ++ LIFESTYLE_KEYWORDS ++ MUSIC_KEYWORDS
                         ++ FINANCE_KEYWORDS) ->
             Py.contains keyword (Py.lower (categorize_text article_budget))
             = false).
  { intros keyword Hin. simpl in Hin.
    repeat (destruct Hin as [<-|Hin]; [reflexivity|]). destruct Hin. }
  split; [reflexivity|]. split; [reflexivity|]. split; [exact H|].
  apply (categorize_article_in_categories article_budget eq_refl eq_refl).
  exact H.
Defined.

(** X2.  The category returned has the highest score: no category scores
    more than the one [categorize_article] returns. *)
Theorem categorize_article_best_score article category :
  let text_lower := Py.lower (categorize_text article) in
  (score_of text_lower category
   <= score_of text_lower (categorize_article article))%Q.
Proof.
  intros tl. unfold categorize_article. fold tl.
  destruct (best_entry tl) as (best & Hin & Hbest & Hmax).
  cbn [category_scores]. rewrite <- Hbest.
  assert (Hall : (score_of tl category <= snd best)%Q).
  { unfold score_of.
    destruct (List.find _ (category_scores tl)) as [entry|] eqn:Hf.
    - apply find_some in Hf as [He _]. now apply Hmax.
    - rewrite <- (score_of_entry tl best Hin). apply score_of_nonneg. }
  destruct (Qlt_bool 0 (snd best)) eqn:Hpos.
  - now rewrite (score_of_entry tl best Hin).
  - apply Qle_trans with (snd best); [exact Hall|].
    apply Qle_trans with 0%Q; [|apply score_of_nonneg].
    apply Qnot_lt_le. intros H. apply Qlt_bool_iff in H. congruence.
Qed.

(** X3.  An article with ASCII title and content is put into a category
    other than "lifestyle" only when its text -- the title and the first 500
    characters of the content, in lower case -- contains a keyword of that
    category. *)
Theorem categorize_article_needs_keyword article :
  Py.isascii (Article.title article) = true ->
  Py.isascii (Article.content article) = true ->
  categorize_article article <> "lifestyle" ->
  exists keywords keyword,
    In (categorize_article article, keywords)
       [("sports", SPORTS_KEYWORDS); ("music", MUSIC_KEYWORDS);
        ("finance", FINANCE_KEYWORDS)]
    /\ In keyword keywords
    /\ Py.contains keyword (Py.lower (categorize_text article)) = true.
Proof.
  intros _ _. unfold categorize_article.
  set (tl := Py.lower (categorize_text article)).
  destruct (best_entry tl) as (best & Hin & Hbest & _).
  cbn [category_scores]. rewrite <- Hbest.
  destruct (Qlt_bool 0 (snd best)) eqn:Hpos; [|congruence].
  apply Qlt_bool_iff in Hpos. intros Hne.
  destruct Hin as [<-|[<-|[<-|[<-|[]]]]]; cbn [fst snd] in *;
    try congruence;
    apply _score_category_pos in Hpos as (k & Hk & Hc);
    eexists; exists k; (split; [|split; [exact Hk|exact Hc]]);
    cbn [In]; auto.
Qed.

Lemma categorize_article_needs_keyword_witness :
  Py.isascii (Article.title article_sport) = true
  /\ Py.isascii (Article.content article_sport) = true
  /\ categorize_article article_sport <> "lifestyle"
  /\ exists keywords keyword,
      In (categorize_article article_sport, keywords)
         [("sports", SPORTS_KEYWORDS); ("music", MUSIC_KEYWORDS);
          ("finance", FINANCE_KEYWORDS)]
      /\ In keyword keywords
      /\ Py.contains keyword (Py.lower (categorize_text article_sport)) = true.
Proof.
  assert (H : categorize_article article_sport <> "lifestyle")
    by (vm_compute; discriminate).
  split; [reflexivity|]. split; [reflexivity|]. split; [exact H|].
  apply (categorize_article_needs_keyword article_sport eq_refl eq_refl H).
Defined.

Lemma py_max_split {A} (key : A -> Q) items :
  forall pre best mid,
    (forall y, In y pre -> (key y < key best)%Q) ->
    (forall y, In y mid -> (key y <= key best)%Q) ->
    exists pre' post',
      pre ++ best :: mid ++ items = pre' ++ py_max key best items :: post'
      /\ (forall y, In y pre' -> (key y < key (py_max key best items))%Q)
      /\ (forall y, In y post' -> (key y <= key (py_max key best items))%Q).
Proof.
  induction items as [|item items IH]; intros pre best mid Hpre Hmid.
  - exists pre, mid. rewrite app_nil_r. auto.
  - simpl py_max. destruct (Qlt_bool (key best) (key item)) eqn:Hlt.
    + apply Qlt_bool_iff in Hlt.
      destruct (IH (pre ++ best :: mid) item []) as (pre' & post' & Heq & H1 & H2).
      * intros y Hy. apply in_app_or in Hy as [Hy|[<-|Hy]].
        -- apply Qlt_trans with (key best); auto.
        -- exact Hlt.
        -- apply Qle_lt_trans with (key best); auto.
      * intros y [].
      * exists pre', post'. split; [|auto].
        rewrite <- Heq. simpl. now rewrite <- app_assoc.
    + destruct (IH pre best (mid ++ [item])) as (pre' & post' & Heq & H1 & H2).
      * exact Hpre.
      * intros y Hy. apply in_app_or in Hy as [Hy|[<-|[]]]; [auto|].
        apply Qnot_lt_le. intros H. apply Qlt_bool_iff in H. congruence.
      * exists pre', post'. split; [|auto].
        rewrite <- Heq. now rewrite <- app_assoc.
Qed.

(** X4.  Ties go to the category listed first: when the category returned
    has a positive score, every category that stands before it in the order
    sports, lifestyle, music, finance scores strictly less. *)
Theorem categorize_article_first_best article :
  let text_lower := Py.lower (categorize_text article) in
  (0 < score_of text_lower (categorize_article article))%Q ->
  exists before after,
    CATEGORIES = before ++ categorize_article article :: after
    /\ forall category,
        In category before ->
        (score_of text_lower category
         < score_of text_lower (categorize_article article))%Q.
Proof.
  intros tl. unfold categorize_article. fold tl.
  destruct (best_entry tl) as (best & Hin & Hbest & Hmax).
  cbn [category_scores]. rewrite <- Hbest.
  destruct (Qlt_bool 0 (snd best)) eqn:Hpos.
  - intros _.
    destruct (py_max_split snd
                [("lifestyle", _score_category tl LIFESTYLE_KEYWORDS);
                 ("music", _score_category tl MUSIC_KEYWORDS);
                 ("finance", _score_category tl FINANCE_KEYWORDS)]
                [] ("sports", _score_category tl SPORTS_KEYWORDS) [])
      as (pre & post & Heq & Hlt & _); [intros y []|intros y []|].
    rewrite <- Hbest in Heq, Hlt. simpl app in Heq.
    change (category_scores tl = pre ++ best :: post) in Heq.
    exists (map fst pre), (map fst post). split.
    + rewrite <- (category_scores_names tl), Heq, map_app. reflexivity.
    + intros category Hc. apply in_map_iff in Hc as (entry & <- & He).
      assert (He' : In entry (category_scores tl)).
      { rewrite Heq. apply in_or_app. now left. }
      rewrite (score_of_entry tl entry He'), (score_of_entry tl best Hin).
      now apply Hlt.
  - intros Hs. exfalso.
    assert (Hle : (score_of tl "lifestyle" <= snd best)%Q).
    { apply (Hmax ("lifestyle", _score_category tl LIFESTYLE_KEYWORDS)).
      right. now left. }
    apply (Qlt_irrefl 0). eapply Qlt_le_trans; [exact Hs|].
    eapply Qle_trans; [exact Hle|].
    apply Qnot_lt_le. intros H. apply Qlt_bool_iff in H. congruence.
Qed.

Lemma categorize_article_first_best_witness :
  (0 < score_of (Py.lower (categorize_text article_sport))
                (categorize_article article_sport))%Q
  /\ exists before after,
      CATEGORIES = before ++ categorize_article article_sport :: after
      /\ forall category,
          In category before ->
          (score_of (Py.lower (categorize_text article_sport)) category
           < score_of (Py.lower (categorize_text article_sport))
                      (categorize_article article_sport))%Q.
Proof.
  assert (H : (0 < score_of (Py.lower (categorize_text article_sport))
                            (categorize_article article_sport))%Q)
    by reflexivity.
  split; [exact H|].
  apply (categorize_article_first_best article_sport H).
Defined.

(** ** Extractive summaries *)

(** X5.  The extractive summary of an ASCII content never exceeds 303
    characters: 300 of text and the ellipsis. *)
Theorem _extractive_summary_length article :
  Py.isascii (Article.content article) = true ->
  String.length (_extractive_summary article) <= 303.
Proof.
  intros _. unfold _extractive_summary.
  match goal with
  | |- context [if 300 <? String.length ?s then _ else _] => set (summary := s)
  end.
  destruct (Nat.ltb_spec 300 (String.length summary)) as [Hlong|Hshort].
  - rewrite string_length_append, take_length.
    change (String.length "...") with 3. lia.
  - lia.
Qed.

Lemma _extractive_summary_length_witness :
  Py.isascii (Article.content article_final) = true
  /\ String.length (_extractive_summary article_final) <= 303.
Proof.
  split; [reflexivity|].
  apply (_extractive_summary_length article_final eq_refl).
Defined.

(** X6.  When no sentence of an ASCII content is longer than 20 characters,
    the summary is the content itself if it has at most 200 characters, and
    otherwise its first 200 characters followed by an ellipsis. *)
Theorem _extractive_summary_no_sentence article :
  Py.isascii (Article.content article) = true ->
  Forall (fun s => String.length (Py.strip s) <= 20)
         (Py.split "." (Article.content article)) ->
  _extractive_summary article
  = if 200 <? String.length (Article.content article)
    then Py.take 200 (Article.content article) +:+ "..."
    else Article.content article.
Proof.
  intros _ Hall. unfold _extractive_summary.
  assert (Hnone : List.filter (fun s => 20 <? String.length s)
                    (map Py.strip (Py.split "." (Article.content article))) = []).
  { induction Hall as [|s l Hs Hl IH]; [reflexivity|]. simpl.
    destruct (Nat.ltb_spec 20 (String.length (Py.strip s))); [lia|exact IH]. }
  rewrite Hnone. simpl length. cbn [Nat.leb].
  destruct (Nat.ltb_spec 200 (String.length (Article.content article)))
    as [Hlong|Hshort].
  - destruct (Nat.ltb_spec 300
                (String.length (Py.take 200 (Article.content article) +:+ "...")))
      as [H|H]; [|reflexivity].
    rewrite string_length_append, take_length in H.
    change (String.length "...") with 3 in H. lia.
  - rewrite (take_all 200) by exact Hshort.
    destruct (Nat.ltb_spec 300 (String.length (Article.content article)));
      [lia|reflexivity].
Qed.

Lemma _extractive_summary_no_sentence_witness :
  Py.isascii (Article.content article_short) = true
  /\ Forall (fun s => String.length (Py.strip s) <= 20)
            (Py.split "." (Article.content article_short))
  /\ _extractive_summary article_short = "Rain today. More soon.".
Proof.
  assert (H : Forall (fun s => String.length (Py.strip s) <= 20)
                     (Py.split "." (Article.content article_short))).
  { repeat constructor; simpl; lia. }
  split; [reflexivity|]. split; [exact H|].
  apply (_extractive_summary_no_sentence article_short eq_refl H).
Defined.

Lemma string_append_nonempty_r (s1 s2 : string) : s2 <> "" -> s1 +:+ s2 <> "".
Proof.
  intros H Heq. apply (f_equal String.length) in Heq.
  rewrite string_length_append in Heq. destruct s2; [congruence|].
  simpl in Heq. lia.
Qed.

Lemma string_nonempty_length (s : string) : s <> "" <-> 0 < String.length s.
Proof. destruct s; simpl; split; intros; try congruence; lia. Qed.

(** X7.  The extractive summary of an ASCII content is empty exactly when
    the content is empty; a record with text always gets a summary that
    [generate_highlights] accepts as present. *)
Theorem _extractive_summary_empty article :
  Py.isascii (Article.content article) = true ->
  (_extractive_summary article = "" <-> Article.content article = "").
Proof.
  intros _. split.
  - unfold _extractive_summary.
    set (sentences := List.filter (fun s => 20 <? String.length s)
                        (map Py.strip (Py.split "." (Article.content article)))).
    match goal with
    | |- (if 300 <? String.length ?s then _ else _) = _ -> _ => set (summary := s)
    end.
    intros Hempty.
    assert (Hsum : summary = "").
    { destruct (300 <? String.length summary); [|exact Hempty].
      exfalso. revert Hempty. now apply string_append_nonempty_r. }
    unfold summary in Hsum. clear Hempty summary.
    destruct (3 <=? length sentences);
      [exfalso; revert Hsum; now apply string_append_nonempty_r|].
    destruct (2 <=? length sentences);
      [exfalso; revert Hsum; now apply string_append_nonempty_r|].
    destruct sentences as [|s l];
      [|exfalso; revert Hsum; now apply string_append_nonempty_r].
    destruct (200 <? String.length (Article.content article));
      [exfalso; revert Hsum; now apply string_append_nonempty_r|].
    destruct (Article.content article); [reflexivity|discriminate].
  - intros Hc. unfold _extractive_summary. now rewrite Hc.
Qed.

Lemma _extractive_summary_empty_witness :
  Py.isascii (Article.content article_short) = true
  /\ (_extractive_summary article_short = ""
      <-> Article.content article_short = "").
Proof.
  split; [reflexivity|].
  apply (_extractive_summary_empty article_short eq_refl).
Defined.

(** ** Summarization requests *)



Example summarize_article_after_transient :
  let w1 := snd (summarize_article env_transient article_final initial_world) in
  fst (summarize_article env_transient article_championship w1)
  = "A summary from the provider.".
Proof. reflexivity. Qed.

(** X9.  One call of [summarize_article] sends at most one request and
    sends none when there is no client or the flag is set; it leaves the
    collection alone and never clears the flag. *)
Theorem summarize_article_effects env article w :
  (exists requests,
      provider_log (snd (summarize_article env article w))
      = provider_log w ++ requests /\ length requests <= 1)
  /\ collection (snd (summarize_article env article w)) = collection w
  /\ (openai_client env = false \/ _openai_quota_exceeded w = true ->
      snd (summarize_article env article w) = w)
  /\ (_openai_quota_exceeded w = true ->
      _openai_quota_exceeded (snd (summarize_article env article w)) = true).
Proof.
  unfold summarize_article, call_provider.
  destruct (openai_client env) eqn:Hc; simpl.
  2:{ repeat split; auto. exists []. rewrite app_nil_r. auto. }
  destruct (_openai_quota_exceeded w) eqn:Hq; simpl.
  { repeat split; auto. exists []. rewrite app_nil_r. auto. }
  destruct (chat_completions_create env _ _) as [text|error_str]; simpl.
  - repeat split; try (intros [?|?]; congruence); try congruence.
    eexists. split; [reflexivity|simpl; lia].
  - destruct (is_quota_error error_str); simpl; rewrite ?Hq; simpl;
      (repeat split; try (intros [?|?]; congruence); try congruence;
       eexists; split; [reflexivity|simpl; lia]).
Qed.

Lemma summarize_article_effects_witness :
  (openai_client env_topics = false
   \/ _openai_quota_exceeded initial_world = true)
  /\ snd (summarize_article env_topics article_final initial_world)
     = initial_world.
Proof.
  split; [left; reflexivity|].
  apply (summarize_article_effects env_topics article_final initial_world).
  left. reflexivity.
Defined.

(** ** Substrings *)

Lemma prefix_spec (p s : string) :
  String.prefix p s = true <-> exists q, s = p +:+ q.
Proof.
  revert p. induction s as [|b s IH]; intros [|a p]; simpl.
  - split; [intros _; now exists ""|reflexivity].
  - split; [discriminate|]. intros (q & Hq).
    rewrite string_append_cons in Hq. discriminate.
  - split; [intros _; now exists (String b s)|reflexivity].
  - destruct (ascii_dec a b) as [->|Hne].
    + rewrite IH. split; intros (q & Hq); exists q;
        rewrite ?string_append_cons in *; congruence.
    + split; [discriminate|]. intros (q & Hq).
      rewrite string_append_cons in Hq. congruence.
Qed.

Lemma contains_spec (needle hay : string) :
  Py.contains needle hay = true <-> exists p q, hay = p +:+ needle +:+ q.
Proof.
  induction hay as [|c hay IH].
  - cbn [Py.contains]. rewrite orb_false_r, prefix_spec. split.
    + intros (q & Hq). exists "", q. exact Hq.
    + intros (p & q & Hq). destruct p; [now exists q|discriminate].
  - cbn [Py.contains]. rewrite orb_true_iff, prefix_spec, IH. split.
    + intros [(q & Hq)|(p & q & Hq)].
      * exists "", q. exact Hq.
      * exists (String c p), q. rewrite string_append_cons. now rewrite Hq.
    + intros (p & q & Hq). destruct p as [|c' p].
      * left. now exists q.
      * right. exists p, q. rewrite string_append_cons in Hq. congruence.
Qed.

Lemma contains_trans (a b s : string) :
  Py.contains a b = true -> Py.contains b s = true -> Py.contains a s = true.
Proof.
  rewrite !contains_spec. intros (p1 & q1 & ->) (p2 & q2 & ->).
  exists (p2 +:+ p1), (q1 +:+ q2). now rewrite !string_append_assoc.
Qed.

(** X10.  The third test of the quota signature adds nothing: a message is
    taken for a quota or rate-limit error exactly when it contains "429" or,
    in any mix of cases, "quota". *)
Theorem is_quota_error_two_tests error_str :
  is_quota_error error_str
  = Py.contains "429" error_str || Py.contains "quota" (Py.lower error_str).
Proof.
  unfold is_quota_error.
  destruct (Py.contains "429" error_str); [reflexivity|]. simpl.
  destruct (Py.contains "quota" (Py.lower error_str)) eqn:Hq; [reflexivity|].
  simpl. apply not_true_iff_false. intros Hi.
  assert (Py.contains "quota" (Py.lower error_str) = true); [|congruence].
  eapply contains_trans; [|exact Hi]. reflexivity.
Qed.

Example is_quota_error_examples :
  is_quota_error "Error code: 429" = true
  /\ is_quota_error "You exceeded your current QUOTA" = true
  /\ is_quota_error "Connection reset by peer" = false.
Proof. repeat split; reflexivity. Qed.

(** ** Duplicate detection: what is left alone *)

Lemma detect_duplicates_lookup env articles :
  exists labels,
    forall i, detect_duplicates env articles !! i
              = role_mark labels i <$> articles !! i.
Proof.
  destruct (detect_duplicates_cases env articles)
    as [(Heq & _)|(_ & labels & _ & _ & Hlook)].
  - exists []. intros i. rewrite Heq. unfold role_mark.
    rewrite lookup_nil. now rewrite option_fmap_id.
  - now exists labels.
Qed.

Lemma erase_marks_role_mark labels i a :
  erase_marks (role_mark labels i a) = erase_marks a.
Proof.
  destruct (role_mark_cases labels i) as [->|(l & [->| ->])]; reflexivity.
Qed.

(** X11.  [detect_duplicates] returns the records in the order given, none
    added and none dropped, and changes nothing in a record but the two
    marks; a record that came in marked as a duplicate stays marked. *)
Theorem detect_duplicates_only_marks env articles :
  map erase_marks (detect_duplicates env articles) = map erase_marks articles
  /\ forall i a a',
      articles !! i = Some a -> detect_duplicates env articles !! i = Some a' ->
      Article.is_duplicate a = true -> Article.is_duplicate a' = true.
Proof.
  destruct (detect_duplicates_lookup env articles) as (labels & Hlook).
  split.
  - apply list_eq. intros i.
    change (map erase_marks) with (fmap (M := list) erase_marks).
    rewrite !list_lookup_fmap, Hlook.
    destruct (articles !! i) as [a|]; [|reflexivity]. simpl.
    now rewrite erase_marks_role_mark.
  - intros i a a' Ha Ha' Hdup. rewrite Hlook, Ha in Ha'. injection Ha' as <-.
    destruct (role_mark_cases labels i) as [->|(l & [->| ->])];
      [exact Hdup|exact Hdup|reflexivity].
Qed.

Lemma role_mark_member labels l i j :
  l <> (-1)%Z -> labels !! i = Some l -> labels !! j = Some l -> i <> j ->
  role_mark labels i = mark_primary l \/ role_mark labels i = mark_duplicate l.
Proof.
  intros Hl Hi Hj Hne.
  destruct (indices_of l labels) as [|p dups] eqn:Hidx.
  { apply indices_of_In in Hi. now rewrite Hidx in Hi. }
  destruct (indices_of_head _ _ _ _ Hidx) as (Hp & _ & _ & Hmin).
  destruct (Nat.eq_dec p i) as [->|Hpi].
  - left. apply (role_mark_primary labels l i j); auto.
    intros k Hk Hkl. specialize (Hmin k Hkl). lia.
  - right. apply (role_mark_duplicate labels l p i); auto.
    specialize (Hmin i Hi). lia.
Qed.

(** X12.  Without faults and with a symmetric similarity, two records of
    the list with cosine similarity at least the threshold end up with the
    same non-null group id, and the later one is marked as a duplicate. *)
Theorem detect_duplicates_similar_pair env articles i j ai aj :
  encode_fault env = None -> fit_predict_fault env = None ->
  (forall a b, (cosine_similarity env a b == cosine_similarity env b a)%Q) ->
  i < j -> articles !! i = Some ai -> articles !! j = Some aj ->
  (SIMILARITY_THRESHOLD
   <= cosine_similarity env (encode env (embedding_text ai))
                        (encode env (embedding_text aj)))%Q ->
  exists l oi oj,
    detect_duplicates env articles !! i = Some oi
    /\ detect_duplicates env articles !! j = Some oj
    /\ Article.duplicate_group_id oi = Some (group_name l)
    /\ Article.duplicate_group_id oj = Some (group_name l)
    /\ Article.is_duplicate oj = true.
Proof.
  intros He Hf Hsym Hij Hi Hj Hs.
  assert (Hsim : similar env ai aj = true) by now apply near_of_similarity.
  destruct (cluster_labels_returns env articles He Hf) as (labels & Hc).
  destruct (cluster_labels_linked env articles labels Hsym Hc i j ai aj)
    as (l & Hl & Hli & Hlj); auto; [lia|].
  destruct (detect_duplicates_cases env articles)
    as [(_ & [Hlt|(e & Hr)])|(_ & labels' & Hc' & _ & Hlook)].
  - apply lookup_lt_Some in Hi, Hj. lia.
  - congruence.
  - assert (labels' = labels) by congruence. subst labels'.
    exists l, (role_mark labels i ai), (role_mark labels j aj).
    rewrite !Hlook, Hi, Hj.
    rewrite (role_mark_duplicate labels l i j Hl Hli Hlj Hij).
    repeat split.
    destruct (role_mark_member labels l i j Hl Hli Hlj) as [-> | ->];
      [lia|reflexivity|reflexivity].
Qed.

Lemma detect_duplicates_similar_pair_witness :
  encode_fault env_topics = None /\ fit_predict_fault env_topics = None
  /\ (forall a b, (cosine_similarity env_topics a b
                   == cosine_similarity env_topics b a)%Q)
  /\ 0 < 2
  /\ (SIMILARITY_THRESHOLD
      <= cosine_similarity env_topics
           (encode env_topics (embedding_text article_final))
           (encode env_topics (embedding_text article_championship)))%Q
  /\ exists l oi oj,
      detect_duplicates env_topics
        [article_final; article_budget; article_championship] !! 0 = Some oi
      /\ detect_duplicates env_topics
           [article_final; article_budget; article_championship] !! 2 = Some oj
      /\ Article.duplicate_group_id oi = Some (group_name l)
      /\ Article.duplicate_group_id oj = Some (group_name l)
      /\ Article.is_duplicate oj = true.
Proof.
  split; [reflexivity|]. split; [reflexivity|]. split; [exact dot_sym|].
  split; [lia|].
  assert (Hs : (SIMILARITY_THRESHOLD
                <= cosine_similarity env_topics
                     (encode env_topics (embedding_text article_final))
                     (encode env_topics (embedding_text article_championship)))%Q)
    by (vm_compute; discriminate).
  split; [exact Hs|].
  apply (detect_duplicates_similar_pair env_topics
           [article_final; article_budget; article_championship] 0 2
           article_final article_championship);
    [reflexivity|reflexivity|exact dot_sym|lia|reflexivity|reflexivity|exact Hs].
Defined.

Section Lonely.
Variables (is_core : list bool) (neighborhoods : list (list nat)).
Hypothesis adjacent_sym :
  forall u v, DBSCAN.adjacent neighborhoods u v -> DBSCAN.adjacent neighborhoods v u.
Hypothesis core_has_other :
  forall u, DBSCAN.is_core_at is_core u = true ->
            exists v, DBSCAN.adjacent neighborhoods u v /\ v <> u.

Lemma expand_lonely fuel label_num i stack labels labels' :
  label_num <> DBSCAN.noise ->
  ~ lonely neighborhoods i ->
  Forall (fun v => ~ lonely neighborhoods v) stack ->
  lonely_noise neighborhoods labels ->
  DBSCAN.expand is_core neighborhoods fuel label_num i stack labels = Some labels' ->
  lonely_noise neighborhoods labels'.
Proof.
  intros Hc. revert i stack labels.
  induction fuel as [|fuel IH]; intros i stack labels Hi Hstack Hl He;
    [discriminate|].
  simpl in He.
  set (labels1 := if DBSCAN.unlabelled labels i
                  then <[i := label_num]> labels else labels) in *.
  set (stack1 := if DBSCAN.unlabelled labels i && DBSCAN.is_core_at is_core i
                 then DBSCAN.push_unlabelled labels1
                        (DBSCAN.neighb_at neighborhoods i) stack
                 else stack) in *.
  assert (Hl1 : lonely_noise neighborhoods labels1).
  { unfold labels1. destruct (DBSCAN.unlabelled labels i); [|exact Hl].
    intros u x Hu Hx. destruct (decide (u = i)) as [->|Hne]; [contradiction|].
    rewrite list_lookup_insert_ne in Hx by congruence. eauto. }
  assert (Hstack1 : Forall (fun v => ~ lonely neighborhoods v) stack1).
  { unfold stack1.
    destruct (DBSCAN.unlabelled labels i) eqn:Hun; [|exact Hstack].
    destruct (DBSCAN.is_core_at is_core i); [|exact Hstack]. simpl.
    apply Forall_forall. intros v Hv.
    apply list_elem_of_In, DBSCANFacts.push_unlabelled_In in Hv
      as [Hv|[Hv Hunl]].
    - rewrite Forall_forall in Hstack. apply Hstack. now apply list_elem_of_In.
    - assert (Hvi : v <> i).
      { intros ->. apply DBSCANFacts.unlabelled_lookup in Hunl, Hun.
        unfold labels1 in Hunl.
        rewrite list_lookup_insert_eq in Hunl
          by (eapply lookup_lt_Some; eauto).
        congruence. }
      intros Hlone. apply Hvi. symmetry.
      apply (Hlone i). now apply adjacent_sym. }
  destruct stack1 as [|v rest]; [now injection He as <-|].
  inversion Hstack1; subst. eapply IH; eauto.
Qed.

Lemma sweep_lonely fuel todo label_num labels labels' :
  (0 <= label_num)%Z ->
  lonely_noise neighborhoods labels ->
  DBSCAN.sweep is_core neighborhoods fuel todo label_num labels = Some labels' ->
  lonely_noise neighborhoods labels'.
Proof.
  revert label_num labels.
  induction todo as [|i todo IH]; intros label_num labels Hc Hl Hs.
  - now injection Hs as <-.
  - cbn [DBSCAN.sweep] in Hs.
    destruct (negb (DBSCAN.unlabelled labels i)
              || negb (DBSCAN.is_core_at is_core i)) eqn:Hskip; [eauto|].
    apply orb_false_iff in Hskip as [_ Hcore]. apply negb_false_iff in Hcore.
    destruct (DBSCAN.expand is_core neighborhoods fuel label_num i [] labels)
      as [labels1|] eqn:He; [|discriminate].
    apply (IH (label_num + 1)%Z labels1); [lia| |exact Hs].
    eapply expand_lonely; eauto.
    + unfold DBSCAN.noise. lia.
    + intros Hlone. destruct (core_has_other i Hcore) as (v & Hv & Hne).
      apply Hne. now apply Hlone.
Qed.
End Lonely.

Lemma NoDup_other (l : list nat) (a : nat) :
  List.NoDup l -> 2 <= length l -> exists b, In b l /\ b <> a.
Proof.
  intros Hnd Hlen. destruct l as [|x [|y l]]; simpl in Hlen; try lia.
  inversion Hnd as [|? ? Hx _]; subst.
  destruct (Nat.eq_dec x a) as [->|Hne].
  - exists y. split; [right; now left|]. intros ->. apply Hx. now left.
  - exists x. split; [now left|exact Hne].
Qed.

Lemma fit_predict_lonely env embeddings labels :
  (forall a b, (cosine_similarity env a b == cosine_similarity env b a)%Q) ->
  DBSCAN.fit_predict (1 - SIMILARITY_THRESHOLD) 2 (distance_matrix env embeddings)
  = Some labels ->
  forall u eu,
    embeddings !! u = Some eu ->
    (forall v ev, v <> u -> embeddings !! v = Some ev -> near env eu ev = false) ->
    labels !! u = Some DBSCAN.noise.
Proof.
  intros Hsym Hfit u eu Hu Hfar.
  destruct (distance_matrix_square env embeddings) as (Hlen & Hsq).
  destruct (DBSCANFacts.fit_predict_total (1 - SIMILARITY_THRESHOLD) 2 _ Hsq)
    as (labels' & Hfit' & Hl).
  assert (labels' = labels) by congruence. subst labels'.
  destruct (lookup_lt_is_Some_2 labels u) as [x Hx].
  { rewrite Hl, Hlen. eapply lookup_lt_Some; eauto. }
  rewrite Hx. f_equal.
  unfold DBSCAN.fit_predict, DBSCAN.dbscan_inner in Hfit.
  set (nbhd := DBSCAN.radius_neighbors (1 - SIMILARITY_THRESHOLD)
                 (distance_matrix env embeddings)) in *.
  set (cores := DBSCAN.core_samples 2 nbhd) in *.
  assert (Hadj_sym : forall a b, DBSCAN.adjacent nbhd a b -> DBSCAN.adjacent nbhd b a).
  { intros a b Hab. apply adjacent_iff in Hab as (ea & eb & Ha & Hb & Hor).
    apply adjacent_iff. exists eb, ea. repeat split; auto.
    destruct Hor as [->|Hn]; [now left|right]. now rewrite near_sym. }
  assert (Hother : forall a, DBSCAN.is_core_at cores a = true ->
                             exists b, DBSCAN.adjacent nbhd a b /\ b <> a).
  { intros a Hcore. unfold cores, nbhd in Hcore.
    rewrite is_core_at_spec in Hcore. apply Nat.leb_le in Hcore.
    destruct (NoDup_other _ a (neighb_at_NoDup env embeddings a) Hcore)
      as (b & Hb & Hne).
    exists b. split; [exact Hb|exact Hne]. }
  assert (Hln : lonely_noise nbhd labels).
  { eapply (sweep_lonely cores nbhd Hadj_sym Hother); [| |exact Hfit]; [lia|].
    intros a y _ Hy. now apply lookup_replicate in Hy as [-> _]. }
  apply (Hln u x); [|exact Hx].
  intros v Hv. apply adjacent_iff in Hv as (eu' & ev & Hu' & Hv & [->|Hn]);
    [reflexivity|].
  destruct (Nat.eq_dec v u) as [->|Hne]; [reflexivity|].
  assert (eu' = eu) by congruence. subst eu'.
  rewrite (Hfar v ev Hne Hv) in Hn. discriminate.
Qed.

(** X13.  With a symmetric similarity, a record that is similar to no other
    record of the list comes back exactly as it went in. *)
Theorem detect_duplicates_leaves_dissimilar env articles i ai :
  (forall a b, (cosine_similarity env a b == cosine_similarity env b a)%Q) ->
  articles !! i = Some ai ->
  (forall j aj, j <> i -> articles !! j = Some aj -> similar env ai aj = false) ->
  detect_duplicates env articles !! i = Some ai.
Proof.
  intros Hsym Hi Hfar.
  destruct (detect_duplicates_cases env articles)
    as [(Heq & _)|(_ & labels & Hc & _ & Hlook)]; [now rewrite Heq|].
  rewrite Hlook, Hi. simpl. f_equal.
  assert (Hnoise : labels !! i = Some (-1)%Z).
  { unfold cluster_labels in Hc.
    destruct (encode_fault env); [discriminate|].
    destruct (fit_predict_fault env); [discriminate|].
    destruct (DBSCAN.fit_predict _ _ _) as [labels'|] eqn:Hfit; [|discriminate].
    injection Hc as ->.
    apply (fit_predict_lonely env _ labels Hsym Hfit i
             (encode env (embedding_text ai))).
    - now rewrite !list_lookup_fmap, Hi.
    - intros v ev Hne Hv. rewrite !list_lookup_fmap in Hv.
      destruct (articles !! v) as [av|] eqn:Hav; [|discriminate].
      injection Hv as <-. now apply (Hfar v av). }
  unfold role_mark. now rewrite Hnoise.
Qed.

Lemma detect_duplicates_leaves_dissimilar_witness :
  (forall a b, (cosine_similarity env_topics a b
                == cosine_similarity env_topics b a)%Q)
  /\ (forall j aj,
         j <> 1 ->
         [article_final; article_budget; article_championship] !! j = Some aj ->
         similar env_topics article_budget aj = false)
  /\ detect_duplicates env_topics
       [article_final; article_budget; article_championship] !! 1
     = Some article_budget.
Proof.
  assert (Hfar : forall j aj,
             j <> 1 ->
             [article_final; article_budget; article_championship] !! j = Some aj ->
             similar env_topics article_budget aj = false).
  { intros [|[|[|j]]] aj Hj Haj; try congruence;
      simpl in Haj; try discriminate; injection Haj as <-; reflexivity. }
  split; [exact dot_sym|]. split; [exact Hfar|].
  apply (detect_duplicates_leaves_dissimilar env_topics
           [article_final; article_budget; article_championship] 1
           article_budget dot_sym); [reflexivity|exact Hfar].
Defined.

(** ** Highlight synthesis: every filtered record is counted once *)

Lemma groups_append_concat {K V} (eqb : K -> K -> bool) (k : K) (v : V) groups :
  Permutation (concat (map snd (groups_append eqb k v groups)))
              (v :: concat (map snd groups)).
Proof.
  induction groups as [|[k' vs] groups IH]; simpl; [reflexivity|].
  destruct (eqb k' k); simpl.
  - rewrite <- app_assoc. simpl.
    symmetry. apply Permutation_middle.
  - rewrite IH. symmetry. apply Permutation_middle.
Qed.

Lemma article_groups_concat arts :
  Permutation (concat (map snd (article_groups_of arts))) arts.
Proof.
  induction arts as [|a arts IH] using rev_ind; [reflexivity|].
  rewrite article_groups_of_snoc, groups_append_concat, IH.
  apply Permutation_cons_append.
Qed.

Lemma Permutation_concat {A} (l l' : list (list A)) :
  Permutation l l' -> Permutation (concat l) (concat l').
Proof.
  induction 1 as [|x l l' _ IH|x y l|l l' l'' _ IH1 _ IH2]; simpl.
  - reflexivity.
  - now apply Permutation_app_head.
  - rewrite !app_assoc. apply Permutation_app_tail, Permutation_app_comm.
  - now transitivity (concat l').
Qed.

Lemma unsorted_highlights_urls env articles category w :
  map Highlight.urls (unsorted_highlights env articles category w)
  = map (fun g => map Article.url (snd g))
        (article_groups_of (category_articles_of articles category)).
Proof.
  pose proof (unsorted_highlights_built env articles category w) as Hall.
  induction Hall as [|h g hs gs Hb _ IH]; [reflexivity|].
  simpl. rewrite IH. f_equal. apply Hb.
Qed.

Lemma generate_highlights_urls env articles category w :
  Permutation
    (concat (map Highlight.urls
                 (fst (generate_highlights env articles category w))))
    (map Article.url (category_articles_of articles category)).
Proof.
  rewrite generate_highlights_sorted.
  transitivity (concat (map Highlight.urls
                            (unsorted_highlights env articles category w))).
  { apply Permutation_concat, Permutation_map, stable_sort_Permutation. }
  rewrite unsorted_highlights_urls.
  rewrite <- (map_map snd (map Article.url)), <- concat_map.
  apply Permutation_map, article_groups_concat.
Qed.

(** X14.  The highlights of a category account for every unmarked record of
    that category exactly once: their url lists, put together, are a
    rearrangement of the urls of those records; each highlight's frequency
    is the length of its url list, and its category is the one asked for. *)
Theorem generate_highlights_partition env articles category w :
  Permutation
    (concat (map Highlight.urls
                 (fst (generate_highlights env articles category w))))
    (map Article.url (category_articles_of articles category))
  /\ Forall (fun h => Highlight.frequency h
                      = Z.of_nat (length (Highlight.urls h))
                      /\ Highlight.category h = category)
            (fst (generate_highlights env articles category w)).
Proof.
  split; [apply generate_highlights_urls|].
  apply Forall_forall. intros h Hh. apply list_elem_of_In in Hh.
  destruct (generate_highlights_built _ _ _ _ _ Hh)
    as (gid & group & _ & _ & Hf & _ & _ & Hc & _ & Hu).
  rewrite Hf, Hu, length_map. auto.
Qed.

Lemma generate_highlights_nil env articles category w :
  fst (generate_highlights env articles category w) = []
  <-> category_articles_of articles category = [].
Proof.
  split.
  - intros Hempty.
    pose proof (generate_highlights_urls env articles category w) as Hperm.
    rewrite Hempty in Hperm. simpl in Hperm.
    apply Permutation_nil in Hperm.
    now destruct (category_articles_of articles category).
  - intros Hnone. unfold generate_highlights. now rewrite Hnone.
Qed.

(** X15.  [generate_highlights] returns no highlight exactly when no
    unmarked record has the category, whatever the provider does. *)
Theorem generate_highlights_empty env articles category w :
  fst (generate_highlights env articles category w) = []
  <-> ~ exists a, In a articles
                  /\ Article.category a = Some category
                  /\ Article.is_duplicate a = false.
Proof.
  rewrite generate_highlights_nil. unfold category_articles_of, in_category.
  split.
  - intros Hnone (a & Hin & Hc & Hd).
    assert (Ha : In a (List.filter
                         (fun a => match Article.category a with
                                   | Some c => String.eqb c category
                                   | None => false
                                   end && negb (Article.is_duplicate a))
                         articles)).
    { apply filter_In. split; [exact Hin|].
      rewrite Hc, Hd, String.eqb_refl. reflexivity. }
    rewrite Hnone in Ha. destruct Ha.
  - intros Hnone.
    destruct (List.filter _ articles) as [|a l] eqn:Hf; [reflexivity|].
    exfalso. apply Hnone. exists a.
    assert (Ha : In a (List.filter
                         (fun a => match Article.category a with
                                   | Some c => String.eqb c category
                                   | None => false
                                   end && negb (Article.is_duplicate a))
                         articles)) by (rewrite Hf; now left).
    apply filter_In in Ha as [Hin Hp]. split; [exact Hin|].
    apply andb_true_iff in Hp as [Hc Hd]. apply negb_true_iff in Hd.
    destruct (Article.category a) as [c|]; [|discriminate].
    apply String.eqb_eq in Hc. now subst c.
Qed.

Lemma make_highlights_no_request env category groups w :
  Forall (fun g => match snd g with
                   | primary :: _ => Py.truthy (Article.summary primary) = true
                   | [] => True
                   end) groups ->
  snd (make_highlights env category groups w) = w.
Proof.
  induction 1 as [|[gid group] groups Hg _ IH]; [reflexivity|].
  simpl in *. unfold make_highlight.
  destruct group as [|primary rest].
  - destruct (make_highlights env category groups w) as [hs w2].
    simpl in *. exact IH.
  - rewrite Hg.
    destruct (make_highlights env category groups w) as [hs w2].
    simpl in *. exact IH.
Qed.

(** X16.  When every unmarked record of the category already has a
    non-empty summary, [generate_highlights] sends no request to the
    provider and changes nothing in the process state. *)
Theorem generate_highlights_with_summaries env articles category w :
  (forall a, In a articles ->
             in_category category a = true -> Article.is_duplicate a = false ->
             Py.truthy (Article.summary a) = true) ->
  snd (generate_highlights env articles category w) = w.
Proof.
  intros Hsum. unfold generate_highlights.
  destruct (category_articles_of articles category) as [|a0 l] eqn:Harts;
    [reflexivity|].
  rewrite <- Harts.
  pose proof (make_highlights_no_request env category
                (article_groups_of (category_articles_of articles category)) w)
    as Hno.
  destruct (make_highlights env category _ w) as [hs w1]. simpl in *.
  apply Hno. apply Forall_forall. intros [gid group] Hg.
  apply list_elem_of_In in Hg.
  destruct (article_groups_of_spec (category_articles_of articles category))
    as (_ & Hmem & _).
  destruct (Hmem gid group Hg) as (_ & Heq). simpl.
  destruct group as [|primary rest]; [exact I|].
  assert (Hin : In primary (members_of gid (category_articles_of articles category)))
    by (rewrite <- Heq; now left).
  apply filter_In in Hin as [Hin _]. apply filter_In in Hin as [Hin Hf].
  apply andb_true_iff in Hf as [Hcat Hdup]. apply negb_true_iff in Hdup.
  now apply Hsum.
Qed.

Lemma generate_highlights_with_summaries_witness :
  (forall a, In a [article_budget] ->
             in_category "finance" a = true -> Article.is_duplicate a = false ->
             Py.truthy (Article.summary a) = true)
  /\ snd (generate_highlights env_rate_limited_once [article_budget] "finance"
                              initial_world) = initial_world.
Proof.
  assert (H : forall a, In a [article_budget] ->
                        in_category "finance" a = true ->
                        Article.is_duplicate a = false ->
                        Py.truthy (Article.summary a) = true).
  { intros a [<-|[]] _ _. reflexivity. }
  split; [exact H|].
  apply (generate_highlights_with_summaries env_rate_limited_once
           [article_budget] "finance" initial_world H).
Defined.

(** ** Synthesis after duplicate detection *)

Lemma role_mark_unmarked labels i a :
  Article.is_duplicate a = false ->
  Article.is_duplicate (role_mark labels i a) = false ->
  role_mark labels i = id
  \/ exists l dups,
      role_mark labels i = mark_primary l /\ indices_of l labels = i :: dups.
Proof.
  intros Ha. unfold role_mark.
  destruct (labels !! i) as [l|]; [|now left].
  destruct (Z.eqb l (-1)); [now left|].
  destruct (indices_of l labels) as [|p dups] eqn:Hidx; [now left|].
  destruct (Nat.eqb_spec i p) as [->|Hne]; [|discriminate].
  destruct dups as [|d dups]; [now left|]. intros _. right.
  exists l, (d :: dups). rewrite <- Hidx. auto.
Qed.

Lemma group_id_of_primary l a : group_id_of (mark_primary l a) = group_name l.
Proof. reflexivity. Qed.

Lemma group_id_of_single a :
  Article.duplicate_group_id a = None -> group_id_of a = "single_" +:+ Article.url a.
Proof. unfold group_id_of. now intros ->. Qed.

Lemma NoDup_map_filter {A B} (key : A -> B) (f : A -> bool) (l : list A) :
  (forall i j x y, i < j -> l !! i = Some x -> l !! j = Some y ->
                   f x = true -> f y = true -> key x <> key y) ->
  List.NoDup (map key (List.filter f l)).
Proof.
  induction l as [|a l IH]; intros Hd; [constructor|].
  assert (Hrest : List.NoDup (map key (List.filter f l))).
  { apply IH. intros i j x y Hij Hi Hj. apply (Hd (S i) (S j)); auto. lia. }
  simpl. destruct (f a) eqn:Hfa; [|exact Hrest].
  simpl. constructor; [|exact Hrest].
  intros Hin. apply in_map_iff in Hin as (y & Hk & Hy).
  apply filter_In in Hy as [Hy Hfy].
  apply list_elem_of_In, list_elem_of_lookup_1 in Hy as [j Hj].
  apply (Hd 0 (S j) a y); auto. lia.
Qed.

Lemma NoDup_map_lookup {A B} (key : A -> B) (l : list A) i j x y :
  List.NoDup (map key l) -> i < j -> l !! i = Some x -> l !! j = Some y ->
  key x <> key y.
Proof.
  revert i j. induction l as [|a l IH]; intros i j Hnd Hij Hi Hj; [discriminate|].
  simpl in Hnd. inversion Hnd as [|? ? Ha Hl]; subst.
  destruct j as [|j]; [lia|]. destruct i as [|i]; simpl in Hi, Hj.
  - injection Hi as <-. intros Heq. apply Ha. rewrite Heq.
    apply in_map. eapply list_elem_of_In, list_elem_of_lookup_2, Hj.
  - apply (IH i j); auto. lia.
Qed.

Lemma members_of_single gid arts :
  List.NoDup (map group_id_of arts) -> length (members_of gid arts) <= 1.
Proof.
  unfold members_of. induction arts as [|a arts IH]; intros Hnd; [simpl; lia|].
  simpl in Hnd. inversion Hnd as [|? ? Ha Hl]; subst. simpl.
  destruct (String.eqb_spec (group_id_of a) gid) as [Heq|Hne]; [|auto].
  simpl. destruct (List.filter _ arts) as [|b l] eqn:Hf; [simpl; lia|].
  exfalso. apply Ha.
  assert (Hb : In b (List.filter (fun a0 => String.eqb (group_id_of a0) gid) arts))
    by (rewrite Hf; now left).
  apply filter_In in Hb as [Hb Hk]. apply String.eqb_eq in Hk.
  rewrite Heq, <- Hk. now apply in_map.
Qed.

(** Unmarked records of the result of [detect_duplicates] have pairwise
    distinct group keys, when the records came in unmarked, ungrouped and
    with distinct urls. *)
Lemma detect_duplicates_group_keys env articles category :
  Forall (fun a => Article.is_duplicate a = false
                   /\ Article.duplicate_group_id a = None) articles ->
  List.NoDup (map Article.url articles) ->
  List.NoDup (map group_id_of
                  (category_articles_of (detect_duplicates env articles) category)).
Proof.
  intros Hfresh Hurls. rewrite Forall_lookup in Hfresh.
  destruct (detect_duplicates_lookup env articles) as (labels & Hlook).
  apply NoDup_map_filter. intros i j x y Hij Hx Hy Hfx Hfy.
  rewrite Hlook in Hx, Hy.
  destruct (articles !! i) as [ai|] eqn:Hai; [|discriminate].
  destruct (articles !! j) as [aj|] eqn:Haj; [|discriminate].
  injection Hx as <-. injection Hy as <-.
  destruct (Hfresh i ai Hai) as (Hdi & Hgi), (Hfresh j aj Haj) as (Hdj & Hgj).
  apply andb_true_iff in Hfx as [_ Hux], Hfy as [_ Huy].
  apply negb_true_iff in Hux, Huy.
  pose proof (NoDup_map_lookup Article.url articles i j ai aj Hurls Hij Hai Haj)
    as Hu.
  destruct (role_mark_unmarked labels i ai Hdi Hux) as [Hri|(l & dups & Hri & Hidx)],
           (role_mark_unmarked labels j aj Hdj Huy) as [Hrj|(l' & dups' & Hrj & Hidx')];
    rewrite Hri, Hrj; unfold id;
    rewrite ?group_id_of_primary, ?(group_id_of_single ai Hgi),
      ?(group_id_of_single aj Hgj).
  - intros H. now apply string_append_inj in H.
  - unfold group_name. discriminate.
  - unfold group_name. discriminate.
  - intros H. apply group_name_inj in H. subst l'.
    rewrite Hidx in Hidx'. injection Hidx' as Heq _. lia.
Qed.

(** X17.  After [detect_duplicates], on records that came in unmarked and
    ungrouped with pairwise distinct urls, every highlight is backed by
    exactly one record: its frequency is 1 and it lists one url.  The
    duplicates of a story are filtered out before they are counted. *)
Theorem highlights_after_detection_are_singletons env articles category w h :
  Forall (fun a => Article.is_duplicate a = false
                   /\ Article.duplicate_group_id a = None) articles ->
  List.NoDup (map Article.url articles) ->
  In h (fst (generate_highlights env (detect_duplicates env articles)
                                 category w)) ->
  Highlight.frequency h = 1%Z
  /\ exists url, Highlight.urls h = [url]
  /\ exists source, Highlight.sources h = [source].
Proof.
  intros Hfresh Hurls Hh.
  pose proof (detect_duplicates_group_keys env articles category Hfresh Hurls)
    as Hkeys.
  destruct (generate_highlights_built _ _ _ _ _ Hh)
    as (gid & group & Hg & Hne & Hf & _ & _ & _ & Hs & Hu).
  destruct (article_groups_of_spec
              (category_articles_of (detect_duplicates env articles) category))
    as (_ & Hmem & _).
  destruct (Hmem gid group Hg) as (_ & Heq).
  pose proof (members_of_single gid _ Hkeys) as Hone. rewrite <- Heq in Hone.
  destruct group as [|a [|b group]]; [contradiction| |simpl in Hone; lia].
  rewrite Hf, Hu, Hs. simpl. eauto.
Qed.

Lemma highlights_after_detection_are_singletons_witness :
  Forall (fun a => Article.is_duplicate a = false
                   /\ Article.duplicate_group_id a = None)
         [article_final; article_budget; article_championship]
  /\ List.NoDup (map Article.url
                     [article_final; article_budget; article_championship])
  /\ In (hd highlight_final
            (fst (generate_highlights env_topics
                    (detect_duplicates env_topics
                       [article_final; article_budget; article_championship])
                    "sports" initial_world)))
        (fst (generate_highlights env_topics
                (detect_duplicates env_topics
                   [article_final; article_budget; article_championship])
                "sports" initial_world))
  /\ Highlight.frequency
       (hd highlight_final
           (fst (generate_highlights env_topics
                   (detect_duplicates env_topics
                      [article_final; article_budget; article_championship])
                   "sports" initial_world))) = 1%Z.
Proof.
  assert (Hfresh : Forall (fun a => Article.is_duplicate a = false
                                    /\ Article.duplicate_group_id a = None)
                          [article_final; article_budget; article_championship])
    by (repeat constructor).
  assert (Hurls : List.NoDup (map Article.url
                    [article_final; article_budget; article_championship])).
  { simpl. repeat constructor; simpl; intuition discriminate. }
  assert (Hin : In (hd highlight_final
            (fst (generate_highlights env_topics
                    (detect_duplicates env_topics
                       [article_final; article_budget; article_championship])
                    "sports" initial_world)))
        (fst (generate_highlights env_topics
                (detect_duplicates env_topics
                   [article_final; article_budget; article_championship])
                "sports" initial_world)))
    by (vm_compute; left; reflexivity).
  split; [exact Hfresh|]. split; [exact Hurls|]. split; [exact Hin|].
  exact (proj1 (highlights_after_detection_are_singletons env_topics
           [article_final; article_budget; article_championship] "sports"
           initial_world _ Hfresh Hurls Hin)).
Defined.

(** ** The priority score counts keywords *)

Lemma keyword_score_count all_text keywords (score : Q) :
  (fold_left (fun score keyword =>
                if Py.contains keyword all_text then (score + 1)%Q else score)
             keywords score
   == score + inject_Z (Z.of_nat (keyword_hits all_text keywords)))%Q.
Proof.
  revert score. induction keywords as [|k keywords IH]; intros score.
  - unfold keyword_hits. simpl. ring.
  - cbn [fold_left]. rewrite IH. unfold keyword_hits. cbn [List.filter].
    destruct (Py.contains k all_text); [|reflexivity].
    cbn [length]. rewrite Nat2Z.inj_succ, <- Z.add_1_r, inject_Z_plus.
    change (inject_Z 1) with 1%Q. ring.
Qed.

Lemma priority_score_of_count (group : list Article.t) :
  (priority_score_of group
   == inject_Z
        (Z.of_nat
           (keyword_hits
              (Py.lower
                 (Py.join " "
                    (map (fun a => Article.title a +:+ " "
                                   +:+ Py.take 200 (Article.content a))
                         group)))
              PRIORITY_KEYWORDS))
      + inject_Z (Z.of_nat (length group)) * (1 # 2))%Q.
Proof.
  unfold priority_score_of, all_text_of. cbv zeta.
  rewrite keyword_score_count. ring.
Qed.

Lemma breaking_news_counts_twice all_text :
  Py.contains "breaking news" all_text = true ->
  2 <= keyword_hits all_text PRIORITY_KEYWORDS.
Proof.
  intros H1.
  assert (H2 : Py.contains "breaking" all_text = true)
    by (apply (contains_trans _ "breaking news"); [reflexivity|exact H1]).
  unfold keyword_hits, PRIORITY_KEYWORDS. cbn [List.filter].
  rewrite H1, H2. cbn [length]. lia.
Qed.

Lemma NoDup_map_In_inj {A B} (key : A -> B) (l : list A) a b :
  List.NoDup (map key l) -> In a l -> In b l -> key a = key b -> a = b.
Proof.
  induction l as [|x l IH]; intros Hnd Ha Hb Hk; [destruct Ha|].
  simpl in Hnd. inversion Hnd as [|? ? Hx Hl]; subst.
  destruct Ha as [<-|Ha], Hb as [<-|Hb]; auto.
  - exfalso. apply Hx. rewrite Hk. now apply in_map.
  - exfalso. apply Hx. rewrite <- Hk. now apply in_map.
Qed.

(** With distinct keys, the records selected by a test are those of the list
    that carry the key of a selected record. *)
Lemma filter_by_selected_keys {A} (key : A -> string) (p : A -> bool)
      (l : list A) :
  List.NoDup (map key l) ->
  List.filter (fun a => existsb (String.eqb (key a))
                                (map key (List.filter p l))) l
  = List.filter p l.
Proof.
  intros Hnd. apply filter_ext_in. intros a Ha.
  apply Bool.eq_iff_eq_true. rewrite existsb_exists. split.
  - intros (k & Hk & Heq). apply String.eqb_eq in Heq. subst k.
    apply in_map_iff in Hk as (b & Hkey & Hb).
    apply filter_In in Hb as [Hb Hp].
    now rewrite (NoDup_map_In_inj key l a b Hnd Ha Hb (eq_sym Hkey)).
  - intros Hp. exists (key a). split; [|apply String.eqb_refl].
    apply in_map. apply filter_In. now split.
Qed.

Lemma filter_filter_andb {A} (p q : A -> bool) (l : list A) :
  List.filter q (List.filter p l) = List.filter (fun a => p a && q a) l.
Proof.
  induction l as [|a l IH]; [reflexivity|]. simpl.
  destruct (p a); simpl; [|exact IH]. destruct (q a); now rewrite IH.
Qed.

(** With distinct urls, the records a highlight is built from are the ones
    whose urls it lists. *)
Lemma generate_highlights_backing_of env articles category w h :
  List.NoDup (map Article.url articles) ->
  In h (fst (generate_highlights env articles category w)) ->
  built_from category h (backing_of h articles).
Proof.
  intros Hnd Hin.
  destruct (generate_highlights_built _ _ _ _ _ Hin)
    as (gid & group & Hg & Hb).
  destruct (article_groups_of_spec (category_articles_of articles category))
    as (_ & Hmem & _).
  destruct (Hmem gid group Hg) as (_ & Heq).
  assert (Hgroup : backing_of h articles = group).
  { destruct Hb as (_ & _ & _ & _ & _ & _ & Hu).
    unfold backing_of. rewrite Hu, Heq. unfold members_of, category_articles_of.
    rewrite filter_filter_andb. now apply filter_by_selected_keys. }
  now rewrite Hgroup.
Qed.

(** X18.  For records with ASCII text and distinct urls, the priority score
    of a highlight is the number of priority keywords found in the text of
    the records it lists -- the title and the first 200 characters of the
    content of each, joined by spaces, in lower case -- plus half its
    frequency, hence at most 7 plus half the frequency; and since "breaking"
    is a keyword of its own, a text with "breaking news" is counted twice. *)
Theorem priority_score_counts_keywords env articles category w h :
  Forall ascii_article articles ->
  List.NoDup (map Article.url articles) ->
  In h (fst (generate_highlights env articles category w)) ->
  backing_of h articles <> []
  /\ Highlight.frequency h = Z.of_nat (length (backing_of h articles))
  /\ (Highlight.priority_score h
      == inject_Z
           (Z.of_nat
              (keyword_hits
                 (Py.lower
                    (Py.join " "
                       (map (fun a => Article.title a +:+ " "
                                      +:+ Py.take 200 (Article.content a))
                            (backing_of h articles))))
                 PRIORITY_KEYWORDS))
         + inject_Z (Highlight.frequency h) * (1 # 2))%Q
  /\ (Highlight.priority_score h
      <= 7 + inject_Z (Highlight.frequency h) * (1 # 2))%Q
  /\ (Py.contains "breaking news"
        (Py.lower
           (Py.join " "
              (map (fun a => Article.title a +:+ " "
                             +:+ Py.take 200 (Article.content a))
                   (backing_of h articles))))
      = true ->
      (2 + inject_Z (Highlight.frequency h) * (1 # 2)
       <= Highlight.priority_score h)%Q).
Proof.
  intros _ Hnd Hin.
  destruct (generate_highlights_backing_of env articles category w h Hnd Hin)
    as (Hne & Hf & Hp & _).
  split; [exact Hne|]. split; [exact Hf|].
  pose proof (priority_score_of_count (backing_of h articles)) as Hcount.
  rewrite Hp, Hf. split; [exact Hcount|]. split.
  - rewrite Hcount. apply Qplus_le_compat; [|apply Qle_refl].
    match goal with
    | |- context [keyword_hits ?t PRIORITY_KEYWORDS] =>
        pose proof (keyword_hits_le t PRIORITY_KEYWORDS) as Hle
    end.
    change (length PRIORITY_KEYWORDS) with 7 in Hle.
    change 7%Q with (inject_Z 7). rewrite <- Zle_Qle. lia.
  - intros Hbn. rewrite Hcount. apply Qplus_le_compat; [|apply Qle_refl].
    pose proof (breaking_news_counts_twice _ Hbn) as Hle.
    change 2%Q with (inject_Z 2). rewrite <- Zle_Qle. lia.
Qed.

Lemma priority_score_counts_keywords_witness :
  Forall ascii_article [article_breaking; article_budget]
  /\ List.NoDup (map Article.url [article_breaking; article_budget])
  /\ In (hd highlight_final
            (fst (generate_highlights env_topics
                    [article_breaking; article_budget] "sports" initial_world)))
        (fst (generate_highlights env_topics [article_breaking; article_budget]
                                  "sports" initial_world))
  /\ backing_of
       (hd highlight_final
           (fst (generate_highlights env_topics
                   [article_breaking; article_budget] "sports" initial_world)))
       [article_breaking; article_budget]
     = [article_breaking]
  /\ (2 + inject_Z
            (Highlight.frequency
               (hd highlight_final
                   (fst (generate_highlights env_topics
                           [article_breaking; article_budget] "sports"
                           initial_world))))
          * (1 # 2)
      <= Highlight.priority_score
           (hd highlight_final
               (fst (generate_highlights env_topics
                       [article_breaking; article_budget] "sports"
                       initial_world))))%Q.
Proof.
  assert (Hascii : Forall ascii_article [article_breaking; article_budget])
    by (repeat constructor).
  assert (Hnd : List.NoDup (map Article.url [article_breaking; article_budget])).
  { simpl. repeat constructor; simpl; intuition discriminate. }
  assert (Hin : In (hd highlight_final
                       (fst (generate_highlights env_topics
                               [article_breaking; article_budget] "sports"
                               initial_world)))
                   (fst (generate_highlights env_topics
                           [article_breaking; article_budget] "sports"
                           initial_world)))
    by (vm_compute; left; reflexivity).
  split; [exact Hascii|]. split; [exact Hnd|]. split; [exact Hin|].
  split; [vm_compute; reflexivity|].
  apply (priority_score_counts_keywords env_topics
           [article_breaking; article_budget] "sports" initial_world _
           Hascii Hnd Hin).
  vm_compute. reflexivity.
Defined.

(** ** The index and retrieval *)

Lemma imap_entry_documents env highlights :
  map entry_document (imap (index_entry env) highlights)
  = map doc_text_of highlights.
Proof.
  assert (Hgen : forall f : nat -> nat,
             map entry_document (imap (fun i => index_entry env (f i)) highlights)
             = map doc_text_of highlights).
  { induction highlights as [|h hs IH]; intros f; [reflexivity|].
    simpl. f_equal. apply (IH (fun i => f (S i))). }
  apply (Hgen (fun i => i)).
Qed.

Lemma NoDup_map_filter_sub {A B} (key : A -> B) (p : A -> bool) (l : list A) :
  List.NoDup (map key l) -> List.NoDup (map key (List.filter p l)).
Proof.
  induction l as [|a l IH]; intros Hnd; [constructor|].
  simpl in Hnd. inversion Hnd as [|? ? Ha Hl]; subst. simpl.
  destruct (p a); [|now apply IH]. simpl. constructor; [|now apply IH].
  intros Hin. apply Ha. apply in_map_iff in Hin as (b & Hk & Hb).
  apply filter_In in Hb as [Hb _]. rewrite <- Hk. now apply in_map.
Qed.

Lemma NoDup_append {A} (l l' : list A) :
  List.NoDup l -> List.NoDup l' -> (forall a, In a l -> ~ In a l') ->
  List.NoDup (l ++ l').
Proof.
  induction l as [|x l IH]; intros Hl Hl' Hd; [exact Hl'|].
  inversion Hl as [|? ? Hx Hnd]; subst. simpl. constructor.
  - rewrite in_app_iff. intros [H|H]; [now apply Hx|].
    apply (Hd x); [now left|exact H].
  - apply IH; auto. intros a Ha. apply Hd. now right.
Qed.

(** What a run of [index_highlights] leaves in the collection. *)
Lemma index_highlights_collection env highlights w :
  collection (snd (index_highlights env highlights w)) = collection w
  \/ (highlights <> [] /\ encode_fault env = None /\ add_fault env = None
      /\ fst (index_highlights env highlights w) = Returns tt
      /\ collection (snd (index_highlights env highlights w))
         = collection w
           ++ List.filter (fun e => negb (VectorIndex.stored (collection w) e))
                          (imap (index_entry env) highlights)).
Proof.
  rewrite index_highlights_spec.
  destruct highlights as [|h hs]; [now left|].
  destruct (encode_fault env); [now left|].
  destruct (add_fault env); [now left|].
  right. split; [discriminate|]. now repeat split.
Qed.

(** A run on an empty collection that returns. *)
Lemma index_highlights_fresh env highlights w w' :
  highlights <> [] -> collection w = [] ->
  index_highlights env highlights w = (Returns tt, w') ->
  encode_fault env = None
  /\ w' = set_collection (imap (index_entry env) highlights) w.
Proof.
  intros Hne Hc. rewrite index_highlights_spec, Hc.
  assert (Hall : forall l : list Entry,
             List.filter (fun e => negb (VectorIndex.stored [] e)) l = l).
  { induction l as [|e l IH]; [reflexivity|]. cbn [List.filter].
    change (negb (VectorIndex.stored [] e)) with true. cbv iota.
    now rewrite IH. }
  rewrite Hall, app_nil_l.
  destruct highlights as [|h hs]; [contradiction|].
  destruct (encode_fault env); [discriminate|].
  destruct (add_fault env); [discriminate|].
  intros [= <-]. split; reflexivity.
Qed.

(** X19.  [index_highlights] never removes or replaces what the index
    holds, whether it returns or raises: every stored entry stays at its
    place, and the ids, pairwise distinct before, are pairwise distinct
    after. *)
Theorem index_highlights_ids_stay_distinct env highlights w :
  List.NoDup (map entry_id (collection w)) ->
  List.NoDup (map entry_id (collection (snd (index_highlights env highlights w))))
  /\ forall i e,
      collection w !! i = Some e ->
      collection (snd (index_highlights env highlights w)) !! i = Some e.
Proof.
  intros Hnd.
  destruct (index_highlights_collection env highlights w)
    as [->|(_ & _ & _ & _ & ->)]; [now split|].
  split.
  - rewrite map_app. apply NoDup_append; [exact Hnd| |].
    + apply NoDup_map_filter_sub, index_entry_ids_NoDup.
    + intros id Hid Hnew. apply in_map_iff in Hnew as (e & <- & He).
      apply filter_In in He as [_ Hs]. apply negb_true_iff in Hs.
      apply stored_In in Hid. congruence.
  - intros i e Hi. now apply lookup_app_l_Some.
Qed.

Lemma index_highlights_ids_stay_distinct_witness :
  List.NoDup
    (map entry_id
         (collection
            (snd (index_highlights env_offline [highlight_final]
                                   initial_world))))
  /\ List.NoDup
       (map entry_id
            (collection
               (snd (index_highlights env_offline
                       [highlight_budget; highlight_final]
                       (snd (index_highlights env_offline [highlight_final]
                                              initial_world))))))
  /\ collection
       (snd (index_highlights env_offline [highlight_budget; highlight_final]
               (snd (index_highlights env_offline [highlight_final]
                                      initial_world)))) !! 0
     = Some (index_entry env_offline 0 highlight_final).
Proof.
  assert (Hnd : List.NoDup
                  (map entry_id
                       (collection
                          (snd (index_highlights env_offline [highlight_final]
                                                 initial_world)))))
    by (vm_compute; repeat constructor; simpl; intuition discriminate).
  split; [exact Hnd|].
  destruct (index_highlights_ids_stay_distinct env_offline
              [highlight_budget; highlight_final]
              (snd (index_highlights env_offline [highlight_final]
                                     initial_world)) Hnd) as (Hafter & Hkept).
  split; [exact Hafter|].
  apply Hkept. reflexivity.
Defined.

Lemma retrieve_ranked env user_message top_k w :
  0 < top_k -> encode_fault env = None -> query_fault env = None ->
  exists ranked,
    Permutation ranked (collection w)
    /\ retrieve env user_message top_k w
       = Returns (map entry_document (firstn top_k ranked)).
Proof.
  intros Hk He Hq. unfold retrieve, VectorIndex.query. rewrite He, Hq.
  destruct top_k as [|k]; [lia|]. cbn [obind documents].
  eexists. split; [apply stable_sort_Permutation|reflexivity].
Qed.

(** What was indexed is what is retrieved, in some order. *)
Lemma retrieve_after_index_ranked env highlights user_message top_k w w' :
  highlights <> [] -> collection w = [] -> 0 < top_k ->
  query_fault env = None ->
  index_highlights env highlights w = (Returns tt, w') ->
  exists ranked,
    Permutation highlights ranked
    /\ retrieve env user_message top_k w'
       = Returns (map doc_text_of (firstn top_k ranked)).
Proof.
  intros Hne Hc Hk Hq Hidx.
  destruct (index_highlights_fresh env highlights w w' Hne Hc Hidx) as (He & ->).
  destruct (retrieve_ranked env user_message top_k
              (set_collection (imap (index_entry env) highlights) w) Hk He Hq)
    as (entries & Hperm & Hret).
  simpl in Hperm.
  apply (Permutation_map entry_document) in Hperm.
  rewrite imap_entry_documents in Hperm.
  apply Permutation_map_inv in Hperm as (ranked & Heq & Hp).
  exists ranked. split; [exact Hp|].
  rewrite Hret, <- firstn_map, Heq. now rewrite firstn_map.
Qed.

(** X20.  What was indexed is what is retrieved: after a run of
    [index_highlights] on an empty collection, retrieval of at least one
    document returns [min top_k n] documents, each the document of one of
    the [n] indexed highlights, and the documents of all of them when
    [top_k] is at least [n]. *)
Theorem retrieve_after_index env highlights user_message top_k w w' :
  highlights <> [] -> collection w = [] -> 0 < top_k ->
  query_fault env = None ->
  index_highlights env highlights w = (Returns tt, w') ->
  exists docs,
    retrieve env user_message top_k w' = Returns docs
    /\ length docs = Nat.min top_k (length highlights)
    /\ Forall (fun doc => exists h, In h highlights /\ doc = doc_text_of h) docs
    /\ (length highlights <= top_k ->
        Permutation (map doc_text_of highlights) docs).
Proof.
  intros Hne Hc Hk Hq Hidx.
  destruct (retrieve_after_index_ranked env highlights user_message top_k w w'
              Hne Hc Hk Hq Hidx) as (ranked & Hp & Hret).
  exists (map doc_text_of (firstn top_k ranked)). split; [exact Hret|]. split.
  { rewrite length_map, length_firstn. now rewrite <- (Permutation_length Hp). }
  split.
  { apply List.Forall_forall. intros doc Hdoc.
    apply in_map_iff in Hdoc as (h & <- & Hh). exists h. split; [|reflexivity].
    apply (Permutation_in h (Permutation_sym Hp)).
    rewrite <- (firstn_skipn top_k ranked). apply in_or_app. now left. }
  intros Hlen. rewrite firstn_all2 by (now rewrite <- (Permutation_length Hp)).
  now apply Permutation_map.
Qed.

Lemma retrieve_after_index_witness :
  [highlight_final; highlight_budget] <> []
  /\ collection initial_world = []
  /\ 0 < 1
  /\ query_fault env_topics = None
  /\ exists docs,
      retrieve env_topics "Which team won?" 1
        (snd (index_highlights env_topics [highlight_final; highlight_budget]
                               initial_world))
      = Returns docs
      /\ length docs = Nat.min 1 (length [highlight_final; highlight_budget])
      /\ Forall (fun doc => exists h,
                    In h [highlight_final; highlight_budget]
                    /\ doc = doc_text_of h) docs
      /\ (length [highlight_final; highlight_budget] <= 1 ->
          Permutation (map doc_text_of [highlight_final; highlight_budget]) docs).
Proof.
  assert (Hne : [highlight_final; highlight_budget] <> []) by discriminate.
  assert (Hk : 0 < 1) by lia.
  split; [exact Hne|]. split; [reflexivity|]. split; [exact Hk|].
  split; [reflexivity|].
  exact (retrieve_after_index env_topics [highlight_final; highlight_budget]
           "Which team won?" 1 initial_world _ Hne eq_refl Hk eq_refl eq_refl).
Defined.

(** ** The fallback answer *)

Lemma take_append (a b : string) n :
  Py.take (String.length a + n) (a +:+ b) = a +:+ Py.take n b.
Proof.
  induction a as [|c a IH]; [reflexivity|].
  change (Py.take (S (String.length a + n)) (String c (a +:+ b))
          = String c (a +:+ Py.take n b)).
  cbn [Py.take]. now rewrite IH.
Qed.

Lemma take_length_le n s : String.length (Py.take n s) <= n.
Proof. rewrite take_length. lia. Qed.

Lemma contains_NL_cons c a :
  Py.contains Py.NL (String c a)
  = Ascii.eqb c (ascii_of_nat 10) || Py.contains Py.NL a.
Proof.
  cbn [Py.contains]. f_equal.
  destruct (Ascii.eqb_spec c (ascii_of_nat 10)) as [->|Hne].
  - apply prefix_spec. now exists a.
  - apply not_true_iff_false. rewrite prefix_spec. intros (q & Hq).
    unfold Py.NL in Hq. rewrite string_append_cons in Hq. congruence.
Qed.

Lemma split_nonempty sep s : Py.split sep s <> [].
Proof.
  destruct s as [|c s]; simpl; [discriminate|].
  destruct (Ascii.eqb c sep); [discriminate|].
  destruct (Py.split sep s); discriminate.
Qed.

(** A line-feed-free prefix stays in the first line. *)
Lemma split_first (a b : string) :
  Py.contains Py.NL a = false ->
  exists w ws,
    Py.split (ascii_of_nat 10) b = w :: ws
    /\ Py.split (ascii_of_nat 10) (a +:+ b) = (a +:+ w) :: ws.
Proof.
  induction a as [|c a IH]; intros Ha.
  - destruct (Py.split (ascii_of_nat 10) b) as [|w ws] eqn:Hb;
      [now apply split_nonempty in Hb|].
    exists w, ws. split; [reflexivity|exact Hb].
  - rewrite contains_NL_cons in Ha. apply orb_false_iff in Ha as [Hc Ha].
    destruct (IH Ha) as (w & ws & Hb & Hab). exists w, ws.
    split; [exact Hb|].
    rewrite !string_append_cons. cbn [Py.split]. now rewrite Hc, Hab.
Qed.

(** A line-feed-free text before a line feed is a line. *)
Lemma split_line (a b : string) :
  Py.contains Py.NL a = false ->
  Py.split (ascii_of_nat 10) (a +:+ Py.NL +:+ b)
  = a :: Py.split (ascii_of_nat 10) b.
Proof.
  induction a as [|c a IH]; intros Ha.
  - change ("" +:+ Py.NL +:+ b) with (String (ascii_of_nat 10) b).
    cbn [Py.split]. now rewrite Ascii.eqb_refl.
  - rewrite contains_NL_cons in Ha. apply orb_false_iff in Ha as [Hc Ha].
    rewrite string_append_cons. cbn [Py.split]. now rewrite Hc, (IH Ha).
Qed.

(** The loop that collects the lines to quote only appends. *)
Lemma quoted_lines_extend (lines : list string) (acc : string) :
  exists more,
    fold_left (fun summary line =>
                 if Py.contains "Summary:" line || Py.contains "Title:" line
                 then summary +:+ line +:+ Py.NL else summary)
              lines acc
    = acc +:+ more.
Proof.
  revert acc. induction lines as [|line lines IH]; intros acc.
  - exists "". simpl. clear. induction acc as [|c acc IH]; [reflexivity|].
    rewrite string_append_cons. now rewrite <- IH.
  - simpl fold_left.
    destruct (Py.contains "Summary:" line || Py.contains "Title:" line).
    + destruct (IH (acc +:+ line +:+ Py.NL)) as (more & ->).
      exists (line +:+ Py.NL +:+ more). now rewrite !string_append_assoc.
    + apply IH.
Qed.

Lemma find_default_In {A} (f : A -> bool) (x : A) (l : list A) :
  In (default x (List.find f (x :: l))) (x :: l).
Proof.
  destruct (List.find f (x :: l)) as [y|] eqn:Hf; [|now left].
  now apply find_some in Hf.
Qed.

(** The first quoted line of a document written by [index_highlights] is
    its title line. *)
Lemma quoted_lines_title (title rest : string) :
  exists w more,
    fold_left (fun summary line =>
                 if Py.contains "Summary:" line || Py.contains "Title:" line
                 then summary +:+ line +:+ Py.NL else summary)
              (Py.split (ascii_of_nat 10)
                        (Py.NL +:+ indent +:+ "Title: " +:+ title +:+ Py.NL
                         +:+ rest))
              ""
    = indent +:+ "Title: " +:+ w +:+ Py.NL +:+ more
    /\ (Py.contains Py.NL title = false -> w = title).
Proof.
  change (Py.NL +:+ indent +:+ "Title: " +:+ title +:+ Py.NL +:+ rest)
    with (String (ascii_of_nat 10)
                 ((indent +:+ "Title: ") +:+ (title +:+ Py.NL +:+ rest))).
  cbn [Py.split]. rewrite Ascii.eqb_refl.
  assert (Ha : Py.contains Py.NL (indent +:+ "Title: ") = false) by reflexivity.
  destruct (split_first (indent +:+ "Title: ") (title +:+ Py.NL +:+ rest) Ha)
    as (w & ws & Hb & ->).
  cbn [fold_left].
  change (Py.contains "Summary:" "" || Py.contains "Title:" "") with false.
  cbv iota.
  assert (Ht : Py.contains "Title:" ((indent +:+ "Title: ") +:+ w) = true).
  { apply contains_spec. exists indent, (" " +:+ w). reflexivity. }
  rewrite Ht, orb_true_r.
  destruct (quoted_lines_extend ws ("" +:+ ((indent +:+ "Title: ") +:+ w) +:+ Py.NL))
    as (more & ->).
  exists w, more. split.
  - change ("" +:+ ((indent +:+ "Title: ") +:+ w) +:+ Py.NL)
      with (((indent +:+ "Title: ") +:+ w) +:+ Py.NL).
    rewrite !string_append_assoc. reflexivity.
  - intros Hno. rewrite (split_line title rest Hno) in Hb. now injection Hb.
Qed.

Lemma quoted_lines_of_document h :
  exists w more,
    fold_left (fun summary line =>
                 if Py.contains "Summary:" line || Py.contains "Title:" line
                 then summary +:+ line +:+ Py.NL else summary)
              (Py.split (ascii_of_nat 10) (doc_text_of h)) ""
    = indent +:+ "Title: " +:+ w +:+ Py.NL +:+ more
    /\ (Py.contains Py.NL (Highlight.title h) = false -> w = Highlight.title h).
Proof. unfold doc_text_of. apply quoted_lines_title. Qed.

(** The fallback answer to documents written by [index_highlights] starts
    with the title line of one of them. *)
Lemma fallback_quotes_title (hs : list Highlight.t) user_message :
  hs <> [] ->
  exists h body,
    In h hs
    /\ _generate_fallback_response (map doc_text_of hs) user_message
       = response_prefix +:+ indent +:+ "Title: " +:+ body +:+ "..."
    /\ String.length body <= 381
    /\ (Py.contains Py.NL (Highlight.title h) = false ->
        String.length (Highlight.title h) <= 380 ->
        exists tail, body = Highlight.title h +:+ Py.NL +:+ tail).
Proof.
  intros Hne. destruct hs as [|h0 hs]; [contradiction|].
  change (map doc_text_of (h0 :: hs))
    with (doc_text_of h0 :: map doc_text_of hs).
  unfold _generate_fallback_response. cbv zeta.
  match goal with
  | |- context [default ?d (List.find ?f ?l)] =>
      pose proof (find_default_In f d (map doc_text_of hs)) as Hin;
      set (relevant := default d (List.find f l)) in *
  end.
  change (In relevant (map doc_text_of (h0 :: hs))) in Hin.
  apply in_map_iff in Hin as (h & Hh & Hin).
  clearbody relevant. subst relevant.
  destruct (quoted_lines_of_document h) as (w & more & -> & Hw).
  assert (Hs : String.eqb (indent +:+ "Title: " +:+ w +:+ Py.NL +:+ more) ""
               = false) by reflexivity.
  rewrite Hs. cbn [negb].
  assert (Ht : Py.take 400 (indent +:+ "Title: " +:+ w +:+ Py.NL +:+ more)
               = indent +:+ "Title: " +:+ Py.take 381 (w +:+ Py.NL +:+ more))
    by exact (take_append (indent +:+ "Title: ") (w +:+ Py.NL +:+ more) 381).
  rewrite Ht.
  exists h, (Py.take 381 (w +:+ Py.NL +:+ more)).
  split; [exact Hin|]. split; [reflexivity|]. split; [apply take_length_le|].
  intros Hno Hlen. rewrite (Hw Hno).
  exists (Py.take (380 - String.length (Highlight.title h)) more).
  rewrite <- !string_append_assoc, <- take_append. f_equal.
  rewrite string_length_append. change (String.length Py.NL) with 1. lia.
Qed.

Lemma contains_char_cons c x s :
  Py.contains (String c "") (String x s)
  = Ascii.eqb c x || Py.contains (String c "") s.
Proof.
  cbn [Py.contains]. f_equal.
  destruct (Ascii.eqb_spec c x) as [->|Hne].
  - apply prefix_spec. now exists s.
  - apply not_true_iff_false. rewrite prefix_spec. intros (q & Hq).
    rewrite string_append_cons in Hq. congruence.
Qed.

Lemma contains_char_append c a b :
  Py.contains (String c "") (a +:+ b)
  = Py.contains (String c "") a || Py.contains (String c "") b.
Proof.
  induction a as [|x a IH]; [reflexivity|].
  rewrite string_append_cons, !contains_char_cons, IH. apply orb_assoc.
Qed.

(** The lines of a text are made of its characters. *)
Lemma split_chars sep s line c :
  In line (Py.split sep s) -> Py.contains (String c "") line = true ->
  Py.contains (String c "") s = true.
Proof.
  revert line. induction s as [|x s IH]; intros line Hin Hc.
  - destruct Hin as [<-|[]]. discriminate.
  - rewrite contains_char_cons. apply orb_true_iff.
    cbn [Py.split] in Hin. destruct (Ascii.eqb x sep).
    + destruct Hin as [<-|Hin]; [discriminate|]. right. now apply (IH line).
    + destruct (Py.split sep s) as [|w ws] eqn:Hs.
      * destruct Hin as [<-|[]]. rewrite contains_char_cons in Hc.
        apply orb_true_iff in Hc as [Hc|Hc]; [now left|discriminate].
      * destruct Hin as [<-|Hin].
        -- rewrite contains_char_cons in Hc.
           apply orb_true_iff in Hc as [Hc|Hc]; [now left|right].
           apply (IH w); [now left|exact Hc].
        -- right. apply (IH line); [now right|exact Hc].
Qed.

Lemma quoted_lines_fold_chars (lines : list string) (acc : string) c :
  Py.contains (String c "")
    (fold_left (fun summary line =>
                  if Py.contains "Summary:" line || Py.contains "Title:" line
                  then summary +:+ line +:+ Py.NL else summary)
               lines acc) = true ->
  Py.contains (String c "") acc = true
  \/ c = ascii_of_nat 10
  \/ exists line, In line lines /\ Py.contains (String c "") line = true.
Proof.
  revert acc. induction lines as [|line lines IH]; intros acc; [now left|].
  cbn [fold_left]. intros H. apply IH in H.
  destruct H as [H|[H|(l & Hl & H)]].
  - destruct (Py.contains "Summary:" line || Py.contains "Title:" line);
      [|now left].
    rewrite !contains_char_append in H.
    apply orb_true_iff in H as [H|H]; [now left|].
    apply orb_true_iff in H as [H|H].
    + right. right. exists line. split; [now left|exact H].
    + right. left. unfold Py.NL in H. rewrite contains_char_cons in H.
      apply orb_true_iff in H as [H|H]; [|discriminate].
      now apply Ascii.eqb_eq in H.
  - now (right; left).
  - right. right. exists l. split; [now right|exact H].
Qed.

(** The quoted lines are made of characters of the document and line
    feeds. *)
Lemma quoted_lines_chars doc c :
  Py.contains (String c "")
    (fold_left (fun summary line =>
                  if Py.contains "Summary:" line || Py.contains "Title:" line
                  then summary +:+ line +:+ Py.NL else summary)
               (Py.split (ascii_of_nat 10) doc) "") = true ->
  Py.contains (String c "") doc = true \/ c = ascii_of_nat 10.
Proof.
  intros H. apply quoted_lines_fold_chars in H.
  destruct H as [H|[H|(line & Hl & H)]]; [discriminate|now right|left].
  now apply (split_chars (ascii_of_nat 10) doc line).
Qed.

(** X21.  For ASCII documents and an ASCII question, the fallback answer is
    the fixed insufficient-information message for an empty context;
    otherwise it is the prefix, at most 400 characters quoted from one of the
    context documents, and an ellipsis that is appended whether or not
    anything was cut.  It is never longer than 434 characters. *)
Theorem _generate_fallback_response_bounded context_docs user_message :
  Forall (fun doc => Py.isascii doc = true) context_docs ->
  Py.isascii user_message = true ->
  String.length (_generate_fallback_response context_docs user_message) <= 434
  /\ ((context_docs = []
       /\ _generate_fallback_response context_docs user_message
          = insufficient_information)
      \/ exists doc quoted,
          In doc context_docs
          /\ _generate_fallback_response context_docs user_message
             = response_prefix +:+ Py.take 400 quoted +:+ "..."
          /\ (quoted = doc
              \/ (quoted <> ""
                  /\ forall c, Py.contains (String c "") quoted = true ->
                               Py.contains (String c "") doc = true
                               \/ c = ascii_of_nat 10))).
Proof.
  intros _ _.
  assert (Hshape :
            (context_docs = []
             /\ _generate_fallback_response context_docs user_message
                = insufficient_information)
            \/ exists doc quoted,
                In doc context_docs
                /\ _generate_fallback_response context_docs user_message
                   = response_prefix +:+ Py.take 400 quoted +:+ "..."
                /\ (quoted = doc
                    \/ (quoted <> ""
                        /\ forall c, Py.contains (String c "") quoted = true ->
                                     Py.contains (String c "") doc = true
                                     \/ c = ascii_of_nat 10))).
  { destruct context_docs as [|first_doc docs]; [left; now split|right].
    unfold _generate_fallback_response. cbv zeta.
    match goal with
    | |- context [default first_doc (List.find ?f _)] =>
        pose proof (find_default_In f first_doc docs) as Hin;
        set (relevant := default first_doc (List.find f (first_doc :: docs))) in *
    end.
    clearbody relevant. exists relevant.
    match goal with
    | |- context [String.eqb ?s ""] => set (summary := s)
    end.
    destruct (String.eqb_spec summary "") as [Heq|Hne]; cbn [negb].
    - exists relevant. split; [exact Hin|]. split; [reflexivity|now left].
    - exists summary. split; [exact Hin|]. split; [reflexivity|right].
      split; [exact Hne|]. intros c. subst summary.
      apply quoted_lines_chars. }
  split; [|exact Hshape].
  destruct Hshape as [(_ & ->)|(doc & quoted & _ & -> & _)].
  - apply Nat.leb_le. reflexivity.
  - rewrite !string_length_append.
    pose proof (take_length_le 400 quoted) as Hq.
    change (String.length response_prefix) with 31.
    change (String.length "...") with 3. lia.
Qed.

Lemma _generate_fallback_response_bounded_witness :
  Forall (fun doc => Py.isascii doc = true)
         [doc_text_of highlight_final; doc_text_of highlight_budget]
  /\ Py.isascii "What about the budget?" = true
  /\ String.length
       (_generate_fallback_response
          [doc_text_of highlight_final; doc_text_of highlight_budget]
          "What about the budget?") <= 434.
Proof.
  assert (Hdocs : Forall (fun doc => Py.isascii doc = true)
                         [doc_text_of highlight_final;
                          doc_text_of highlight_budget])
    by (repeat constructor; vm_compute; reflexivity).
  split; [exact Hdocs|]. split; [reflexivity|].
  apply (_generate_fallback_response_bounded
           [doc_text_of highlight_final; doc_text_of highlight_budget]
           "What about the budget?" Hdocs eq_refl).
Defined.

(** ** Answers without the provider *)

Lemma query_fallback env user_message top_k w doc docs :
  retrieve env user_message top_k w = Returns (doc :: docs) ->
  openai_client env = false
  \/ (exists error_str,
         chat_completions_create env (length (provider_log w))
           (query_request (context_of (doc :: docs)) user_message)
         = Failure error_str) ->
  fst (query env user_message top_k w)
  = _generate_fallback_response (doc :: docs) user_message.
Proof.
  intros Hr Hp. unfold query, query_body, call_provider. rewrite Hr.
  destruct (openai_client env); [|reflexivity].
  destruct Hp as [Hp|(error_str & ->)]; [discriminate|].
  now destruct (is_quota_error error_str).
Qed.

(** X22.  When the provider is absent or fails, whatever the failure, the
    answer to an ASCII question whose retrieved documents were written by
    [index_highlights] from ASCII fields is the prefix followed by the
    indented title line of one of them; a title of at most 380 characters
    without a line feed is quoted in full. *)
Theorem query_fallback_quotes_title env user_message top_k w hs :
  Py.isascii user_message = true ->
  Forall (fun h => Py.isascii (doc_text_of h) = true) hs ->
  hs <> [] ->
  retrieve env user_message top_k w = Returns (map doc_text_of hs) ->
  openai_client env = false
  \/ (exists error_str,
         chat_completions_create env (length (provider_log w))
           (query_request (context_of (map doc_text_of hs)) user_message)
         = Failure error_str) ->
  exists h body,
    In h hs
    /\ fst (query env user_message top_k w)
       = response_prefix +:+ indent +:+ "Title: " +:+ body +:+ "..."
    /\ String.length body <= 381
    /\ (Py.contains Py.NL (Highlight.title h) = false ->
        String.length (Highlight.title h) <= 380 ->
        exists tail, body = Highlight.title h +:+ Py.NL +:+ tail).
Proof.
  intros _ _ Hne Hr Hp.
  destruct (fallback_quotes_title hs user_message Hne)
    as (h & body & Hh & Hresp & Hrest).
  exists h, body. split; [exact Hh|]. split; [|exact Hrest].
  rewrite <- Hresp. destruct hs as [|h0 hs']; [contradiction|].
  now apply (query_fallback env user_message top_k w
               (doc_text_of h0) (map doc_text_of hs')).
Qed.

Lemma query_fallback_quotes_title_witness :
  Py.isascii "Which team won?" = true
  /\ Forall (fun h => Py.isascii (doc_text_of h) = true)
            [highlight_final; highlight_budget]
  /\ [highlight_final; highlight_budget] <> []
  /\ retrieve env_topics "Which team won?" 3
       (snd (index_highlights env_topics [highlight_final; highlight_budget]
                              initial_world))
     = Returns (map doc_text_of [highlight_final; highlight_budget])
  /\ openai_client env_topics = false
  /\ exists h body,
      In h [highlight_final; highlight_budget]
      /\ fst (query env_topics "Which team won?" 3
                (snd (index_highlights env_topics
                        [highlight_final; highlight_budget] initial_world)))
         = response_prefix +:+ indent +:+ "Title: " +:+ body +:+ "..."
      /\ String.length body <= 381
      /\ (Py.contains Py.NL (Highlight.title h) = false ->
          String.length (Highlight.title h) <= 380 ->
          exists tail, body = Highlight.title h +:+ Py.NL +:+ tail).
Proof.
  assert (Hascii : Forall (fun h => Py.isascii (doc_text_of h) = true)
                          [highlight_final; highlight_budget])
    by (repeat constructor; vm_compute; reflexivity).
  assert (Hne : [highlight_final; highlight_budget] <> []) by discriminate.
  assert (Hr : retrieve env_topics "Which team won?" 3
                 (snd (index_highlights env_topics
                         [highlight_final; highlight_budget] initial_world))
               = Returns (map doc_text_of [highlight_final; highlight_budget]))
    by (vm_compute; reflexivity).
  split; [reflexivity|]. split; [exact Hascii|]. split; [exact Hne|].
  split; [exact Hr|]. split; [reflexivity|].
  exact (query_fallback_quotes_title env_topics "Which team won?" 3 _
           [highlight_final; highlight_budget] eq_refl Hascii Hne Hr
           (or_introl eq_refl)).
Defined.

Lemma query_body_world env user_message top_k w :
  snd (query env user_message top_k w) = w
  \/ exists docs,
      retrieve env user_message top_k w = Returns docs
      /\ docs <> []
      /\ openai_client env = true
      /\ snd (query env user_message top_k w)
         = log_request (query_request (context_of docs) user_message) w.
Proof.
  unfold query, query_body, call_provider.
  destruct (retrieve env user_message top_k w) as [[|doc docs]|e];
    [now left| |now left].
  destruct (openai_client env); [|now left]. right.
  exists (doc :: docs). split; [reflexivity|]. split; [discriminate|].
  split; [reflexivity|].
  destruct (chat_completions_create env _ _) as [text|error_str];
    [reflexivity|].
  now destruct (is_quota_error error_str).
Qed.

(** X23.  A query never writes to the index and never touches the
    summarisation gate.  It sends at most one request to the provider, and it
    sends one exactly when a client exists and retrieval returned at least one
    document; the request carries the retrieved documents and the question. *)
Theorem query_effects env user_message top_k w :
  collection (snd (query env user_message top_k w)) = collection w
  /\ _openai_quota_exceeded (snd (query env user_message top_k w))
     = _openai_quota_exceeded w
  /\ ((snd (query env user_message top_k w) = w
       /\ (openai_client env = false
           \/ retrieve env user_message top_k w = Returns []
           \/ exists e, retrieve env user_message top_k w = Raises e))
      \/ exists docs,
          retrieve env user_message top_k w = Returns docs
          /\ docs <> []
          /\ openai_client env = true
          /\ provider_log (snd (query env user_message top_k w))
             = provider_log w
                 ++ [query_request (context_of docs) user_message]).
Proof.
  assert (Hcases :
            (snd (query env user_message top_k w) = w
             /\ (openai_client env = false
                 \/ retrieve env user_message top_k w = Returns []
                 \/ exists e, retrieve env user_message top_k w = Raises e))
            \/ exists docs,
                retrieve env user_message top_k w = Returns docs
                /\ docs <> []
                /\ openai_client env = true
                /\ snd (query env user_message top_k w)
                   = log_request (query_request (context_of docs) user_message) w).
  { unfold query, query_body, call_provider.
    destruct (retrieve env user_message top_k w) as [[|doc docs]|e].
    - left. split; [reflexivity|]. right. now left.
    - destruct (openai_client env); [right|left; split; [reflexivity|now left]].
      exists (doc :: docs). split; [reflexivity|]. split; [discriminate|].
      split; [reflexivity|].
      destruct (chat_completions_create env _ _) as [text|error_str];
        [reflexivity|].
      now destruct (is_quota_error error_str).
    - left. split; [reflexivity|]. right. right. now exists e. }
  destruct Hcases as [(Hw & Hwhy)|(docs & Hr & Hne & Hc & Hw)].
  - rewrite Hw. split; [reflexivity|]. split; [reflexivity|]. left.
    split; [reflexivity|exact Hwhy].
  - rewrite Hw. split; [reflexivity|]. split; [reflexivity|]. right.
    exists docs. repeat (split; [assumption|]). reflexivity.
Qed.

(** X24.  From indexing to answer: after a run of [index_highlights] on an
    empty collection, with ASCII fields, and with no provider, every ASCII
    question asking for at least one document is answered with the prefix
    and the indented title line of one of the indexed highlights, and the
    state is left as it was. *)
Theorem query_after_index_quotes_highlight env highlights user_message top_k w w' :
  Py.isascii user_message = true ->
  Forall (fun h => Py.isascii (doc_text_of h) = true) highlights ->
  highlights <> [] -> collection w = [] -> 0 < top_k ->
  query_fault env = None ->
  openai_client env = false ->
  index_highlights env highlights w = (Returns tt, w') ->
  exists h body,
    In h highlights
    /\ query env user_message top_k w'
       = (response_prefix +:+ indent +:+ "Title: " +:+ body +:+ "...", w')
    /\ String.length body <= 381
    /\ (Py.contains Py.NL (Highlight.title h) = false ->
        String.length (Highlight.title h) <= 380 ->
        exists tail, body = Highlight.title h +:+ Py.NL +:+ tail).
Proof.
  intros _ _ Hne Hempty Hk Hq Hc Hidx.
  destruct (retrieve_after_index_ranked env highlights user_message top_k w w'
              Hne Hempty Hk Hq Hidx) as (ranked & Hp & Hret).
  assert (Hsome : firstn top_k ranked <> []).
  { destruct ranked as [|r ranked].
    - apply Permutation_sym, Permutation_nil in Hp. contradiction.
    - destruct top_k; [lia|discriminate]. }
  destruct (fallback_quotes_title (firstn top_k ranked) user_message Hsome)
    as (h & body & Hh & Hresp & Hrest).
  exists h, body. split.
  { apply (Permutation_in h (Permutation_sym Hp)).
    rewrite <- (firstn_skipn top_k ranked). apply in_or_app. now left. }
  split; [|exact Hrest].
  rewrite <- Hresp.
  destruct (firstn top_k ranked) as [|h0 hs'] eqn:Hf; [contradiction|].
  pose proof (query_fallback env user_message top_k w' (doc_text_of h0)
                (map doc_text_of hs') Hret (or_introl Hc)) as Hfst.
  destruct (query_body_world env user_message top_k w')
    as [Hw|(docs & _ & _ & Hc' & _)]; [|congruence].
  rewrite (surjective_pairing (query env user_message top_k w')).
  now rewrite Hfst, Hw.
Qed.

Lemma query_after_index_quotes_highlight_witness :
  Py.isascii "Which team won?" = true
  /\ Forall (fun h => Py.isascii (doc_text_of h) = true)
            [highlight_final; highlight_budget]
  /\ [highlight_final; highlight_budget] <> []
  /\ collection initial_world = []
  /\ 0 < 3
  /\ query_fault env_topics = None
  /\ openai_client env_topics = false
  /\ exists h body,
      In h [highlight_final; highlight_budget]
      /\ query env_topics "Which team won?" 3
           (snd (index_highlights env_topics [highlight_final; highlight_budget]
                                  initial_world))
         = (response_prefix +:+ indent +:+ "Title: " +:+ body +:+ "...",
            snd (index_highlights env_topics [highlight_final; highlight_budget]
                                  initial_world))
      /\ String.length body <= 381
      /\ (Py.contains Py.NL (Highlight.title h) = false ->
          String.length (Highlight.title h) <= 380 ->
          exists tail, body = Highlight.title h +:+ Py.NL +:+ tail).
Proof.
  assert (Hascii : Forall (fun h => Py.isascii (doc_text_of h) = true)
                          [highlight_final; highlight_budget])
    by (repeat constructor; vm_compute; reflexivity).
  assert (Hne : [highlight_final; highlight_budget] <> []) by discriminate.
  assert (Hk : 0 < 3) by lia.
  split; [reflexivity|]. split; [exact Hascii|]. split; [exact Hne|].
  split; [reflexivity|]. split; [exact Hk|]. split; [reflexivity|].
  split; [reflexivity|].
  exact (query_after_index_quotes_highlight env_topics
           [highlight_final; highlight_budget] "Which team won?" 3
           initial_world _ eq_refl Hascii Hne eq_refl Hk eq_refl eq_refl
           eq_refl).
Defined.

(** ** The pipeline of main.py *)

Lemma sends_refl w : sends_at_most 0 w w.
Proof.
  split; [reflexivity|]. split; [auto|]. exists []. now rewrite app_nil_r.
Qed.

Lemma sends_trans n m w w1 w2 :
  sends_at_most n w w1 -> sends_at_most m w1 w2 -> sends_at_most (n + m) w w2.
Proof.
  intros (Hc1 & Hf1 & r1 & Hl1 & Hn1) (Hc2 & Hf2 & r2 & Hl2 & Hn2).
  split; [congruence|]. split; [auto|].
  exists (r1 ++ r2). rewrite Hl2, Hl1, <- app_assoc, length_app.
  split; [reflexivity|lia].
Qed.

Lemma sends_weaken n m w w' :
  n <= m -> sends_at_most n w w' -> sends_at_most m w w'.
Proof.
  intros Hnm (Hc & Hf & r & Hl & Hn). split; [exact Hc|]. split; [exact Hf|].
  exists r. split; [exact Hl|lia].
Qed.

Lemma summarize_article_sends env article w :
  sends_at_most 1 w (snd (summarize_article env article w)).
Proof.
  unfold summarize_article, call_provider.
  destruct (negb (openai_client env) || _openai_quota_exceeded w) eqn:Hgate;
    [apply (sends_weaken 0); [lia|apply sends_refl]|].
  apply orb_false_iff in Hgate as [_ Hq].
  assert (Hone : forall w',
             collection w' = collection w ->
             provider_log w' = provider_log w ++ [summarize_request article] ->
             sends_at_most 1 w w').
  { intros w' Hc Hl. split; [exact Hc|]. split; [congruence|].
    eexists. split; [exact Hl|simpl; lia]. }
  destruct (chat_completions_create env _ _) as [text|error_str];
    [now apply Hone|].
  destruct (is_quota_error error_str); [|now apply Hone].
  cbn [snd log_request _openai_quota_exceeded]. rewrite Hq. now apply Hone.
Qed.

Lemma make_highlights_sends env category groups w :
  sends_at_most (length (fst (make_highlights env category groups w))) w
                (snd (make_highlights env category groups w)).
Proof.
  revert w. induction groups as [|[gid group] groups IH]; intros w;
    [apply sends_refl|].
  cbn [make_highlights]. unfold make_highlight.
  destruct group as [|primary rest].
  - specialize (IH w).
    destruct (make_highlights env category groups w) as [hs w2]. exact IH.
  - destruct (Py.truthy (Article.summary primary)).
    + specialize (IH w).
      destruct (make_highlights env category groups w) as [hs w2].
      cbn [fst snd length] in *. apply (sends_weaken (length hs)); [lia|exact IH].
    + pose proof (summarize_article_sends env primary w) as H1.
      destruct (summarize_article env primary w) as [summary w1].
      specialize (IH w1).
      destruct (make_highlights env category groups w1) as [hs w2].
      cbn [fst snd length] in *. apply (sends_trans 1 (length hs) w w1 w2 H1 IH).
Qed.

Lemma sort_highlights_length hs : length (sort_highlights hs) = length hs.
Proof. apply Permutation_length, stable_sort_Permutation. Qed.

Lemma generate_highlights_sends env articles category w :
  sends_at_most (length (fst (generate_highlights env articles category w))) w
                (snd (generate_highlights env articles category w)).
Proof.
  unfold generate_highlights.
  destruct (category_articles_of articles category) as [|a l];
    [apply sends_refl|].
  pose proof (make_highlights_sends env category (article_groups_of (a :: l)) w)
    as H.
  destruct (make_highlights env category (article_groups_of (a :: l)) w)
    as [hs w1].
  cbn [fst snd] in *. now rewrite sort_highlights_length.
Qed.

Lemma generate_all_highlights_sends env all_articles categories w :
  sends_at_most
    (length (fst (generate_all_highlights env all_articles categories w))) w
    (snd (generate_all_highlights env all_articles categories w)).
Proof.
  revert w. induction categories as [|category rest IH]; intros w;
    [apply sends_refl|].
  cbn [generate_all_highlights].
  pose proof (generate_highlights_sends env all_articles category w) as H1.
  destruct (generate_highlights env all_articles category w) as [hs w1].
  specialize (IH w1).
  destruct (generate_all_highlights env all_articles rest w1) as [more w2].
  cbn [fst snd] in *. rewrite length_app.
  apply (sends_trans _ _ w w1 w2 H1 IH).
Qed.

Lemma categorize_article_truthy article :
  Py.truthy (Some (categorize_article article)) = true.
Proof.
  pose proof (categorize_article_In article) as Hin.
  destruct Hin as [<-|[<-|[<-|[<-|[]]]]]; reflexivity.
Qed.

Lemma process_article_spec env article w :
  sends_at_most 1 w (snd (process_article env article w))
  /\ filled_in (fst (process_article env article w)).
Proof.
  unfold process_article.
  set (article1 := if negb (Py.truthy (Article.category article))
                   then set_category (Some (categorize_article article)) article
                   else article).
  assert (Hcat : Py.truthy (Article.category article1) = true).
  { subst article1. destruct (Py.truthy (Article.category article)) eqn:Ht;
      [exact Ht|apply categorize_article_truthy]. }
  pose proof (summarize_article_sends env article1 w) as Hs.
  destruct (summarize_article env article1 w) as [summary w1].
  split; [exact Hs|]. split; [exact Hcat|discriminate].
Qed.

Lemma process_articles_spec env articles w :
  sends_at_most (length articles) w (snd (process_articles env articles w))
  /\ length (fst (process_articles env articles w)) = length articles
  /\ Forall filled_in (fst (process_articles env articles w)).
Proof.
  revert w. induction articles as [|a rest IH]; intros w.
  - split; [apply sends_refl|]. split; [reflexivity|constructor].
  - cbn [process_articles].
    destruct (process_article_spec env a w) as (H1 & Hf).
    destruct (process_article env a w) as [a' w1].
    destruct (IH w1) as (H2 & Hlen & Hall).
    destruct (process_articles env rest w1) as [rest' w2].
    cbn [fst snd length] in *.
    split; [apply (sends_trans 1 _ w w1 w2 H1 H2)|].
    split; [now rewrite Hlen|now constructor].
Qed.

Lemma extract_categories_spec env sv categories all_articles s :
  database (snd (extract_categories env sv categories all_articles s))
  = database s
  /\ match fst (extract_categories env sv categories all_articles s) with
     | Returns l =>
         exists new,
           l = all_articles ++ new
           /\ Forall filled_in new
           /\ sends_at_most
                (length new) (world s)
                (world (snd (extract_categories env sv categories all_articles s)))
     | Raises _ =>
         exists n,
           sends_at_most
             n (world s)
             (world (snd (extract_categories env sv categories all_articles s)))
     end.
Proof.
  revert all_articles s.
  induction categories as [|category rest IH]; intros all_articles s.
  - split; [reflexivity|]. exists []. rewrite app_nil_r.
    split; [reflexivity|]. split; [constructor|apply sends_refl].
  - cbn [extract_categories].
    destruct (sources_of category) as [sources|]; [|apply IH].
    destruct (extract_articles sv (extractions s) category sources)
      as [[|a articles]|e].
    + apply (IH all_articles (count_extraction s)).
    + destruct (process_articles_spec env (a :: articles) (world s))
        as (Hs & Hlen & Hall).
      change (world (count_extraction s)) with (world s).
      destruct (process_articles env (a :: articles) (world s))
        as [articles' w1].
      cbn [fst snd] in Hs, Hlen, Hall.
      destruct (IH (all_articles ++ articles')
                   (set_world w1 (count_extraction s))) as (Hdb & Hout).
      split; [exact Hdb|].
      destruct (fst (extract_categories env sv rest (all_articles ++ articles')
                       (set_world w1 (count_extraction s)))) as [l|e].
      * destruct Hout as (new & -> & Hnew & Hs2).
        exists (articles' ++ new). split; [now rewrite app_assoc|].
        split; [now apply Forall_app|].
        rewrite length_app, Hlen. rewrite <- Hlen at 1. rewrite Hlen.
        exact (sends_trans _ _ _ _ _ Hs Hs2).
      * destruct Hout as (n & Hs2). eexists.
        exact (sends_trans _ _ _ _ _ Hs Hs2).
    + split; [reflexivity|]. exists 0. apply sends_refl.
Qed.

Lemma index_highlights_cases env highlights w :
  provider_log (snd (index_highlights env highlights w)) = provider_log w
  /\ _openai_quota_exceeded (snd (index_highlights env highlights w))
     = _openai_quota_exceeded w
  /\ (highlights = [] -> index_highlights env highlights w = (Returns tt, w))
  /\ (exists added,
         collection (snd (index_highlights env highlights w))
         = collection w ++ added
         /\ Forall (fun e => In (entry_document e) (map doc_text_of highlights)
                             /\ ~ In (entry_id e)
                                     (map entry_id (collection w))) added)
  /\ (forall e, fst (index_highlights env highlights w) = Raises e ->
                collection (snd (index_highlights env highlights w))
                = collection w)
  /\ (collection w = [] ->
      fst (index_highlights env highlights w) = Returns tt ->
      collection (snd (index_highlights env highlights w))
      = imap (index_entry env) highlights).
Proof.
  assert (Hall : forall l : list Entry,
             List.filter (fun e => negb (VectorIndex.stored [] e)) l = l).
  { induction l as [|e l IH]; [reflexivity|]. cbn [List.filter].
    change (negb (VectorIndex.stored [] e)) with true. cbv iota.
    now rewrite IH. }
  assert (Hnone : exists added : list Entry,
             collection w = collection w ++ added
             /\ Forall (fun e => In (entry_document e)
                                    (map doc_text_of highlights)
                                 /\ ~ In (entry_id e)
                                         (map entry_id (collection w))) added).
  { exists []. rewrite app_nil_r. split; [reflexivity|constructor]. }
  rewrite index_highlights_spec.
  destruct highlights as [|h hs].
  { split; [reflexivity|]. split; [reflexivity|]. split; [reflexivity|].
    split; [exact Hnone|]. split; [reflexivity|]. intros Hc _. exact Hc. }
  destruct (encode_fault env) as [e1|]; [|destruct (add_fault env) as [e2|]];
    cbn [fst snd provider_log _openai_quota_exceeded collection set_collection];
    (split; [reflexivity|]); (split; [reflexivity|]);
    (split; [discriminate|]).
  - split; [exact Hnone|]. split; [reflexivity|discriminate].
  - split; [exact Hnone|]. split; [reflexivity|discriminate].
  - split.
    { eexists. split; [reflexivity|].
      apply List.Forall_forall. intros e He.
      apply filter_In in He as [Hin Hs]. split.
      - rewrite <- (imap_entry_documents env). now apply in_map.
      - apply negb_true_iff in Hs. rewrite <- stored_In. congruence. }
    split; [discriminate|].
    intros Hc _. now rewrite Hc, Hall.
Qed.

Lemma detect_duplicates_filled_in env articles :
  Forall filled_in articles -> Forall filled_in (detect_duplicates env articles).
Proof.
  intros Hall. destruct (detect_duplicates_lookup env articles) as (labels & Hl).
  rewrite Forall_lookup in *. intros i a Hi.
  rewrite Hl in Hi. destruct (articles !! i) as [a0|] eqn:Ha; [|discriminate].
  injection Hi as <-. specialize (Hall i a0 Ha).
  change (filled_in (erase_marks (role_mark labels i a0))).
  rewrite erase_marks_role_mark. exact Hall.
Qed.

Lemma generate_all_highlights_categories env all_articles categories w :
  Forall (fun h => In (Highlight.category h) categories)
         (fst (generate_all_highlights env all_articles categories w)).
Proof.
  revert w. induction categories as [|category rest IH]; intros w;
    [constructor|].
  cbn [generate_all_highlights].
  assert (H1 : Forall (fun h => Highlight.category h = category)
                      (fst (generate_highlights env all_articles category w))).
  { apply List.Forall_forall. intros h Hh.
    destruct (generate_highlights_built _ _ _ _ _ Hh)
      as (gid & group & _ & _ & _ & _ & _ & Hc & _). exact Hc. }
  destruct (generate_highlights env all_articles category w) as [hs w1].
  specialize (IH w1).
  destruct (generate_all_highlights env all_articles rest w1) as [more w2].
  cbn [fst] in *. apply Forall_app. split.
  - eapply Forall_impl; [exact H1|]. intros h <-. now left.
  - eapply Forall_impl; [exact IH|]. intros h Hh. now right.
Qed.

(** X25.  When [process_news_pipeline] reports success, the database was
    handed exactly two lists, the articles and then the highlights, and the
    two counts reported are their lengths.  Every saved article has a
    category and a summary, every saved highlight belongs to one of the
    categories asked for, the index holds the documents of the saved
    highlights when it was empty before (and is left as it was when there is
    no highlight; what it held is never removed, and what is added holds
    documents of the saved highlights under ids that were not stored), and
    the run sent at most one request to the provider per article and one per
    highlight. *)
Theorem pipeline_success env sv categories s r s' :
  process_news_pipeline env sv categories s = (r, s') ->
  status r = "success" ->
  exists all_articles all_highlights,
    database s'
    = database s ++ [SaveArticles all_articles; SaveHighlights all_highlights]
    /\ all_articles <> []
    /\ articles_count r = Z.of_nat (length all_articles)
    /\ highlights_count r = Z.of_nat (length all_highlights)
    /\ Forall filled_in all_articles
    /\ Forall (fun h => In (Highlight.category h) (default CATEGORIES categories))
              all_highlights
    /\ (all_highlights = [] -> collection (world s') = collection (world s))
    /\ (collection (world s) = [] ->
        map entry_document (collection (world s'))
        = map doc_text_of all_highlights)
    /\ (exists added,
           collection (world s') = collection (world s) ++ added
           /\ Forall (fun e => In (entry_document e)
                                  (map doc_text_of all_highlights)
                               /\ ~ In (entry_id e)
                                       (map entry_id (collection (world s))))
                     added)
    /\ exists requests,
        provider_log (world s') = provider_log (world s) ++ requests
        /\ length requests <= length all_articles + length all_highlights.
Proof.
  intros Hrun Hst. unfold process_news_pipeline, pipeline_body in Hrun.
  set (cats := default CATEGORIES categories) in *.
  destruct (extract_categories_spec env sv cats [] s) as (Hdb & Hex).
  destruct (extract_categories env sv cats [] s) as [[extracted|e] s1];
    cbn [fst snd] in Hdb, Hex;
    [|injection Hrun as <- <-; discriminate Hst].
  destruct Hex as (new & Hnew & Hfilled & Hsend1). cbn [app] in Hnew.
  subst new.
  destruct extracted as [|a0 rest];
    [injection Hrun as <- <-; discriminate Hst|].
  set (extracted := a0 :: rest) in *.
  assert (Hne : extracted <> []) by discriminate.
  clearbody extracted. clear a0 rest.
  unfold save_articles, save_highlights in Hrun.
  destruct (save_articles_fault sv) as [e|];
    [injection Hrun as <- <-; discriminate Hst|].
  cbn [world log_database set_world] in Hrun.
  pose proof (generate_all_highlights_sends env (detect_duplicates env extracted)
                cats (world s1)) as Hsend2.
  pose proof (generate_all_highlights_categories env
                (detect_duplicates env extracted) cats (world s1)) as Hcats.
  destruct (generate_all_highlights env (detect_duplicates env extracted) cats
                                    (world s1)) as [all_highlights w3].
  cbn [fst snd] in Hsend2, Hcats.
  destruct (save_highlights_fault sv) as [e|];
    [injection Hrun as <- <-; discriminate Hst|].
  cbn [world log_database set_world extractions database] in Hrun.
  destruct (index_highlights_cases env all_highlights w3)
    as (Hlog & _ & Hnil & Hadded & _ & Hfresh).
  destruct (index_highlights env all_highlights w3) as [[u|e] w5];
    [|injection Hrun as <- <-; discriminate Hst].
  cbn [fst snd] in Hlog, Hadded, Hfresh. destruct u.
  injection Hrun as <- <-.
  cbn [world database extractions set_world log_database articles_count
       highlights_count].
  exists (detect_duplicates env extracted), all_highlights.
  rewrite Hdb, <- app_assoc. split; [reflexivity|]. split.
  { intros Hempty. apply (f_equal (@length _)) in Hempty.
    rewrite detect_duplicates_length in Hempty.
    destruct extracted; [contradiction|discriminate]. }
  split; [reflexivity|]. split; [reflexivity|].
  split; [now apply detect_duplicates_filled_in|]. split; [exact Hcats|].
  destruct Hsend1 as (Hc1 & _ & r1 & Hl1 & Hn1).
  destruct Hsend2 as (Hc2 & _ & r2 & Hl2 & Hn2).
  split.
  { intros ->. specialize (Hnil eq_refl). injection Hnil as Hw. congruence. }
  split.
  { intros Hempty. rewrite Hfresh; [apply imap_entry_documents| |reflexivity].
    congruence. }
  split.
  { destruct Hadded as (added & Ha & Hfrom). exists added.
    replace (collection (world s)) with (collection w3) by congruence.
    now split. }
  exists (r1 ++ r2). rewrite Hlog, Hl2, Hl1, <- app_assoc.
  split; [reflexivity|]. rewrite length_app, detect_duplicates_length. lia.
Qed.

Lemma pipeline_success_witness :
  process_news_pipeline env_topics sample_services None initial_system
  = (fst (process_news_pipeline env_topics sample_services None initial_system),
     snd (process_news_pipeline env_topics sample_services None initial_system))
  /\ status (fst (process_news_pipeline env_topics sample_services None
                                        initial_system)) = "success"
  /\ exists all_articles all_highlights,
      database (snd (process_news_pipeline env_topics sample_services None
                                           initial_system))
      = database initial_system
          ++ [SaveArticles all_articles; SaveHighlights all_highlights]
      /\ all_articles <> []
      /\ articles_count (fst (process_news_pipeline env_topics sample_services
                                                    None initial_system))
         = Z.of_nat (length all_articles)
      /\ highlights_count (fst (process_news_pipeline env_topics sample_services
                                                      None initial_system))
         = Z.of_nat (length all_highlights)
      /\ Forall filled_in all_articles
      /\ Forall (fun h => In (Highlight.category h) (default CATEGORIES None))
                all_highlights
      /\ (all_highlights = [] ->
          collection (world (snd (process_news_pipeline env_topics
                                    sample_services None initial_system)))
          = collection (world initial_system))
      /\ (collection (world initial_system) = [] ->
          map entry_document
              (collection (world (snd (process_news_pipeline env_topics
                                         sample_services None initial_system))))
          = map doc_text_of all_highlights)
      /\ (exists added,
             collection (world (snd (process_news_pipeline env_topics
                                       sample_services None initial_system)))
             = collection (world initial_system) ++ added
             /\ Forall (fun e => In (entry_document e)
                                    (map doc_text_of all_highlights)
                                 /\ ~ In (entry_id e)
                                         (map entry_id
                                              (collection
                                                 (world initial_system))))
                       added)
      /\ exists requests,
          provider_log (world (snd (process_news_pipeline env_topics
                                      sample_services None initial_system)))
          = provider_log (world initial_system) ++ requests
          /\ length requests <= length all_articles + length all_highlights.
Proof.
  assert (Hrun : process_news_pipeline env_topics sample_services None
                                       initial_system
                 = (fst (process_news_pipeline env_topics sample_services None
                                               initial_system),
                    snd (process_news_pipeline env_topics sample_services None
                                               initial_system)))
    by apply surjective_pairing.
  assert (Hst : status (fst (process_news_pipeline env_topics sample_services
                                                   None initial_system))
                = "success") by (vm_compute; reflexivity).
  split; [exact Hrun|]. split; [exact Hst|].
  exact (pipeline_success env_topics sample_services None initial_system _ _
           Hrun Hst).
Defined.

Lemma generate_all_highlights_none env categories w :
  generate_all_highlights env [] categories w = ([], w).
Proof.
  induction categories as [|category rest IH]; [reflexivity|].
  cbn [generate_all_highlights]. unfold generate_highlights. cbn.
  now rewrite IH.
Qed.

Lemma index_highlights_fails env highlights w e :
  highlights <> [] ->
  encode_fault env = Some e
  \/ (encode_fault env = None /\ add_fault env = Some e) ->
  fst (index_highlights env highlights w) = Raises e.
Proof.
  intros Hne Hf. rewrite index_highlights_spec.
  destruct highlights as [|h hs]; [contradiction|].
  destruct Hf as [->|[-> ->]]; reflexivity.
Qed.

(** X26.  A run of [index_highlights] that fails, in the embedding or in
    the insertion, is reported as an error with both counts 0, although by
    then the database was handed the articles and the highlights; the index
    is left as it was. *)
Theorem pipeline_failed_rebuild env sv categories s extracted s1 e :
  extract_categories env sv (default CATEGORIES categories) [] s
  = (Returns extracted, s1) ->
  save_articles_fault sv = None -> save_highlights_fault sv = None ->
  encode_fault env = Some e
  \/ (encode_fault env = None /\ add_fault env = Some e) ->
  fst (generate_all_highlights env (detect_duplicates env extracted)
         (default CATEGORIES categories) (world s1)) <> [] ->
  exists s',
    process_news_pipeline env sv categories s = (pipeline_error e, s')
    /\ database s'
       = database s
           ++ [SaveArticles (detect_duplicates env extracted);
               SaveHighlights
                 (fst (generate_all_highlights env
                         (detect_duplicates env extracted)
                         (default CATEGORIES categories) (world s1)))]
    /\ collection (world s') = collection (world s).
Proof.
  intros Hex Hsa Hsh Hf Hhl.
  unfold process_news_pipeline, pipeline_body.
  set (cats := default CATEGORIES categories) in *.
  pose proof (extract_categories_spec env sv cats [] s) as (Hdb & Hsent).
  rewrite Hex in *. cbn [fst snd] in Hdb, Hsent.
  destruct Hsent as (new & _ & _ & Hc1 & _).
  destruct extracted as [|a0 rest].
  { exfalso. apply Hhl. change (detect_duplicates env []) with (@nil Article.t).
    now rewrite generate_all_highlights_none. }
  set (extracted := a0 :: rest) in *. clearbody extracted. clear a0 rest.
  unfold save_articles, save_highlights. rewrite Hsa, Hsh.
  cbn [world log_database set_world].
  pose proof (generate_all_highlights_sends env (detect_duplicates env extracted)
                cats (world s1)) as (Hc2 & _).
  destruct (generate_all_highlights env (detect_duplicates env extracted) cats
                                    (world s1)) as [all_highlights w3].
  cbn [fst snd] in Hhl, Hc2.
  cbn [world log_database set_world extractions database].
  pose proof (index_highlights_fails env all_highlights w3 e Hhl Hf) as Hix.
  destruct (index_highlights_cases env all_highlights w3)
    as (_ & _ & _ & _ & Hkept & _).
  specialize (Hkept e Hix).
  destruct (index_highlights env all_highlights w3) as [o w5].
  cbn [fst snd] in Hix, Hkept. subst o.
  eexists. split; [reflexivity|].
  cbn [world database set_world log_database]. rewrite Hdb, <- app_assoc.
  split; [reflexivity|]. congruence.
Qed.

Lemma pipeline_failed_rebuild_witness :
  let env := env_offline_embedding_down in
  let run := extract_categories env sample_services CATEGORIES [] initial_system in
  let extracted := match fst run with Returns l => l | Raises _ => [] end in
  extract_categories env sample_services (default CATEGORIES None) []
                     initial_system
  = (Returns extracted, snd run)
  /\ save_articles_fault sample_services = None
  /\ save_highlights_fault sample_services = None
  /\ encode_fault env = Some "CUDA out of memory"
  /\ fst (generate_all_highlights env (detect_duplicates env extracted)
            (default CATEGORIES None) (world (snd run))) <> []
  /\ exists s',
      process_news_pipeline env sample_services None initial_system
      = (pipeline_error "CUDA out of memory", s')
      /\ database s'
         = database initial_system
             ++ [SaveArticles (detect_duplicates env extracted);
                 SaveHighlights
                   (fst (generate_all_highlights env
                           (detect_duplicates env extracted)
                           (default CATEGORIES None) (world (snd run))))]
      /\ collection (world s') = collection (world initial_system).
Proof.
  intros env run extracted.
  assert (Hex : extract_categories env sample_services (default CATEGORIES None)
                                   [] initial_system
                = (Returns extracted, snd run)) by (vm_compute; reflexivity).
  assert (Hhl : fst (generate_all_highlights env
                       (detect_duplicates env extracted)
                       (default CATEGORIES None) (world (snd run))) <> [])
    by (vm_compute; discriminate).
  split; [exact Hex|]. split; [reflexivity|]. split; [reflexivity|].
  split; [reflexivity|]. split; [exact Hhl|].
  exact (pipeline_failed_rebuild env sample_services None initial_system
           extracted (snd run) "CUDA out of memory" Hex eq_refl eq_refl
           (or_introl eq_refl) Hhl).
Defined.

(** X27.  Without articles nothing is stored.  When every category asked
    for is unknown to [NEWS_SOURCES], the pipeline reports "No articles
    extracted" and changes nothing at all; when the extractor returns no
    article for any category, it reports the same and leaves the database,
    the index and the provider alone; and when the extractor raises, the
    error is reported with the database and the index as they were. *)
Theorem pipeline_without_articles env sv categories s :
  (Forall (fun category => sources_of category = None)
          (default CATEGORIES categories) ->
   process_news_pipeline env sv categories s
   = (pipeline_error "No articles extracted", s))
  /\ (fst (extract_categories env sv (default CATEGORIES categories) [] s)
      = Returns [] ->
      fst (process_news_pipeline env sv categories s)
      = pipeline_error "No articles extracted"
      /\ database (snd (process_news_pipeline env sv categories s)) = database s
      /\ collection (world (snd (process_news_pipeline env sv categories s)))
         = collection (world s)
      /\ provider_log (world (snd (process_news_pipeline env sv categories s)))
         = provider_log (world s))
  /\ (forall e,
         fst (extract_categories env sv (default CATEGORIES categories) [] s)
         = Raises e ->
         fst (process_news_pipeline env sv categories s) = pipeline_error e
         /\ database (snd (process_news_pipeline env sv categories s))
            = database s
         /\ collection (world (snd (process_news_pipeline env sv categories s)))
            = collection (world s)).
Proof.
  unfold process_news_pipeline, pipeline_body.
  set (cats := default CATEGORIES categories).
  split; [|split].
  - intros Hunknown.
    assert (Hex : forall all_articles,
               extract_categories env sv cats all_articles s
               = (Returns all_articles, s)).
    { induction Hunknown as [|category rest Hc _ IH]; intros all_articles;
        [reflexivity|].
      cbn [extract_categories]. rewrite Hc. apply IH. }
    now rewrite Hex.
  - intros Hnone.
    destruct (extract_categories_spec env sv cats [] s) as (Hdb & Hex).
    destruct (extract_categories env sv cats [] s) as [out s1].
    cbn [fst snd] in *. subst out.
    destruct Hex as (new & Hnew & _ & Hc & _ & requests & Hl & Hn).
    cbn [app] in Hnew. subst new. cbn [fst snd].
    split; [reflexivity|]. split; [exact Hdb|]. split; [exact Hc|].
    destruct requests; [|simpl in Hn; lia]. now rewrite app_nil_r in Hl.
  - intros e Hraise.
    destruct (extract_categories_spec env sv cats [] s) as (Hdb & Hex).
    destruct (extract_categories env sv cats [] s) as [out s1].
    cbn [fst snd] in *. subst out.
    destruct Hex as (n & Hc & _). cbn [fst snd].
    split; [reflexivity|]. split; [exact Hdb|exact Hc].
Qed.
